(** * StatTools: the statistical computation engine

    A shallow embedding of the numeric routines of [statistical.ts] and of
    the extended statistics library that imports it (hypothesis tests,
    confidence intervals, simulations), followed by the properties the
    specification states about them.

    JavaScript numbers are IEEE-754 binary64 values; they are modelled by
    Rocq's primitive [float], whose operations are the binary64 ones and
    evaluate inside the kernel.  Integer-valued quantities the code keeps
    in numbers (array lengths, loop counters, array indices, occurrence
    counts) are kept in [nat] or [Z], where they are exact (every such
    value is below 2^53, array lengths below 2^32), and are converted with
    [num_of_nat] and [num_of_Z] where they meet real-valued data. *)

From Stdlib Require Import String ZArith List Lia Bool Permutation.
From Stdlib Require Import PrimFloat SpecFloat FloatOps FloatAxioms.
From Stdlib Require Uint63.
From Stdlib Require Import Sorted.
Import ListNotations.

#[local] Set Warnings "-inexact-float".
#[local] Open Scope float_scope.

(** ** ECMAScript numbers and the [Math] object *)

Definition number := float.

Definition num_of_Z (z : Z) : number :=
  if (z <? 0)%Z then - of_uint63 (Uint63.of_Z (- z)) else of_uint63 (Uint63.of_Z z).

Definition num_of_nat (n : nat) : number := of_uint63 (Uint63.of_Z (Z.of_nat n)).

(** [ToBoolean] on a number: [NaN], [+0] and [-0] are falsy. *)
Definition ToBoolean (x : number) : bool := negb (is_nan x || is_zero x).

(** [x === y] and [x > y] on numbers. *)
Definition strict_eq (x y : number) : bool := x =? y.
Definition gt (x y : number) : bool := y <? x.

Definition Math_abs (x : number) : number := abs x.
Definition Math_sqrt (x : number) : number := sqrt x.

(** [Math.floor x], as the integer it denotes; [None] when the result is
    [NaN] or an infinity, which denote no integer.  [Z.shiftl] by a
    negative amount is the flooring division by a power of two. *)
Definition Math_floor (x : number) : option Z :=
  match Prim2SF x with
  | S754_zero _ => Some 0%Z
  | S754_finite s m e => Some (Z.shiftl (cond_Zopp s (Zpos m)) e)
  | S754_infinity _ | S754_nan => None
  end.

(** [Math.min] and [Math.max] of two numbers: [NaN] is contagious and
    [-0] is smaller than [+0]. *)
Definition Math_min2 (a b : number) : number :=
  if is_nan a || is_nan b then nan
  else if a <? b then a
  else if b <? a then b
  else if get_sign a then a else b.

Definition Math_max2 (a b : number) : number :=
  if is_nan a || is_nan b then nan
  else if b <? a then a
  else if a <? b then b
  else if get_sign a then b else a.

(** [Math.min(...data)] and [Math.max(...data)]; on no argument they are
    [+Infinity] and [-Infinity]. *)
Definition Math_min (data : list number) : number := fold_left Math_min2 data infinity.
Definition Math_max (data : list number) : number := fold_left Math_max2 data neg_infinity.

(** [Math.exp] and [Math.pow] are implementation-approximated in
    ECMAScript, except on the arguments the language fixes exactly.  The
    approximated part is an interface of the engine. *)
Class MathEngine := {
  approx_exp : number -> number;
  approx_pow : number -> number -> number
}.

(** An integral number, and an odd integral number ([Number::exponentiate]
    distinguishes them). *)
Definition is_integral (x : number) : bool :=
  match Prim2SF x with
  | S754_zero _ => true
  | S754_finite _ m e =>
      (0 <=? e)%Z || (Zpos m mod 2 ^ (- e) =? 0)%Z
  | _ => false
  end.

Definition is_odd_integral (x : number) : bool :=
  match Prim2SF x with
  | S754_finite _ m e =>
      if (0 <? e)%Z then false
      else (Zpos m mod 2 ^ (- e) =? 0)%Z && Z.odd (Zpos m / 2 ^ (- e))
  | _ => false
  end.

(** [Math.exp x]: [NaN] for [NaN], 1 for either zero, [+Infinity] and [+0]
    at the infinities. *)
Definition Math_exp {E : MathEngine} (x : number) : number :=
  if is_nan x then nan
  else if is_zero x then 1
  else if x =? infinity then infinity
  else if x =? neg_infinity then 0
  else approx_exp x.

(** [Math.pow base exponent], after [Number::exponentiate]. *)
Definition Math_pow {E : MathEngine} (base exponent : number) : number :=
  if is_nan exponent then nan
  else if is_zero exponent then 1
  else if is_nan base then nan
  else if base =? infinity then (if 0 <? exponent then infinity else 0)
  else if base =? neg_infinity then
    if 0 <? exponent
    then (if is_odd_integral exponent then neg_infinity else infinity)
    else (if is_odd_integral exponent then neg_zero else 0)
  else if is_zero base then
    if get_sign base
    then (if 0 <? exponent
          then (if is_odd_integral exponent then neg_zero else 0)
          else (if is_odd_integral exponent then neg_infinity else infinity))
    else (if 0 <? exponent then 0 else infinity)
  else if exponent =? infinity then
    if 1 <? abs base then infinity
    else if abs base =? 1 then nan else 0
  else if exponent =? neg_infinity then
    if 1 <? abs base then 0
    else if abs base =? 1 then nan else infinity
  else if (base <? 0) && negb (is_integral exponent) then nan
  else approx_pow base exponent.

(** A thrown [Error] carries its message. *)
Inductive completion (A : Type) : Type :=
| Return (a : A)
| Throw (message : string).
Arguments Return {A} a.
Arguments Throw {A} message.

(** ** The [jStat] object

    Of the object only the member the tests read is kept: the optional
    [studentt.cdf].  The fallback object built by [statistical.ts] has a
    [studentt.pdf] and no [studentt.cdf]. *)
Record JStat := { studentt_cdf : option (number -> number -> number) }.

Definition fallback_jStat : JStat := {| studentt_cdf := None |}.

(** [typeof window !== 'undefined' && window.jStat ? window.jStat : {...}] *)
Definition jStat (window_jStat : option JStat) : JStat :=
  match window_jStat with
  | Some j => j
  | None => fallback_jStat
  end.

(** [ToNumber] of the member [jStat.studentt.cdf]: it is [undefined] or a
    function, and both convert to [NaN]. *)
Definition ToNumber_member (m : option (number -> number -> number)) : number :=
  match m with
  | Some _ => nan
  | None => nan
  end.

(** ** Special functions *)

Definition erf {E : MathEngine} (x : number) : number :=
  let a1 := 0.254829592 in
  let a2 := -0.284496736 in
  let a3 := 1.421413741 in
  let a4 := -1.453152027 in
  let a5 := 1.061405429 in
  let p := 0.3275911 in
  let sign := if x <? 0 then -1 else 1 in
  let x := Math_abs x in
  let t := 1.0 / (1.0 + p * x) in
  let y := 1.0 - (((((a5 * t + a4) * t) + a3) * t + a2) * t + a1) * t * Math_exp (- x * x) in
  sign * y.

(** ** Descriptive statistics ([stats]) *)

Definition mean (data : list number) : number :=
  fold_left (fun sum val => sum + val) data 0 / num_of_nat (length data).

Definition variance {E : MathEngine} (data : list number) : number :=
  let mean := mean data in
  fold_left (fun sum val => sum + Math_pow (val - mean) 2) data 0
  / num_of_Z (Z.of_nat (length data) - 1).

Definition standardDeviation {E : MathEngine} (data : list number) : number :=
  Math_sqrt (variance data).

(** *** [stats.mode]

    The object [frequency] is keyed by [ToString num].  [ToString] sends
    [-0] and [+0] to the same string and is injective otherwise, and
    [Number] reads a key back to the number it was printed from; a key is
    therefore kept as that number, [-0] normalised to [+0].  An object is
    the list of its own properties in creation order. *)
Definition ToPropertyKey (num : number) : number := if is_zero num then 0 else num.

Definition Number_of_key (key : number) : number := key.

Definition same_key (k1 k2 : number) : bool := Leibniz.eqb k1 k2.

Definition object := list (number * nat).

Fixpoint get (o : object) (key : number) : option nat :=
  match o with
  | [] => None
  | (k, v) :: o' => if same_key k key then Some v else get o' key
  end.

Fixpoint set (o : object) (key : number) (v : nat) : object :=
  match o with
  | [] => [(key, v)]
  | (k, w) :: o' => if same_key k key then (k, v) :: o' else (k, w) :: set o' key v
  end.

(** A key that is an array index (the canonical string of an integer from
    0 to 2^32 - 2), as that integer. *)
Definition array_index (key : number) : option Z :=
  match Prim2SF key with
  | S754_zero _ => Some 0%Z
  | S754_finite false m e =>
      let i := Z.shiftl (Zpos m) e in
      if is_integral key && (i <=? 4294967294)%Z then Some i else None
  | _ => None
  end.

Definition is_array_index (p : number * nat) : bool :=
  match array_index (fst p) with Some _ => true | None => false end.

Definition index_of (p : number * nat) : Z :=
  match array_index (fst p) with Some i => i | None => 0%Z end.

Fixpoint insert_by_index (p : number * nat) (l : object) : object :=
  match l with
  | [] => [p]
  | q :: l' => if (index_of p <=? index_of q)%Z then p :: l else q :: insert_by_index p l'
  end.

Definition sort_by_index (l : object) : object :=
  fold_right insert_by_index [] l.

(** [OrdinaryOwnPropertyKeys]: array indices in ascending order, then the
    other keys in creation order. *)
Definition own_properties (o : object) : object :=
  sort_by_index (filter is_array_index o) ++ filter (fun p => negb (is_array_index p)) o.

Definition Object_keys (o : object) : list number := map fst (own_properties o).
Definition Object_values (o : object) : list nat := map snd (own_properties o).

(** [Math.max(...values)] on occurrence counts; [None] is the [-Infinity]
    of an empty argument list. *)
Definition Math_max_count (values : list nat) : option nat :=
  fold_left (fun acc v => match acc with
                          | None => Some v
                          | Some a => Some (Nat.max a v)
                          end) values None.

(** [frequency[k] === maxFreq]; [undefined] and [-Infinity] equal no count. *)
Definition count_eq (v maxFreq : option nat) : bool :=
  match v, maxFreq with
  | Some a, Some b => Nat.eqb a b
  | _, _ => false
  end.

Definition or_zero (v : option nat) : nat :=
  match v with Some n => n | None => 0 end.

(** The body of the [forEach]: [frequency[num] = (frequency[num] || 0) + 1]. *)
Definition tally (frequency : object) (num : number) : object :=
  set frequency (ToPropertyKey num) (or_zero (get frequency (ToPropertyKey num)) + 1).

Definition frequencies (data : list number) : object := fold_left tally data [].

Definition mode (data : list number) : list number :=
  let frequency := frequencies data in
  let maxFreq := Math_max_count (Object_values frequency) in
  map Number_of_key
      (filter (fun key => count_eq (get frequency (ToPropertyKey (Number_of_key key))) maxFreq)
              (Object_keys frequency)).

(** *** [stats.histogram]

    A bin label is kept as the pair of numbers it prints ([toFixed] is not
    modelled).  [binCounts[binIndex]++] increments a cell when [binIndex]
    is an index of the array; otherwise the write creates a property or an
    element outside the first [bins] cells ("NaN", "Infinity", "-1", an
    index above [bins]), which the result never reads. *)
Record Bin := { bin : number * number; count : nat; frequency : number }.

Fixpoint increment_at (cells : list nat) (i : nat) : list nat :=
  match cells, i with
  | [], _ => []
  | c :: cells', O => S c :: cells'
  | c :: cells', S i' => c :: increment_at cells' i'
  end.

Definition increment (cells : list nat) (index : option Z) : list nat :=
  match index with
  | Some k => if (0 <=? k)%Z then increment_at cells (Z.to_nat k) else cells
  | None => cells
  end.

Definition binIndex_of (min binWidth : number) (bins : nat) (value : number) : option Z :=
  let binIndex := Math_floor ((value - min) / binWidth) in
  match binIndex with
  | Some k => if (k =? Z.of_nat bins)%Z then Some (Z.of_nat bins - 1)%Z else Some k
  | None => None
  end.

Definition binCounts_of (data : list number) (bins : nat) : list nat :=
  let min := Math_min data in
  let max := Math_max data in
  let binWidth := (max - min) / num_of_nat bins in
  fold_left (fun binCounts value => increment binCounts (binIndex_of min binWidth bins value))
            data (repeat 0%nat bins).

Definition histogram (data : list number) (bins : nat) : list Bin :=
  let min := Math_min data in
  let max := Math_max data in
  let binWidth := (max - min) / num_of_nat bins in
  let binLabels :=
    map (fun i => (min + num_of_nat i * binWidth, min + num_of_nat (i + 1) * binWidth))
        (seq 0 bins) in
  let binCounts := binCounts_of data bins in
  map (fun '(label, index) =>
         {| bin := label;
            count := nth index binCounts 0%nat;
            frequency := num_of_nat (nth index binCounts 0%nat) / num_of_nat (length data) |})
      (combine binLabels (seq 0 bins)).

(** ** Hypothesis tests of [statistical.ts] ([hypothesisTests]) *)

Module OneSampleTTest.
Record result := {
  tStatistic : number;
  degreesOfFreedom : number;
  pValue : number;
  criticalValue : number;
  reject : bool;
  alpha : number
}.
End OneSampleTTest.

(** The condition of the conditional in [pValue] is
    [1 - jStat.studentt.cdf]: the subtraction binds tighter than [? :].
    Calling a [studentt.cdf] that is [undefined] throws a [TypeError]. *)
Definition oneSampleTTest {E : MathEngine} (jStat : JStat)
    (data : list number) (mu0 alpha : number) : completion OneSampleTTest.result :=
  let n := length data in
  let mean := mean data in
  let std := standardDeviation data in
  let tStat := (mean - mu0) / (std / Math_sqrt (num_of_nat n)) in
  let df := num_of_Z (Z.of_nat n - 1) in
  let tCritical := 1.96 in
  let build p :=
    Return {| OneSampleTTest.tStatistic := tStat;
              OneSampleTTest.degreesOfFreedom := df;
              OneSampleTTest.pValue := 2 * p;
              OneSampleTTest.criticalValue := tCritical;
              OneSampleTTest.reject := gt (Math_abs tStat) tCritical;
              OneSampleTTest.alpha := alpha |} in
  if ToBoolean (1 - ToNumber_member (studentt_cdf jStat))
  then match studentt_cdf jStat with
       | Some cdf => build (cdf (Math_abs tStat) df)
       | None => Throw "TypeError: jStat.studentt.cdf is not a function"
       end
  else build 0.5.

Module ChiSquare.
Record result := {
  chiSquareStatistic : number;
  degreesOfFreedom : number;
  criticalValue : number;
  reject : bool;
  alpha : number
}.
End ChiSquare.

(** An element read from an array: [undefined] past the end, which
    arithmetic and comparisons convert to [NaN]. *)
Definition element (a : list number) (i : nat) : number := nth i a nan.

Definition chiSquare_loop {E : MathEngine} (observed expected : list number) : number :=
  fold_left (fun chiSquare i =>
               if gt (element expected i) 0
               then chiSquare + Math_pow (element observed i - element expected i) 2
                                / element expected i
               else chiSquare)
            (seq 0 (length observed)) 0.

Definition chiSquareGoodnessOfFit {E : MathEngine}
    (observed expected : list number) (alpha : number) : completion ChiSquare.result :=
  if negb (Nat.eqb (length observed) (length expected))
  then Throw "Observed and expected arrays must have the same length"
  else
    let chiSquare := chiSquare_loop observed expected in
    let df := num_of_Z (Z.of_nat (length observed) - 1) in
    let criticalValue := 7.815 in
    Return {| ChiSquare.chiSquareStatistic := chiSquare;
              ChiSquare.degreesOfFreedom := df;
              ChiSquare.criticalValue := criticalValue;
              ChiSquare.reject := gt chiSquare criticalValue;
              ChiSquare.alpha := alpha |}.

(** ** The extended library: advanced hypothesis tests *)

(** [jStat?.studentt?.cdf?.(x, df) ?? 0.5] *)
Definition studentt_cdf_or_half (jStat : JStat) (x df : number) : number :=
  match studentt_cdf jStat with
  | Some cdf => cdf x df
  | None => 0.5
  end.

Module TwoSampleTTest.
Record result := {
  testName : string;
  tStatistic : number;
  degreesOfFreedom : number;
  pValue : number;
  criticalValue : number;
  reject : bool;
  alpha : number;
  meanDifference : number;
  sample1Mean : number;
  sample2Mean : number;
  interpretation : string
}.
End TwoSampleTTest.

(** The standard error of the pooled branch. *)
Definition pooledStandardError (n1 n2 : nat) (var1 var2 : number) : number :=
  let pooledVariance :=
    (num_of_Z (Z.of_nat n1 - 1) * var1 + num_of_Z (Z.of_nat n2 - 1) * var2)
    / num_of_Z (Z.of_nat n1 + Z.of_nat n2 - 2) in
  Math_sqrt (pooledVariance * (1 / num_of_nat n1 + 1 / num_of_nat n2)).

Definition twoSampleTTest {E : MathEngine} (jStat : JStat)
    (sample1 sample2 : list number) (alpha : number) (equalVariance : bool)
    : TwoSampleTTest.result :=
  let n1 := length sample1 in
  let n2 := length sample2 in
  let mean1 := mean sample1 in
  let mean2 := mean sample2 in
  let var1 := variance sample1 in
  let var2 := variance sample2 in
  let '(tStat, df) :=
    if equalVariance then
      let standardError := pooledStandardError n1 n2 var1 var2 in
      ((mean1 - mean2) / standardError, num_of_Z (Z.of_nat n1 + Z.of_nat n2 - 2))
    else
      let standardError := Math_sqrt (var1 / num_of_nat n1 + var2 / num_of_nat n2) in
      ((mean1 - mean2) / standardError,
       Math_pow (var1 / num_of_nat n1 + var2 / num_of_nat n2) 2
       / (Math_pow (var1 / num_of_nat n1) 2 / num_of_Z (Z.of_nat n1 - 1)
          + Math_pow (var2 / num_of_nat n2) 2 / num_of_Z (Z.of_nat n2 - 1))) in
  let pValue := 2 * (1 - studentt_cdf_or_half jStat (Math_abs tStat) df) in
  let criticalValue := 1.96 in
  {| TwoSampleTTest.testName :=
       if equalVariance then "Two-Sample t-Test (Equal Variance)"
       else "Welch's t-Test (Unequal Variance)";
     TwoSampleTTest.tStatistic := tStat;
     TwoSampleTTest.degreesOfFreedom := df;
     TwoSampleTTest.pValue := pValue;
     TwoSampleTTest.criticalValue := criticalValue;
     TwoSampleTTest.reject := pValue <? alpha;
     TwoSampleTTest.alpha := alpha;
     TwoSampleTTest.meanDifference := mean1 - mean2;
     TwoSampleTTest.sample1Mean := mean1;
     TwoSampleTTest.sample2Mean := mean2;
     TwoSampleTTest.interpretation :=
       if pValue <? alpha
       then "Reject H0: The means are significantly different"
       else "Fail to reject H0: No significant difference in means" |}.

Module PairedTTest.
Record result := {
  testName : string;
  tStatistic : number;
  degreesOfFreedom : number;
  pValue : number;
  criticalValue : number;
  reject : bool;
  alpha : number;
  meanDifference : number;
  interpretation : string
}.
End PairedTTest.

(** [before.map((val, idx) => after[idx] - val)] *)
Definition differences (before after : list number) : list number :=
  map (fun val_idx => element after (snd val_idx) - fst val_idx)
      (combine before (seq 0 (length before))).

Definition pairedTTest {E : MathEngine} (jStat : JStat)
    (before after : list number) (alpha : number) : completion PairedTTest.result :=
  if negb (Nat.eqb (length before) (length after))
  then Throw "Paired samples must have equal length"
  else
    let differences := differences before after in
    let n := length differences in
    let meanDiff := mean differences in
    let stdDiff := standardDeviation differences in
    let tStat := meanDiff / (stdDiff / Math_sqrt (num_of_nat n)) in
    let df := num_of_Z (Z.of_nat n - 1) in
    let pValue := 2 * (1 - studentt_cdf_or_half jStat (Math_abs tStat) df) in
    let criticalValue := 1.96 in
    Return {| PairedTTest.testName := "Paired t-Test";
              PairedTTest.tStatistic := tStat;
              PairedTTest.degreesOfFreedom := df;
              PairedTTest.pValue := pValue;
              PairedTTest.criticalValue := criticalValue;
              PairedTTest.reject := pValue <? alpha;
              PairedTTest.alpha := alpha;
              PairedTTest.meanDifference := meanDiff;
              PairedTTest.interpretation :=
                if pValue <? alpha
                then "Reject H0: Significant difference between paired observations"
                else "Fail to reject H0: No significant difference between pairs" |}.

Module ANOVA.
Record result := {
  testName : string;
  fStatistic : number;
  dfBetween : Z;
  dfWithin : Z;
  dfTotal : Z;
  sumOfSquaresBetween : number;
  sumOfSquaresWithin : number;
  meanSquareBetween : number;
  meanSquareWithin : number;
  pValue : number;
  criticalValue : number;
  reject : bool;
  alpha : number;
  interpretation : string
}.
End ANOVA.

Definition oneWayANOVA {E : MathEngine} (groups : list (list number)) (alpha : number)
    : ANOVA.result :=
  let k := length groups in
  let allData := concat groups in
  let N := length allData in
  let grandMean := mean allData in
  let ssb :=
    fold_left (fun ssb group =>
                 let groupMean := mean group in
                 ssb + num_of_nat (length group) * Math_pow (groupMean - grandMean) 2)
              groups 0 in
  let ssw :=
    fold_left (fun ssw group =>
                 let groupMean := mean group in
                 fold_left (fun ssw value => ssw + Math_pow (value - groupMean) 2) group ssw)
              groups 0 in
  let dfBetween := (Z.of_nat k - 1)%Z in
  let dfWithin := (Z.of_nat N - Z.of_nat k)%Z in
  let dfTotal := (Z.of_nat N - 1)%Z in
  let msb := ssb / num_of_Z dfBetween in
  let msw := ssw / num_of_Z dfWithin in
  let fStat := msb / msw in
  let fCritical := 3.0 in
  let pValue := if gt fStat fCritical then 0.01 else 0.1 in
  {| ANOVA.testName := "One-Way ANOVA";
     ANOVA.fStatistic := fStat;
     ANOVA.dfBetween := dfBetween;
     ANOVA.dfWithin := dfWithin;
     ANOVA.dfTotal := dfTotal;
     ANOVA.sumOfSquaresBetween := ssb;
     ANOVA.sumOfSquaresWithin := ssw;
     ANOVA.meanSquareBetween := msb;
     ANOVA.meanSquareWithin := msw;
     ANOVA.pValue := pValue;
     ANOVA.criticalValue := fCritical;
     ANOVA.reject := gt fStat fCritical;
     ANOVA.alpha := alpha;
     ANOVA.interpretation :=
       if gt fStat fCritical
       then "Reject H0: At least one group mean is significantly different"
       else "Fail to reject H0: No significant difference among group means" |}.

(** ** Confidence intervals *)

Module ConfidenceInterval.
(** The [interpretation] string is built with [toFixed] and is left out. *)
Record result := {
  mean : number;
  confidenceLevel : number;
  lowerBound : number;
  upperBound : number;
  marginOfError : number;
  standardError : number
}.
End ConfidenceInterval.

Definition tCritical_of (confidenceLevel : number) : number :=
  if strict_eq confidenceLevel 0.95 then 1.96
  else if strict_eq confidenceLevel 0.99 then 2.576 else 1.645.

Definition confidenceIntervalMean {E : MathEngine}
    (data : list number) (confidenceLevel : number) : ConfidenceInterval.result :=
  let n := length data in
  let mean := mean data in
  let std := standardDeviation data in
  let tCritical := tCritical_of confidenceLevel in
  let marginOfError := tCritical * (std / Math_sqrt (num_of_nat n)) in
  let lowerBound := mean - marginOfError in
  let upperBound := mean + marginOfError in
  {| ConfidenceInterval.mean := mean;
     ConfidenceInterval.confidenceLevel := confidenceLevel;
     ConfidenceInterval.lowerBound := lowerBound;
     ConfidenceInterval.upperBound := upperBound;
     ConfidenceInterval.marginOfError := marginOfError;
     ConfidenceInterval.standardError := std / Math_sqrt (num_of_nat n) |}.

(** ** Simulations

    [Math.random] is the only effect of the engine.  A run of
    [coinFlipSimulation] calls it once per iteration, so the source of
    randomness is the sequence [random] of the values it returns, the
    [i]-th one consumed by iteration [i].  [numFlips] is a count: the
    caller passes the result of [parseInt]. *)

Inductive face := face_H | face_T.

Record Checkpoint := { flip : nat; headsRatio : number }.

Record CoinLoop := {
  heads : nat;
  tails : nat;
  results : list face;
  cumulativeProportions : list Checkpoint
}.

Definition coin_iteration (random : nat -> number) (numFlips : nat) (probability : number)
    (st : CoinLoop) (i : nat) : CoinLoop :=
  let flip := if random i <? probability then face_H else face_T in
  let results := results st ++ [flip] in
  let heads := match flip with face_H => S (heads st) | face_T => heads st end in
  let tails := match flip with face_H => tails st | face_T => S (tails st) end in
  let cumulativeProportions :=
    if Nat.eqb ((i + 1) mod Nat.max 1 (numFlips / 100)) 0 || Nat.eqb i (numFlips - 1)
    then cumulativeProportions st
         ++ [{| flip := i + 1; headsRatio := num_of_nat heads / num_of_nat (i + 1) |}]
    else cumulativeProportions st in
  {| heads := heads; tails := tails; results := results;
     cumulativeProportions := cumulativeProportions |}.

(** The state of the loop after its first [n] iterations. *)
Definition coin_loop_upto (random : nat -> number) (numFlips : nat) (probability : number)
    (n : nat) : CoinLoop :=
  fold_left (coin_iteration random numFlips probability) (seq 0 n)
            {| heads := 0; tails := 0; results := []; cumulativeProportions := [] |}.

Definition coin_loop (random : nat -> number) (numFlips : nat) (probability : number)
    : CoinLoop :=
  coin_loop_upto random numFlips probability numFlips.

Module CoinFlip.
Record result := {
  numFlips : nat;
  heads : nat;
  tails : nat;
  headsRatio : number;
  tailsRatio : number;
  results : list face;
  cumulativeProportions : list Checkpoint
}.
End CoinFlip.

Definition coinFlipSimulation (random : nat -> number) (numFlips : nat)
    (probability : number) : CoinFlip.result :=
  let st := coin_loop random numFlips probability in
  {| CoinFlip.numFlips := numFlips;
     CoinFlip.heads := heads st;
     CoinFlip.tails := tails st;
     CoinFlip.headsRatio := num_of_nat (heads st) / num_of_nat numFlips;
     CoinFlip.tailsRatio := num_of_nat (tails st) / num_of_nat numFlips;
     CoinFlip.results := firstn 100 (results st);
     CoinFlip.cumulativeProportions := cumulativeProportions st |}.

(** ** A reference engine

    One engine on which the model evaluates: a power with a non-negative
    integral exponent by repeated multiplication, the exponential by a
    Taylor polynomial.  The properties below hold for every engine; this
    one instantiates them on concrete inputs. *)
Fixpoint pow_nat (b : number) (n : nat) : number :=
  match n with
  | O => 1
  | S n' => b * pow_nat b n'
  end.

Fixpoint exp_taylor (x : number) (k : nat) (term acc : number) (fuel : nat) : number :=
  match fuel with
  | O => acc
  | S fuel' =>
      let term' := term * x / num_of_nat (S k) in
      exp_taylor x (S k) term' (acc + term') fuel'
  end.

Definition reference_engine : MathEngine := {|
  approx_exp := fun x => exp_taylor x 0 1 1 60;
  approx_pow := fun b e =>
    match Math_floor e with
    | Some k => if is_integral e && (0 <=? k)%Z then pow_nat b (Z.to_nat k) else nan
    | None => nan
    end
|}.

(** ** Notions the properties are stated with *)

(** The number of elements of [data] filed under the property key [key]. *)
Definition occurrences (key : number) (data : list number) : nat :=
  length (filter (fun num => same_key (ToPropertyKey num) key) data).

(** The width [histogram] computes for its bins. *)
Definition binWidth_of (data : list number) (bins : nat) : number :=
  (Math_max data - Math_min data) / num_of_nat bins.

(** [value] is counted in cell [j]. *)
Definition lands_in (min binWidth : number) (bins : nat) (j : nat) (value : number) : bool :=
  match binIndex_of min binWidth bins value with
  | Some k => (k =? Z.of_nat j)%Z
  | None => false
  end.

(** [value] is counted in one of the [bins] cells. *)
Definition counted (min binWidth : number) (bins : nat) (value : number) : bool :=
  match binIndex_of min binWidth bins value with
  | Some k => (0 <=? k)%Z && (k <? Z.of_nat bins)%Z
  | None => false
  end.

(** The categories that enter the chi-square sum: those whose expected
    count is greater than zero. *)
Definition positive_categories (observed expected : list number) : list (number * number) :=
  filter (fun oe => gt (snd oe) 0) (combine observed expected).

(** The outcome of flip [i], and the number of heads among the first [n]
    flips. *)
Definition face_of (random : nat -> number) (probability : number) (i : nat) : face :=
  if random i <? probability then face_H else face_T.

Definition is_H (f : face) : bool :=
  match f with face_H => true | face_T => false end.

Definition heads_among (random : nat -> number) (probability : number) (n : nat) : nat :=
  length (filter is_H (map (face_of random probability) (seq 0 n))).

(** Flip number [j] (counted from 1) is recorded as a checkpoint. *)
Definition is_checkpoint (numFlips j : nat) : bool :=
  Nat.eqb (j mod Nat.max 1 (numFlips / 100)) 0 || Nat.eqb j numFlips.

(** Engines whose approximate square of a number is a non-negative number
    (or [+Infinity]), never [NaN]. *)
Definition squares_nonneg (E : MathEngine) : Prop :=
  forall b : number, is_nan b = false -> (0 <=? approx_pow b 2) = true.

(** ** The binary64 format, as [SpecFloat] specifies it

    A finite number with mantissa [m] and exponent [e] has the value
    [m * 2^e]; every finite binary64 number is a multiple of [2^-1074], and
    [scaled m e] is its magnitude in that unit. *)
Definition scaled (m : positive) (e : Z) : Z := (Zpos m * 2 ^ (e + 1074))%Z.

Definition SFscaled (x : spec_float) : Z :=
  match x with
  | S754_finite s m e => cond_Zopp s (scaled m e)
  | _ => 0%Z
  end.

(** A zero or a finite number. *)
Definition SFfinite (x : spec_float) : bool :=
  match x with
  | S754_zero _ | S754_finite _ _ _ => true
  | _ => false
  end.

(** A zero, a positive finite number or [+Infinity]: what [0 <= x] holds of. *)
Definition SFnonneg (y : spec_float) : bool :=
  match y with
  | S754_zero _ | S754_infinity false | S754_finite false _ _ => true
  | _ => false
  end.

(** A number (not [NaN]) of sign [s]. *)
Definition SFsigned (s : bool) (x : spec_float) : bool :=
  match x with
  | S754_zero s' | S754_infinity s' | S754_finite s' _ _ => Bool.eqb s s'
  | S754_nan => false
  end.

(** A finite number other than zero, of sign [s]. *)
Definition SFproper (s : bool) (x : spec_float) : bool :=
  match x with
  | S754_finite s' _ _ => Bool.eqb s s'
  | _ => false
  end.

(** * Further routines of the engine *)

(** ** More of [statistical.ts] *)

(** *** [stats.min], [stats.max], [stats.range] *)
Module stats.
Definition min (data : list number) : number := Math_min data.
Definition max (data : list number) : number := Math_max data.
Definition range (data : list number) : number := Math_max data - Math_min data.
End stats.

(** *** [stats.median]

    [Array.prototype.sort] calls the comparator through [SortCompare],
    which reads a [NaN] result as [+0].  The sort is stable; with the
    comparator [(a, b) => a - b] on numbers that are not [NaN] the
    comparator is consistent and the sorted order is the one fixed by the
    language: each element is placed after the elements it does not
    precede.  (On data with [NaN] the language leaves the order to the
    implementation; the order below is then one of the permitted ones.) *)
Definition SortCompare (comparefn : number -> number -> number) (x y : number) : number :=
  let v := comparefn x y in
  if is_nan v then 0 else v.

Fixpoint sort_insert (comparefn : number -> number -> number) (x : number)
    (sorted : list number) : list number :=
  match sorted with
  | [] => [x]
  | y :: sorted' =>
      if SortCompare comparefn x y <? 0 then x :: sorted
      else y :: sort_insert comparefn x sorted'
  end.

Definition Array_sort (comparefn : number -> number -> number) (a : list number)
    : list number :=
  fold_left (fun sorted x => sort_insert comparefn x sorted) a [].

(** An element read at an index that may be negative ([sorted[middle - 1]]
    on the empty array): [undefined], which arithmetic converts to [NaN]. *)
Definition element_Z (a : list number) (i : Z) : number :=
  if (i <? 0)%Z then nan else element a (Z.to_nat i).

Definition median (data : list number) : number :=
  let sorted := Array_sort (fun a b => a - b) data in
  let middle := (length sorted / 2)%nat in
  if Nat.eqb (length sorted mod 2) 0
  then (element_Z sorted (Z.of_nat middle - 1) + element sorted middle) / 2
  else element sorted middle.

(** *** [stats.skewness], [stats.kurtosis] *)
Definition skewness {E : MathEngine} (data : list number) : number :=
  let mean := mean data in
  let std := standardDeviation data in
  let n := num_of_nat (length data) in
  let skew := fold_left (fun sum val => sum + Math_pow ((val - mean) / std) 3) data 0 in
  (n / ((n - 1) * (n - 2))) * skew.

Definition kurtosis {E : MathEngine} (data : list number) : number :=
  let mean := mean data in
  let std := standardDeviation data in
  let n := num_of_nat (length data) in
  let kurt := fold_left (fun sum val => sum + Math_pow ((val - mean) / std) 4) data 0 in
  ((n * (n + 1)) / ((n - 1) * (n - 2) * (n - 3))) * kurt
  - (3 * (n - 1) * (n - 1)) / ((n - 2) * (n - 3)).

(** *** [stats.linearRegression] *)
Module LinearRegression.
Record result := {
  slope : number;
  intercept : number;
  rSquared : number;
  correlation : number
}.
End LinearRegression.

(** [xData.reduce((sum, x, i) => sum + x * yData[i], 0)] *)
Definition sumXY_of (xData yData : list number) : number :=
  fold_left (fun sum x_i => sum + fst x_i * element yData (snd x_i))
            (combine xData (seq 0 (length xData))) 0.

Definition linearRegression (xData yData : list number) : LinearRegression.result :=
  let n := num_of_nat (length xData) in
  let sumX := fold_left (fun a b => a + b) xData 0 in
  let sumY := fold_left (fun a b => a + b) yData 0 in
  let sumXY := sumXY_of xData yData in
  let sumXX := fold_left (fun sum x => sum + x * x) xData 0 in
  let sumYY := fold_left (fun sum y => sum + y * y) yData 0 in
  let slope := (n * sumXY - sumX * sumY) / (n * sumXX - sumX * sumX) in
  let intercept := (sumY - slope * sumX) / n in
  let correlation :=
    (n * sumXY - sumX * sumY)
    / Math_sqrt ((n * sumXX - sumX * sumX) * (n * sumYY - sumY * sumY)) in
  let rSquared := correlation * correlation in
  {| LinearRegression.slope := slope;
     LinearRegression.intercept := intercept;
     LinearRegression.rSquared := rSquared;
     LinearRegression.correlation := correlation |}.

(** *** Discrete distributions

    The loop of [factorial] runs while [i <= n]; on [n = +Infinity] it
    does not end.  [fuel] bounds the number of iterations, and [None] is
    a run that has not ended within it.  The counter [i] takes the values
    2, 3, ... and is exact. *)
Fixpoint factorial_loop (fuel : nat) (n : number) (i : Z) (result : number)
    : option number :=
  match fuel with
  | O => None
  | S fuel' =>
      if num_of_Z i <=? n
      then factorial_loop fuel' n (i + 1) (result * num_of_Z i)
      else Some result
  end.

Definition factorial (fuel : nat) (n : number) : option number :=
  if n <=? 1 then Some 1 else factorial_loop fuel n 2 1.

Definition combination (fuel : nat) (n k : number) : option number :=
  if gt k n then Some 0
  else if strict_eq k 0 || strict_eq k n then Some 1
  else
    match factorial fuel n with
    | None => None
    | Some fn =>
        match factorial fuel k with
        | None => None
        | Some fk =>
            match factorial fuel (n - k) with
            | None => None
            | Some fnk => Some (fn / (fk * fnk))
            end
        end
    end.

Definition binomialPMF {E : MathEngine} (fuel : nat) (k n p : number) : option number :=
  if (k <? 0) || gt k n then Some 0
  else
    match combination fuel n k with
    | None => None
    | Some c => Some (c * Math_pow p k * Math_pow (1 - p) (n - k))
    end.

Definition poissonPMF {E : MathEngine} (fuel : nat) (k lambda : number) : option number :=
  if k <? 0 then Some 0
  else
    match factorial fuel k with
    | None => None
    | Some f => Some (Math_pow lambda k * Math_exp (- lambda) / f)
    end.

(** *** [hypothesisTests.zTest] *)
Definition normalCDF {E : MathEngine} (x : number) : number :=
  0.5 * (1 + erf (x / Math_sqrt 2)).

Module ZTest.
Record result := {
  zStatistic : number;
  degreesOfFreedom : number;
  pValue : number;
  criticalValue : number;
  reject : bool;
  alpha : number
}.
End ZTest.

Definition zTest {E : MathEngine} (data : list number) (mu0 sigma alpha : number)
    : ZTest.result :=
  let n := length data in
  let mean := mean data in
  let zStat := (mean - mu0) / (sigma / Math_sqrt (num_of_nat n)) in
  let zCritical := 1.96 in
  let pValue := 2 * (1 - normalCDF (Math_abs zStat)) in
  {| ZTest.zStatistic := zStat;
     ZTest.degreesOfFreedom := 0;
     ZTest.pValue := pValue;
     ZTest.criticalValue := zCritical;
     ZTest.reject := gt (Math_abs zStat) zCritical;
     ZTest.alpha := alpha |}.

(** ** More of the extended library *)

(** *** [chiSquareIndependence]

    [observedMatrix[0].length] throws a [TypeError] on an empty matrix.
    The number of columns is the length of the first row; a cell read
    past the end of a shorter row is [undefined]. *)
Module ChiSquareIndependence.
Record result := {
  testName : string;
  chiSquareStatistic : number;
  degreesOfFreedom : Z;
  pValue : number;
  criticalValue : number;
  reject : bool;
  alpha : number;
  observedMatrix : list (list number);
  expectedMatrix : list (list number);
  interpretation : string
}.
End ChiSquareIndependence.

Definition rowTotals_of (observedMatrix : list (list number)) : list number :=
  map (fun row => fold_left (fun a b => a + b) row 0) observedMatrix.

Definition colTotals_of (observedMatrix : list (list number)) (cols : nat) : list number :=
  map (fun j => fold_left (fun sum row => sum + element row j) observedMatrix 0)
      (seq 0 cols).

Definition expected_of (rowTotals colTotals : list number) (grandTotal : number)
    (i j : nat) : number :=
  (element rowTotals i * element colTotals j) / grandTotal.

Definition chiSquareIndependence {E : MathEngine}
    (observedMatrix : list (list number)) (alpha : number)
    : completion ChiSquareIndependence.result :=
  match observedMatrix with
  | [] => Throw "TypeError: Cannot read properties of undefined (reading 'length')"
  | row0 :: _ =>
      let rows := length observedMatrix in
      let cols := length row0 in
      let rowTotals := rowTotals_of observedMatrix in
      let colTotals := colTotals_of observedMatrix cols in
      let grandTotal := fold_left (fun a b => a + b) rowTotals 0 in
      let chiSquare :=
        fold_left
          (fun chiSquare i =>
             fold_left
               (fun chiSquare j =>
                  let expected := expected_of rowTotals colTotals grandTotal i j in
                  chiSquare
                  + Math_pow (element (nth i observedMatrix []) j - expected) 2 / expected)
               (seq 0 cols) chiSquare)
          (seq 0 rows) 0 in
      let expectedMatrix :=
        map (fun i => map (expected_of rowTotals colTotals grandTotal i) (seq 0 cols))
            (seq 0 rows) in
      let df := ((Z.of_nat rows - 1) * (Z.of_nat cols - 1))%Z in
      let criticalValue := 7.815 in
      let pValue := if gt chiSquare criticalValue then 0.01 else 0.1 in
      Return {| ChiSquareIndependence.testName := "Chi-Square Test of Independence";
                ChiSquareIndependence.chiSquareStatistic := chiSquare;
                ChiSquareIndependence.degreesOfFreedom := df;
                ChiSquareIndependence.pValue := pValue;
                ChiSquareIndependence.criticalValue := criticalValue;
                ChiSquareIndependence.reject := gt chiSquare criticalValue;
                ChiSquareIndependence.alpha := alpha;
                ChiSquareIndependence.observedMatrix := observedMatrix;
                ChiSquareIndependence.expectedMatrix := expectedMatrix;
                ChiSquareIndependence.interpretation :=
                  if gt chiSquare criticalValue
                  then "Reject H0: Variables are dependent (associated)"
                  else "Fail to reject H0: Variables appear independent" |}
  end.

(** *** [confidenceIntervalProportion] *)
Module ProportionInterval.
(** The [interpretation] string is built with [toFixed] and is left out. *)
Record result := {
  proportion : number;
  confidenceLevel : number;
  lowerBound : number;
  upperBound : number;
  marginOfError : number;
  standardError : number
}.
End ProportionInterval.

Definition confidenceIntervalProportion (successes sampleSize confidenceLevel : number)
    : ProportionInterval.result :=
  let p := successes / sampleSize in
  let q := 1 - p in
  let zCritical :=
    if strict_eq confidenceLevel 0.95 then 1.96
    else if strict_eq confidenceLevel 0.99 then 2.576 else 1.645 in
  let standardError := Math_sqrt (p * q / sampleSize) in
  let marginOfError := zCritical * standardError in
  let lowerBound := p - marginOfError in
  let upperBound := p + marginOfError in
  {| ProportionInterval.proportion := p;
     ProportionInterval.confidenceLevel := confidenceLevel;
     ProportionInterval.lowerBound := Math_max [0; lowerBound];
     ProportionInterval.upperBound := Math_min [1; upperBound];
     ProportionInterval.marginOfError := marginOfError;
     ProportionInterval.standardError := standardError |}.

(** *** [diceRollSimulation]

    [numRolls] and [numSides] are counts, which the caller reads with
    [parseInt]; the draws are the sequence [random] as in
    [coinFlipSimulation].  [Math.floor] as a number: a finite number with a fractional part is
    below [2^53] in magnitude, so its floor converts exactly; the floor of
    a positive number below 1 is [+0]. *)
Definition Math_floor_number (x : number) : number :=
  match Prim2SF x with
  | S754_finite _ _ e =>
      if (0 <=? e)%Z then x
      else match Math_floor x with
           | Some k => num_of_Z k
           | None => x
           end
  | _ => x
  end.

(** An object whose properties hold values of type [V], as the list of its
    own properties in creation order; the keys are numbers as in
    [stats.mode]. *)
Section Properties.
Context {V : Type}.

Fixpoint property_get (o : list (number * V)) (key : number) : option V :=
  match o with
  | [] => None
  | (k, v) :: o' => if same_key k key then Some v else property_get o' key
  end.

Fixpoint property_set (o : list (number * V)) (key : number) (v : V) : list (number * V) :=
  match o with
  | [] => [(key, v)]
  | (k, w) :: o' =>
      if same_key k key then (k, v) :: o' else (k, w) :: property_set o' key v
  end.

Definition key_is_index (p : number * V) : bool :=
  match array_index (fst p) with Some _ => true | None => false end.

Definition key_index (p : number * V) : Z :=
  match array_index (fst p) with Some i => i | None => 0%Z end.

Fixpoint insert_by_key (p : number * V) (l : list (number * V)) : list (number * V) :=
  match l with
  | [] => [p]
  | q :: l' => if (key_index p <=? key_index q)%Z then p :: l else q :: insert_by_key p l'
  end.

(** [OrdinaryOwnPropertyKeys]: array indices in ascending order, then the
    other keys in creation order. *)
Definition own_entries (o : list (number * V)) : list (number * V) :=
  fold_right insert_by_key [] (filter key_is_index o)
  ++ filter (fun p => negb (key_is_index p)) o.

End Properties.

Module DiceRoll.
Record entry := {
  value : number;
  count : number;
  probability : number;
  expected : number
}.
Record result := {
  numRolls : nat;
  numSides : nat;
  frequency : list (number * number);
  distributionData : list entry;
  mean : number;
  theoreticalMean : number
}.
End DiceRoll.

Record DiceLoop := {
  rolls : list number;
  dice_frequency : list (number * number)
}.

(** A property read for arithmetic: [undefined] converts to [NaN]. *)
Definition ToNumber_property (v : option number) : number :=
  match v with
  | Some x => x
  | None => nan
  end.

(** [frequency[i] = 0] for [i] from 1 to [numSides]. *)
Definition dice_init (numSides : nat) : list (number * number) :=
  fold_left (fun frequency i => property_set frequency (ToPropertyKey (num_of_nat i)) 0)
            (seq 1 numSides) [].

Definition dice_iteration (random : nat -> number) (numSides : nat)
    (st : DiceLoop) (i : nat) : DiceLoop :=
  let roll := Math_floor_number (random i * num_of_nat numSides) + 1 in
  let rolls := rolls st ++ [roll] in
  let frequency :=
    property_set (dice_frequency st) (ToPropertyKey roll)
                 (ToNumber_property (property_get (dice_frequency st) (ToPropertyKey roll)) + 1) in
  {| rolls := rolls; dice_frequency := frequency |}.

Definition dice_loop (random : nat -> number) (numRolls numSides : nat) : DiceLoop :=
  fold_left (dice_iteration random numSides) (seq 0 numRolls)
            {| rolls := []; dice_frequency := dice_init numSides |}.

Definition diceRollSimulation (random : nat -> number) (numRolls numSides : nat)
    : DiceRoll.result :=
  let st := dice_loop random numRolls numSides in
  let frequency := dice_frequency st in
  let distributionData :=
    map (fun key =>
           {| DiceRoll.value := Number_of_key key;
              DiceRoll.count :=
                ToNumber_property (property_get frequency (ToPropertyKey (Number_of_key key)));
              DiceRoll.probability :=
                ToNumber_property (property_get frequency (ToPropertyKey (Number_of_key key)))
                / num_of_nat numRolls;
              DiceRoll.expected := 1 / num_of_nat numSides |})
        (map fst (own_entries frequency)) in
  {| DiceRoll.numRolls := numRolls;
     DiceRoll.numSides := numSides;
     DiceRoll.frequency := frequency;
     DiceRoll.distributionData := distributionData;
     DiceRoll.mean := mean (rolls st);
     DiceRoll.theoreticalMean := (num_of_nat numSides + 1) / 2 |}.

(** ** Further notions the properties are stated with *)

(** The place of a number on the extended real line, in units of
    [2^-1074]; the infinities lie beyond every finite number. *)
Definition SFrank (x : spec_float) : Z :=
  match x with
  | S754_infinity s => cond_Zopp s (2 ^ 2098)%Z
  | _ => SFscaled x
  end.

Definition rank (x : float) : Z := SFrank (Prim2SF x).

(** The order of the numbers that are not [NaN]. *)
Definition rank_le (a b : number) : Prop := (rank a <= rank b)%Z.

(** The product the loop accumulates over the counters [i, i+1, ...]. *)
Definition running_product (result : number) (counters : list nat) : number :=
  fold_left (fun result i => result * num_of_nat i) counters result.

(** The factorial of [n], as an integer. *)
Fixpoint factorial_Z (n : nat) : Z :=
  match n with
  | O => 1%Z
  | S n' => (Z.of_nat n * factorial_Z n')%Z
  end.

(** The roll of iteration [i], and the number of the first [n] rolls that
    show the face [v]. *)
Definition roll_of (random : nat -> number) (numSides : nat) (i : nat) : number :=
  Math_floor_number (random i * num_of_nat numSides) + 1.

Definition rolls_showing (random : nat -> number) (numSides : nat) (n : nat) (v : nat) : nat :=
  length (filter (fun i => same_key (roll_of random numSides i) (num_of_nat v)) (seq 0 n)).

(** * Properties

    First the facts about binary64 arithmetic the properties rest on, then
    the properties of the engine, routine by routine. *)

(** ** Comparisons of binary64 numbers *)

Lemma SFcompare_swap (x y : spec_float) :
  SFcompare y x = option_map CompOpp (SFcompare x y).
Proof.
  destruct x as [sx | sx | | sx mx ex], y as [sy | sy | | sy my ey]; simpl;
    try reflexivity;
    try (destruct sx; reflexivity); try (destruct sy; reflexivity);
    try (destruct sx, sy; reflexivity).
  destruct sx, sy; try reflexivity;
    rewrite (Z.compare_antisym ey ex); destruct (ey ?= ex)%Z; simpl; try reflexivity;
    change (Pos.compare_cont Eq mx my) with (mx ?= my)%positive;
    change (Pos.compare_cont Eq my mx) with (my ?= mx)%positive;
    rewrite (Pos.compare_antisym my mx); destruct (my ?= mx)%positive; reflexivity.
Qed.

Lemma leb_true_ltb_false (x y : float) : (x <=? y) = true -> (y <? x) = false.
Proof.
  rewrite leb_spec, ltb_spec. unfold SFleb, SFltb.
  rewrite (SFcompare_swap (Prim2SF x) (Prim2SF y)).
  destruct (SFcompare (Prim2SF x) (Prim2SF y)) as [[ | | ] | ]; simpl; congruence.
Qed.

Lemma ltb_true_leb_true (x y : float) : (x <? y) = true -> (x <=? y) = true.
Proof.
  rewrite leb_spec, ltb_spec. unfold SFleb, SFltb.
  destruct (SFcompare (Prim2SF x) (Prim2SF y)) as [[ | | ] | ]; congruence.
Qed.

Lemma ltb_asym (x y : float) : (x <? y) = true -> (y <? x) = false.
Proof. intros Hlt. apply leb_true_ltb_false, ltb_true_leb_true, Hlt. Qed.

Lemma SFcompare_refl_finite s m e :
  SFcompare (S754_finite s m e) (S754_finite s m e) = Some Eq.
Proof.
  simpl. rewrite Z.compare_refl.
  change (Pos.compare_cont Eq m m) with (m ?= m)%positive.
  rewrite Pos.compare_refl. destruct s; reflexivity.
Qed.

(** ** Sign symmetry of the binary64 operations *)

Lemma binary_round_aux_opp s m e l :
  binary_round_aux prec emax (negb s) m e l = SFopp (binary_round_aux prec emax s m e l).
Proof.
  unfold binary_round_aux.
  destruct (shr_fexp prec emax m e l) as [mrs' e'].
  destruct (shr_fexp prec emax _ e' loc_Exact) as [mrs'' e''].
  destruct (shr_m mrs''); try reflexivity.
  destruct (e'' <=? emax - prec)%Z; reflexivity.
Qed.

Lemma SFmul_opp_l (a b : spec_float) :
  SF64mul (SFopp a) b = SFopp (SF64mul a b).
Proof.
  destruct a as [sa | sa | | sa ma ea], b as [sb | sb | | sb mb eb]; simpl;
    try reflexivity; try (destruct sa, sb; reflexivity).
  rewrite <- binary_round_aux_opp. destruct sa, sb; reflexivity.
Qed.

Lemma mul_opp_l (a b : float) : (- a) * b = - (a * b).
Proof.
  apply Prim2SF_inj. rewrite mul_spec, !opp_spec, mul_spec. apply SFmul_opp_l.
Qed.

Lemma opp_involutive (a : float) : - - a = a.
Proof.
  apply Prim2SF_inj. rewrite !opp_spec. destruct (Prim2SF a) as [[]|[]| |[] m e]; reflexivity.
Qed.

Lemma abs_opp (x : float) : abs (- x) = abs x.
Proof.
  apply Prim2SF_inj. rewrite !abs_spec, opp_spec. destruct (Prim2SF x); reflexivity.
Qed.

Lemma opp_ltb_zero (x : float) : (- x <? 0) = (0 <? x).
Proof.
  rewrite !ltb_spec, opp_spec. change (Prim2SF 0) with (S754_zero false).
  destruct (Prim2SF x) as [[]|[]| |[] m e]; reflexivity.
Qed.

Lemma is_nan_SF (x : float) :
  is_nan x = match Prim2SF x with S754_nan => true | _ => false end.
Proof.
  unfold is_nan. rewrite eqb_spec. unfold SFeqb.
  destruct (Prim2SF x) as [[]|[]| |s m e]; try reflexivity.
  rewrite SFcompare_refl_finite. reflexivity.
Qed.

Lemma is_nan_opp (x : float) : is_nan (- x) = is_nan x.
Proof. rewrite !is_nan_SF, opp_spec. destruct (Prim2SF x); reflexivity. Qed.

Lemma is_nan_false_eqb_refl (x : float) : is_nan x = false -> (x =? x) = true.
Proof. unfold is_nan. destruct (x =? x); simpl; congruence. Qed.

Lemma is_finite_SF (x : float) :
  is_finite x = match Prim2SF x with
                | S754_zero _ | S754_finite _ _ _ => true
                | _ => false
                end.
Proof.
  unfold is_finite, is_infinity. rewrite is_nan_SF, eqb_spec, abs_spec.
  change (Prim2SF infinity) with (S754_infinity false).
  destruct (Prim2SF x) as [[]|[]| |[] m e]; reflexivity.
Qed.

Lemma sub_diag (m : float) : is_finite m = true -> m - m = 0.
Proof.
  rewrite is_finite_SF. intros Hfin.
  apply Prim2SF_inj. rewrite sub_spec. change (Prim2SF 0) with (S754_zero false).
  destruct (Prim2SF m) as [[]|[]| |s mm e]; try discriminate; try reflexivity.
  unfold SF64sub, SFsub. rewrite Z.sub_diag. reflexivity.
Qed.

Lemma zero_div_pos (y : float) : (0 <? y) = true -> 0 / y = 0.
Proof.
  rewrite ltb_spec. change (Prim2SF 0) with (S754_zero false). intros Hy.
  apply Prim2SF_inj. rewrite div_spec. change (Prim2SF 0) with (S754_zero false).
  destruct (Prim2SF y) as [[]|[]| |[] m e]; try discriminate; reflexivity.
Qed.

(** ** Rounding

    [SpecFloat] rounds a mantissa by shifting it right and looking at the
    bits shifted out.  The lemmas below establish what the engine's
    properties need of it: the result of an addition or a subtraction lies
    on the right side of every representable number its exact value lies
    on the right side of, and operations on numbers of known sign give a
    number of the expected sign, never [NaN]. *)

Section Rounding.
Local Open Scope Z_scope.

Lemma digits2_pos_bounds (p : positive) :
  2 ^ (Zpos (digits2_pos p) - 1) <= Zpos p < 2 ^ Zpos (digits2_pos p).
Proof.
  induction p as [p IH | p IH | ]; cbn [digits2_pos].
  - rewrite Pos2Z.inj_succ, (Pos2Z.inj_xI p).
    replace (Z.succ (Zpos (digits2_pos p)) - 1) with (Z.succ (Zpos (digits2_pos p) - 1)) by lia.
    rewrite !Z.pow_succ_r by lia.
    generalize dependent (2 ^ (Zpos (digits2_pos p) - 1)). generalize (2 ^ Zpos (digits2_pos p)). lia.
  - rewrite Pos2Z.inj_succ, (Pos2Z.inj_xO p).
    replace (Z.succ (Zpos (digits2_pos p)) - 1) with (Z.succ (Zpos (digits2_pos p) - 1)) by lia.
    rewrite !Z.pow_succ_r by lia.
    generalize dependent (2 ^ (Zpos (digits2_pos p) - 1)). generalize (2 ^ Zpos (digits2_pos p)). lia.
  - simpl. lia.
Qed.

Lemma digits2_pos_unique (p : positive) (n : Z) :
  2 ^ (n - 1) <= Zpos p < 2 ^ n -> Zpos (digits2_pos p) = n.
Proof.
  intros [Hlo Hhi]. pose proof (digits2_pos_bounds p) as [Hlo' Hhi'].
  assert (Hn : 0 < n).
  { destruct (Z.ltb_spec 0 n); [assumption | ].
    destruct (Z.eq_dec n 0) as [-> | Hn0]; [simpl in Hhi; lia | ].
    rewrite (Z.pow_neg_r 2 n) in Hhi by lia. lia. }
  destruct (Z.lt_trichotomy (Zpos (digits2_pos p)) n) as [Hlt | [Heq | Hgt]]; [ | assumption | ].
  - assert (2 ^ Zpos (digits2_pos p) <= 2 ^ (n - 1)) by (apply Z.pow_le_mono_r; lia). lia.
  - assert (2 ^ n <= 2 ^ (Zpos (digits2_pos p) - 1)) by (apply Z.pow_le_mono_r; lia). lia.
Qed.

Lemma pow2_pos (n : Z) : 0 <= n -> 0 < 2 ^ n.
Proof. intros. apply Z.pow_pos_nonneg; lia. Qed.

(** ** Shifting a mantissa right *)

Lemma iter_pos_nat (A : Type) (f : A -> A) (p : positive) (x : A) :
  iter_pos f p x = Nat.iter (Pos.to_nat p) f x.
Proof.
  revert x. induction p as [p IH | p IH | ]; intros x; cbn [iter_pos].
  - rewrite !IH, Pos2Nat.inj_xI, Nat.iter_succ_r.
    replace (2 * Pos.to_nat p)%nat with (Pos.to_nat p + Pos.to_nat p)%nat by lia.
    rewrite Nat.iter_add. reflexivity.
  - rewrite !IH, Pos2Nat.inj_xO.
    replace (2 * Pos.to_nat p)%nat with (Pos.to_nat p + Pos.to_nat p)%nat by lia.
    rewrite Nat.iter_add. reflexivity.
  - reflexivity.
Qed.

Lemma shr_1_nonneg (m : Z) (r s : bool) :
  0 <= m ->
  shr_1 (Build_shr_record m r s) = Build_shr_record (m / 2) (Z.odd m) (r || s).
Proof.
  intros Hm. destruct m as [ | [p | p | ] | p]; try lia; cbn [shr_1].
  - reflexivity.
  - f_equal. rewrite (Pos2Z.inj_xI p). apply Z.div_unique with 1; lia.
  - f_equal. rewrite (Pos2Z.inj_xO p). apply Z.div_unique with 0; lia.
  - reflexivity.
Qed.

Lemma shr_iter (n : nat) (m : Z) (r s : bool) :
  0 <= m ->
  let mrs := Nat.iter n shr_1 (Build_shr_record m r s) in
  shr_m mrs = m / 2 ^ Z.of_nat n
  /\ (r = false -> s = false -> m mod 2 ^ Z.of_nat n = 0 ->
      shr_r mrs = false /\ shr_s mrs = false).
Proof.
  intros Hm. induction n as [ | n IH]; cbn zeta in *.
  - simpl. rewrite Z.div_1_r. split; [reflexivity | auto].
  - rewrite Nat.iter_succ.
    destruct (Nat.iter n shr_1 (Build_shr_record m r s)) as [mn rn sn].
    cbn [shr_m shr_r shr_s] in IH. destruct IH as [Hmn Hex].
    assert (Hpos : 0 < 2 ^ Z.of_nat n) by (apply pow2_pos; lia).
    assert (Hmn0 : 0 <= mn) by (subst mn; apply Z.div_pos; lia).
    rewrite shr_1_nonneg by assumption. cbn [shr_m shr_r shr_s].
    rewrite Nat2Z.inj_succ, Z.pow_succ_r by lia.
    split.
    + subst mn. rewrite Z.div_div by lia. f_equal. lia.
    + intros Hr Hs Hmod.
      assert (Hmodn : m mod 2 ^ Z.of_nat n = 0).
      { apply Z.mod_divide in Hmod; [ | lia]. apply Z.mod_divide; [lia | ].
        destruct Hmod as [q Hq]. exists (q * 2). lia. }
      destruct (Hex Hr Hs Hmodn) as [-> ->]. split; [ | reflexivity].
      subst mn. apply Z.mod_divide in Hmod; [ | lia]. destruct Hmod as [q Hq].
      rewrite Hq. replace (q * (2 * 2 ^ Z.of_nat n)) with ((q * 2) * 2 ^ Z.of_nat n) by lia.
      rewrite Z.div_mul by lia. rewrite Z.mul_comm, Z.odd_mul. reflexivity.
Qed.

(** ** The binary64 format *)

Lemma fexp64 (x : Z) : fexp prec emax x = Z.max (x - 53) (-1074).
Proof. reflexivity. Qed.

Lemma bounded64 (m : positive) (e : Z) :
  bounded prec emax m e = true <->
  Z.max (Zpos (digits2_pos m) + e - 53) (-1074) = e /\ e <= 971.
Proof.
  unfold bounded, canonical_mantissa. rewrite fexp64, andb_true_iff, Z.eqb_eq, Z.leb_le.
  change (emax - prec) with 971. reflexivity.
Qed.

Lemma scaled_pos m e : -1074 <= e -> 0 < scaled m e.
Proof. intros He. unfold scaled. apply Z.mul_pos_pos; [lia | apply pow2_pos; lia]. Qed.

Lemma scaled_lt_pow (m : positive) (e n : Z) :
  -1074 <= e -> 0 <= n -> Zpos m < 2 ^ n -> scaled m e < 2 ^ (n + (e + 1074)).
Proof.
  intros He Hn Hm. unfold scaled. rewrite (Z.pow_add_r 2 n (e + 1074)) by lia.
  apply Z.mul_lt_mono_pos_r; [apply pow2_pos; lia | assumption].
Qed.

Lemma scaled_ge_pow (m : positive) (e n : Z) :
  -1074 <= e -> 0 <= n -> 2 ^ n <= Zpos m -> 2 ^ (n + (e + 1074)) <= scaled m e.
Proof.
  intros He Hn Hm. unfold scaled. rewrite (Z.pow_add_r 2 n (e + 1074)) by lia.
  apply Z.mul_le_mono_nonneg_r; [apply Z.lt_le_incl, pow2_pos; lia | assumption].
Qed.

Lemma bounded_digits (m : positive) (e : Z) :
  bounded prec emax m e = true ->
  -1074 <= e <= 971 /\ Zpos (digits2_pos m) <= 53
  /\ (-1074 < e -> Zpos (digits2_pos m) = 53).
Proof.
  rewrite bounded64. intros [Hmax Hle].
  destruct (Z.max_spec (Zpos (digits2_pos m) + e - 53) (-1074)) as [[? ?] | [? ?]]; lia.
Qed.

Lemma scaled_lt_of_exponent (m1 m2 : positive) (e1 e2 : Z) :
  bounded prec emax m1 e1 = true -> bounded prec emax m2 e2 = true ->
  e1 < e2 -> scaled m1 e1 < scaled m2 e2.
Proof.
  intros H1 H2 Hlt.
  apply bounded_digits in H1, H2.
  destruct H1 as (He1 & Hd1 & _), H2 as (He2 & _ & Hd2).
  pose proof (digits2_pos_bounds m1) as [_ Hhi].
  pose proof (digits2_pos_bounds m2) as [Hlo _].
  rewrite Hd2 in Hlo by lia. change (53 - 1) with 52 in Hlo.
  assert (Hm1 : Zpos m1 < 2 ^ 53).
  { eapply Z.lt_le_trans; [exact Hhi | apply Z.pow_le_mono_r; lia]. }
  apply Z.lt_le_trans with (2 ^ (53 + (e1 + 1074))).
  - apply scaled_lt_pow; lia.
  - apply Z.le_trans with (2 ^ (52 + (e2 + 1074))).
    + apply Z.pow_le_mono_r; lia.
    + apply scaled_ge_pow; lia.
Qed.

Lemma compare_scaled (m1 m2 : positive) (e1 e2 : Z) :
  bounded prec emax m1 e1 = true -> bounded prec emax m2 e2 = true ->
  match e1 ?= e2 with
  | Lt => Lt
  | Gt => Gt
  | Eq => Pos.compare_cont Eq m1 m2
  end = (scaled m1 e1 ?= scaled m2 e2).
Proof.
  intros H1 H2. destruct (Z.compare_spec e1 e2) as [Heq | Hlt | Hgt].
  - subst e2. unfold scaled. symmetry.
    apply bounded_digits in H1.
    rewrite <- Zmult_compare_compat_r by (apply Z.lt_gt, pow2_pos; lia). reflexivity.
  - symmetry. apply Z.compare_lt_iff. apply scaled_lt_of_exponent; assumption.
  - symmetry. apply Z.compare_gt_iff. apply scaled_lt_of_exponent; assumption.
Qed.

(** ** Rounding to nearest *)

Lemma shr_fexp_spec (m : positive) (e : Z) (l : location) :
  let k := fexp prec emax (Zpos (digits2_pos m) + e) - e in
  shr_fexp prec emax (Zpos m) e l
  = if 0 <? k
    then (Nat.iter (Z.to_nat k) shr_1 (shr_record_of_loc (Zpos m) l), e + k)
    else (shr_record_of_loc (Zpos m) l, e).
Proof.
  intros k. unfold shr_fexp, shr. cbn [Zdigits2]. fold k.
  destruct k as [ | p | p]; try reflexivity.
  rewrite iter_pos_nat. reflexivity.
Qed.

Lemma binary_round_aux_exact (s : bool) (m : positive) (e : Z) :
  fexp prec emax (Zpos (digits2_pos m) + e) = e ->
  binary_round_aux prec emax s (Zpos m) e loc_Exact
  = if e <=? 971 then S754_finite s m e else S754_infinity s.
Proof.
  intros Hcan. unfold binary_round_aux.
  rewrite shr_fexp_spec, Hcan, Z.sub_diag. cbn [Z.ltb Z.compare shr_record_of_loc shr_m
    loc_of_shr_record round_nearest_even].
  rewrite shr_fexp_spec, Hcan, Z.sub_diag. cbn [Z.ltb Z.compare shr_record_of_loc shr_m].
  reflexivity.
Qed.

Lemma round_nearest_even_bounds (mrs : shr_record) :
  shr_m mrs <= round_nearest_even (shr_m mrs) (loc_of_shr_record mrs) <= shr_m mrs + 1
  /\ (shr_r mrs = false -> shr_s mrs = false ->
      round_nearest_even (shr_m mrs) (loc_of_shr_record mrs) = shr_m mrs).
Proof.
  destruct mrs as [m [ | ] [ | ]]; cbn [shr_m shr_r shr_s loc_of_shr_record round_nearest_even];
    try (destruct (Z.even m)); split; try lia; try discriminate; reflexivity.
Qed.

Lemma div_pow2_bounds (m d k : Z) :
  0 <= k -> k < d -> 2 ^ (d - 1) <= m < 2 ^ d ->
  2 ^ (d - k - 1) <= m / 2 ^ k < 2 ^ (d - k).
Proof.
  intros Hk Hd [Hlo Hhi].
  assert (Hp : 0 < 2 ^ k) by (apply pow2_pos; lia).
  split.
  - apply Z.div_le_lower_bound; [assumption | ].
    rewrite <- Z.pow_add_r by lia. replace (k + (d - k - 1)) with (d - 1) by lia. assumption.
  - apply Z.div_lt_upper_bound; [assumption | ].
    rewrite <- Z.pow_add_r by lia. replace (k + (d - k)) with d by lia. assumption.
Qed.

Lemma binary_round_aux_inexact (s : bool) (m : positive) (e : Z) :
  -1074 <= e -> 53 < Zpos (digits2_pos m) ->
  let k := Zpos (digits2_pos m) - 53 in
  exists m'' : positive,
    Zpos m / 2 ^ k <= Zpos m'' <= Zpos m / 2 ^ k + 1
    /\ (Zpos m mod 2 ^ k = 0 -> Zpos m'' = Zpos m / 2 ^ k)
    /\ 2 ^ 52 <= Zpos m'' <= 2 ^ 53
    /\ binary_round_aux prec emax s (Zpos m) e loc_Exact
       = if Zpos m'' <? 2 ^ 53
         then (if e + k <=? 971 then S754_finite s m'' (e + k) else S754_infinity s)
         else (if e + k + 1 <=? 971
               then S754_finite s 4503599627370496 (e + k + 1) else S754_infinity s).
Proof.
  intros He Hd k.
  assert (Hk : 0 < k) by (unfold k; lia).
  unfold binary_round_aux. rewrite shr_fexp_spec, fexp64.
  replace (Z.max (Zpos (digits2_pos m) + e - 53) (-1074) - e) with k by (unfold k; lia).
  destruct (Z.ltb_spec 0 k) as [_ | ?]; [ | lia].
  cbn [shr_record_of_loc].
  destruct (shr_iter (Z.to_nat k) (Zpos m) false false) as [Hm' Hexact]; [lia | ].
  rewrite Z2Nat.id in Hm', Hexact by lia.
  set (mrs := Nat.iter (Z.to_nat k) shr_1 (Build_shr_record (Zpos m) false false)) in *.
  destruct (round_nearest_even_bounds mrs) as [Hrne Hrne_exact].
  set (m2 := round_nearest_even (shr_m mrs) (loc_of_shr_record mrs)) in *.
  rewrite Hm' in Hrne, Hrne_exact.
  pose proof (div_pow2_bounds (Zpos m) (Zpos (digits2_pos m)) k
                (Z.lt_le_incl _ _ Hk) ltac:(unfold k; lia) (digits2_pos_bounds m)) as Hbnd.
  replace (Zpos (digits2_pos m) - k - 1) with 52 in Hbnd by (unfold k; lia).
  replace (Zpos (digits2_pos m) - k) with 53 in Hbnd by (unfold k; lia).
  assert (H52 : 0 < 2 ^ 52) by (apply pow2_pos; lia).
  destruct m2 as [ | p | p] eqn:Hm2; try lia.
  exists p. split; [lia | ]. split.
  { intros Hmod. destruct (Hexact eq_refl eq_refl Hmod) as [Hr Hs].
    apply Hrne_exact; assumption. }
  split; [lia | ].
  rewrite shr_fexp_spec, fexp64.
  destruct (Z.ltb_spec (Zpos p) (2 ^ 53)) as [Hlt | Hge].
  - rewrite (digits2_pos_unique p 53) by (change (53 - 1) with 52; lia).
    replace (Z.max (53 + (e + k) - 53) (-1074) - (e + k)) with 0 by lia.
    cbn [Z.ltb Z.compare shr_record_of_loc shr_m]. reflexivity.
  - assert (Hp : Zpos p = 2 ^ 53) by lia.
    change (2 ^ 53) with (Zpos 9007199254740992) in Hp. injection Hp as ->.
    change (digits2_pos 9007199254740992) with 54%positive.
    replace (Z.max (54 + (e + k) - 53) (-1074) - (e + k)) with 1 by lia.
    cbn [Z.ltb Z.compare]. change (Z.to_nat 1) with 1%nat.
    cbn [Nat.iter nat_rect shr_record_of_loc shr_1 shr_m].
    replace (e + k + 1 <=? 971) with (e + k + 1 <=? emax - prec) by reflexivity.
    reflexivity.
Qed.

Lemma div_round_lower (mx K m2 j : Z) :
  0 < K -> mx / K <= m2 -> j * K <= mx -> j <= m2.
Proof.
  intros HK Hm2 Hj.
  apply Z.le_trans with (mx / K); [ | assumption].
  apply Z.div_le_lower_bound; [assumption | lia].
Qed.

Lemma div_round_upper (mx K m2 j : Z) :
  0 < K -> m2 <= mx / K + 1 -> (mx mod K = 0 -> m2 = mx / K) -> mx <= j * K -> m2 <= j.
Proof.
  intros HK Hm2 Hexact Hj.
  pose proof (Z.div_mod mx K ltac:(lia)) as Hdm.
  pose proof (Z.mod_pos_bound mx K HK) as Hr.
  destruct (Z.eq_dec (mx mod K) 0) as [Hz | Hnz].
  - rewrite (Hexact Hz). rewrite Hz in Hdm. nia.
  - assert (mx / K < j) by nia. lia.
Qed.

Lemma scaled_split (m : positive) (e e0 : Z) :
  -1074 <= e0 -> e0 <= e ->
  scaled m e = Zpos m * 2 ^ (e - e0) * 2 ^ (e0 + 1074).
Proof.
  intros H0 He. unfold scaled. rewrite <- Z.mul_assoc, <- Z.pow_add_r by lia.
  do 2 f_equal. lia.
Qed.

Lemma bounded_scaled_lt (mm : positive) (me e : Z) :
  bounded prec emax mm me = true -> me < e -> scaled mm me < 2 ^ (52 + (e + 1074)).
Proof.
  intros Hb Hlt. apply bounded_digits in Hb. destruct Hb as (Hme & Hd & _).
  pose proof (digits2_pos_bounds mm) as [_ Hhi].
  apply Z.lt_le_trans with (2 ^ (53 + (me + 1074))).
  - apply scaled_lt_pow; try lia.
    eapply Z.lt_le_trans; [exact Hhi | apply Z.pow_le_mono_r; lia].
  - apply Z.pow_le_mono_r; lia.
Qed.

Lemma round_value_bounds (mx m2 mm : positive) (ex k me : Z) :
  -1074 <= ex -> 0 < k ->
  Zpos mx / 2 ^ k <= Zpos m2 <= Zpos mx / 2 ^ k + 1 ->
  (Zpos mx mod 2 ^ k = 0 -> Zpos m2 = Zpos mx / 2 ^ k) ->
  2 ^ 52 <= Zpos mx / 2 ^ k ->
  bounded prec emax mm me = true ->
  (scaled mm me <= scaled mx ex -> scaled mm me <= scaled m2 (ex + k))
  /\ (scaled mx ex <= scaled mm me -> scaled m2 (ex + k) <= scaled mm me).
Proof.
  intros Hex Hk Hm2 Hexact H52 Hb.
  assert (HK : 0 < 2 ^ k) by (apply pow2_pos; lia).
  assert (HP : 0 < 2 ^ (ex + 1074)) by (apply pow2_pos; lia).
  assert (Hm2v : scaled m2 (ex + k) = Zpos m2 * 2 ^ k * 2 ^ (ex + 1074)).
  { rewrite (scaled_split m2 (ex + k) ex) by lia. do 3 f_equal. lia. }
  assert (Hfloor : Zpos mx / 2 ^ k * 2 ^ k <= Zpos mx).
  { rewrite Z.mul_comm. apply Z.mul_div_le. assumption. }
  destruct (Z.lt_ge_cases me (ex + k)) as [Hlt | Hge].
  - pose proof (bounded_scaled_lt mm me (ex + k) Hb Hlt) as Hsmall.
    assert (Hbig : 2 ^ (52 + (ex + k + 1074)) = 2 ^ 52 * 2 ^ k * 2 ^ (ex + 1074)).
    { rewrite <- !Z.pow_add_r by lia. f_equal. lia. }
    rewrite Hbig in Hsmall. split.
    + intros _. rewrite Hm2v. apply Z.lt_le_incl.
      eapply Z.lt_le_trans; [exact Hsmall | ].
      apply Z.mul_le_mono_nonneg_r; [lia | ].
      apply Z.mul_le_mono_nonneg_r; lia.
    + intros Hle. exfalso. unfold scaled in Hle at 1.
      assert (2 ^ 52 * 2 ^ k * 2 ^ (ex + 1074) <= Zpos mx * 2 ^ (ex + 1074)).
      { apply Z.mul_le_mono_nonneg_r; [lia | ].
        eapply Z.le_trans; [ | exact Hfloor]. apply Z.mul_le_mono_nonneg_r; lia. }
      lia.
  - rewrite (scaled_split mm me (ex + k)) by lia.
    replace (2 ^ (ex + k + 1074)) with (2 ^ k * 2 ^ (ex + 1074))
      by (rewrite <- Z.pow_add_r by lia; f_equal; lia).
    set (j := Zpos mm * 2 ^ (me - (ex + k))).
    rewrite Hm2v. unfold scaled. rewrite !Z.mul_assoc. split; intros Hle.
    + apply Z.mul_le_mono_pos_r in Hle; [ | assumption].
      apply Z.mul_le_mono_nonneg_r; [lia | ].
      apply Z.mul_le_mono_nonneg_r; [lia | ].
      apply (div_round_lower (Zpos mx) (2 ^ k)); try assumption; lia.
    + apply Z.mul_le_mono_pos_r in Hle; [ | assumption].
      apply Z.mul_le_mono_nonneg_r; [lia | ].
      apply Z.mul_le_mono_nonneg_r; [lia | ].
      apply (div_round_upper (Zpos mx) (2 ^ k)); try assumption; lia.
Qed.

Lemma pos_iter_xO (m d : positive) : Zpos (Pos.iter xO m d) = Zpos m * 2 ^ Zpos d.
Proof.
  induction d as [ | d IH] using Pos.peano_ind.
  - simpl. lia.
  - rewrite Pos.iter_succ, Pos2Z.inj_succ, Z.pow_succ_r by lia.
    rewrite (Pos2Z.inj_xO (Pos.iter xO m d)), IH. lia.
Qed.

Lemma digits2_pos_shift (m d : positive) :
  Zpos (digits2_pos (Pos.iter xO m d)) = Zpos (digits2_pos m) + Zpos d.
Proof.
  apply digits2_pos_unique. rewrite pos_iter_xO.
  pose proof (digits2_pos_bounds m) as [Hlo Hhi].
  assert (HP : 0 < 2 ^ Zpos d) by (apply pow2_pos; lia).
  replace (Zpos (digits2_pos m) + Zpos d - 1) with ((Zpos (digits2_pos m) - 1) + Zpos d) by lia.
  rewrite !Z.pow_add_r by lia. split.
  - apply Z.mul_le_mono_nonneg_r; lia.
  - apply Z.mul_lt_mono_pos_r; lia.
Qed.

(** The largest finite binary64 number, scaled. *)
Lemma bounded_scaled_max (mm : positive) (me : Z) :
  bounded prec emax mm me = true -> scaled mm me < 2 ^ 2098.
Proof.
  intros Hb. pose proof (bounded_scaled_lt mm me 972 Hb) as Hlt.
  apply bounded_digits in Hb. apply Hlt. lia.
Qed.

Lemma binary_round_monotone (s : bool) (mx : positive) (ex : Z) :
  -1074 <= ex ->
  (exists m e,
      binary_round prec emax s mx ex = S754_finite s m e
      /\ bounded prec emax m e = true
      /\ forall mm me, bounded prec emax mm me = true ->
           (scaled mm me <= scaled mx ex -> scaled mm me <= scaled m e)
           /\ (scaled mx ex <= scaled mm me -> scaled m e <= scaled mm me))
  \/ (binary_round prec emax s mx ex = S754_infinity s
      /\ forall mm me, bounded prec emax mm me = true -> scaled mm me < scaled mx ex).
Proof.
  intros Hex. unfold binary_round, shl_align. rewrite fexp64.
  set (d := Zpos (digits2_pos mx)).
  pose proof (digits2_pos_bounds mx) as Hdig. fold d in Hdig.
  destruct (Z.max (d + ex - 53) (-1074) - ex) as [ | p | p] eqn:Hshift.
  - (* already aligned *)
    rewrite binary_round_aux_exact by (rewrite fexp64; fold d; lia).
    destruct (Z.leb_spec ex 971) as [Hle | Hgt].
    + left. exists mx, ex. split; [reflexivity | ]. split.
      * apply bounded64. fold d. lia.
      * intros mm me _. split; auto.
    + right. split; [reflexivity | ]. intros mm me Hb.
      apply Z.lt_le_trans with (2 ^ 2098); [apply bounded_scaled_max, Hb | ].
      apply Z.le_trans with (2 ^ (d - 1 + (ex + 1074))).
      * apply Z.pow_le_mono_r; lia.
      * apply scaled_ge_pow; lia.
  - (* more than 53 digits: rounding *)
    assert (Hd : 53 < d) by lia.
    destruct (binary_round_aux_inexact s mx ex Hex Hd) as (m2 & Hm2 & Hexact & Hrange & ->).
    fold d in Hm2, Hexact. fold d. set (k := d - 53) in *.
    assert (Hk : 0 < k) by (unfold k; lia).
    pose proof (div_pow2_bounds (Zpos mx) d k (Z.lt_le_incl _ _ Hk) ltac:(unfold k; lia) Hdig)
      as [Hlo Hhi].
    replace (d - k - 1) with 52 in Hlo by (unfold k; lia).
    replace (d - k) with 53 in Hhi by (unfold k; lia).
    assert (HK : 0 < 2 ^ k) by (apply pow2_pos; lia).
    assert (HP : 0 < 2 ^ (ex + 1074)) by (apply pow2_pos; lia).
    assert (Hfloor : Zpos mx / 2 ^ k * 2 ^ k <= Zpos mx).
    { rewrite Z.mul_comm. apply Z.mul_div_le. assumption. }
    assert (Hval : 2 ^ (52 + (ex + k + 1074)) <= scaled mx ex).
    { replace (52 + (ex + k + 1074)) with (52 + k + (ex + 1074)) by lia.
      rewrite (Z.pow_add_r 2 (52 + k)), (Z.pow_add_r 2 52 k) by lia.
      unfold scaled. apply Z.mul_le_mono_nonneg_r; [lia | ].
      eapply Z.le_trans; [ | exact Hfloor]. apply Z.mul_le_mono_nonneg_r; lia. }
    destruct (Z.ltb_spec (Zpos m2) (2 ^ 53)) as [Hlt | Hge].
    + destruct (Z.leb_spec (ex + k) 971) as [Hle | Hgt].
      * left. exists m2, (ex + k). split; [reflexivity | ]. split.
        { apply bounded64. rewrite (digits2_pos_unique m2 53) by (change (53 - 1) with 52; lia). lia. }
        intros mm me Hb. apply round_value_bounds; assumption.
      * right. split; [reflexivity | ]. intros mm me Hb.
        apply Z.lt_le_trans with (2 ^ 2098); [apply bounded_scaled_max, Hb | ].
        eapply Z.le_trans; [ | exact Hval]. apply Z.pow_le_mono_r; lia.
    + assert (Hm2v : Zpos m2 = 2 ^ 53) by lia.
      assert (Hsame : scaled 4503599627370496 (ex + k + 1) = scaled m2 (ex + k)).
      { unfold scaled. rewrite Hm2v.
        change (Zpos 4503599627370496) with (2 ^ 52).
        rewrite <- !Z.pow_add_r by lia. f_equal. lia. }
      destruct (Z.leb_spec (ex + k + 1) 971) as [Hle | Hgt].
      * left. exists 4503599627370496%positive, (ex + k + 1). split; [reflexivity | ]. split.
        { apply bounded64. change (Zpos (digits2_pos 4503599627370496)) with 53. lia. }
        intros mm me Hb. rewrite Hsame. apply round_value_bounds; assumption.
      * right. split; [reflexivity | ]. intros mm me Hb.
        (* the mantissa was rounded up to 2^53: the value exceeds every finite number *)
        assert (Hup : Zpos mx mod 2 ^ k <> 0).
        { intros Hz. specialize (Hexact Hz). lia. }
        assert (Hdiv : Zpos mx / 2 ^ k = 2 ^ 53 - 1) by lia.
        pose proof (Z.div_mod (Zpos mx) (2 ^ k) ltac:(lia)) as Hdm.
        pose proof (Z.mod_pos_bound (Zpos mx) (2 ^ k) HK) as Hr.
        assert (Hmx : (2 ^ 53 - 1) * 2 ^ k < Zpos mx) by (rewrite Hdiv in Hdm; lia).
        apply Z.le_lt_trans with ((2 ^ 53 - 1) * 2 ^ k * 2 ^ (ex + 1074)).
        2:{ unfold scaled. apply Z.mul_lt_mono_pos_r; assumption. }
        (* every finite number is at most (2^53 - 1) * 2^971 *)
        pose proof (bounded_digits mm me Hb) as (Hme & Hdm' & _).
        pose proof (digits2_pos_bounds mm) as [_ Hhi'].
        assert (Hmm : Zpos mm <= 2 ^ 53 - 1).
        { assert (2 ^ Zpos (digits2_pos mm) <= 2 ^ 53) by (apply Z.pow_le_mono_r; lia). lia. }
        unfold scaled. rewrite <- Z.mul_assoc, <- Z.pow_add_r by lia.
        apply Z.le_trans with ((2 ^ 53 - 1) * 2 ^ (me + 1074)).
        { apply Z.mul_le_mono_nonneg_r; [ | assumption].
          apply Z.lt_le_incl, pow2_pos. lia. }
        apply Z.mul_le_mono_nonneg_l; [simpl; lia | ].
        apply Z.pow_le_mono_r; lia.
  - (* fewer than 53 digits: the mantissa is shifted left, exactly *)
    assert (Hf : Z.max (d + ex - 53) (-1074) = ex - Zpos p) by lia.
    rewrite Hf.
    assert (Hcan : fexp prec emax (Zpos (digits2_pos (Pos.iter xO mx p)) + (ex - Zpos p))
                   = ex - Zpos p).
    { rewrite fexp64, digits2_pos_shift. fold d. lia. }
    rewrite binary_round_aux_exact by exact Hcan.
    assert (Hsame : scaled (Pos.iter xO mx p) (ex - Zpos p) = scaled mx ex).
    { unfold scaled. rewrite pos_iter_xO, <- Z.mul_assoc, <- Z.pow_add_r by lia.
      do 2 f_equal. lia. }
    destruct (Z.leb_spec (ex - Zpos p) 971) as [Hle | Hgt].
    + left. exists (Pos.iter xO mx p), (ex - Zpos p). split; [reflexivity | ]. split.
      * apply bounded64. rewrite fexp64 in Hcan. lia.
      * intros mm me _. rewrite Hsame. split; auto.
    + right. split; [reflexivity | ]. intros mm me Hb.
      apply Z.lt_le_trans with (2 ^ 2098); [apply bounded_scaled_max, Hb | ].
      apply Z.le_trans with (2 ^ (d - 1 + (ex + 1074))).
      * apply Z.pow_le_mono_r; lia.
      * apply scaled_ge_pow; lia.
Qed.

Lemma valid_finite_scaled_pos s m e :
  valid_binary (S754_finite s m e) = true -> 0 < scaled m e /\ -1074 <= e.
Proof.
  cbn [SpecFloat.valid_binary]. intros Hb. apply bounded_digits in Hb.
  split; [apply scaled_pos | ]; lia.
Qed.

Lemma SFcompare_scaled (x y : spec_float) :
  valid_binary x = true -> valid_binary y = true ->
  SFfinite x = true -> SFfinite y = true ->
  SFcompare x y = Some (SFscaled x ?= SFscaled y).
Proof.
  intros Hvx Hvy Hfx Hfy.
  destruct x as [sx | sx | | sx mx ex]; try discriminate;
    destruct y as [sy | sy | | sy my ey]; try discriminate; cbn [SFcompare SFscaled].
  - reflexivity.
  - apply valid_finite_scaled_pos in Hvy. destruct Hvy as [Hy _].
    destruct sy; cbn [cond_Zopp]; f_equal; symmetry;
      [apply Z.compare_gt_iff | apply Z.compare_lt_iff]; lia.
  - apply valid_finite_scaled_pos in Hvx. destruct Hvx as [Hx _].
    destruct sx; cbn [cond_Zopp]; f_equal; symmetry;
      [apply Z.compare_lt_iff | apply Z.compare_gt_iff]; lia.
  - pose proof (valid_finite_scaled_pos _ _ _ Hvx) as [Hx _].
    pose proof (valid_finite_scaled_pos _ _ _ Hvy) as [Hy _].
    cbn [SpecFloat.valid_binary] in Hvx, Hvy.
    destruct sx, sy; cbn [cond_Zopp]; f_equal.
    + rewrite Z.compare_opp, <- (compare_scaled my mx ey ex) by assumption.
      rewrite (Z.compare_antisym ex ey).
      destruct (ex ?= ey); cbn [CompOpp]; try reflexivity.
      change (Pos.compare_cont Eq mx my) with (mx ?= my)%positive.
      change (Pos.compare_cont Eq my mx) with (my ?= mx)%positive.
      rewrite (Pos.compare_antisym mx my). reflexivity.
    + symmetry. apply Z.compare_lt_iff. lia.
    + symmetry. apply Z.compare_gt_iff. lia.
    + apply compare_scaled; assumption.
Qed.

Lemma SFleb_scaled (x y : spec_float) :
  valid_binary x = true -> valid_binary y = true ->
  SFfinite x = true -> SFfinite y = true ->
  SFscaled x <= SFscaled y -> SFleb x y = true.
Proof.
  intros Hvx Hvy Hfx Hfy Hle. unfold SFleb.
  rewrite SFcompare_scaled by assumption.
  destruct (Z.compare_spec (SFscaled x) (SFscaled y)); [reflexivity | reflexivity | lia].
Qed.

(** ** Rounding against a representable number *)

Lemma binary_normalize_le (V ez : Z) (x : spec_float) :
  -1074 <= ez -> valid_binary x = true -> SFfinite x = true ->
  V * 2 ^ (ez + 1074) <= SFscaled x ->
  SFleb (binary_normalize prec emax V ez false) x = true.
Proof.
  intros Hez Hvx Hfx Hle.
  assert (HP : 0 < 2 ^ (ez + 1074)) by (apply pow2_pos; lia).
  destruct V as [ | m | m]; cbn [binary_normalize].
  - destruct x as [sx | sx | | sx mx ex]; try discriminate; [reflexivity | ].
    pose proof (valid_finite_scaled_pos _ _ _ Hvx) as [Hx _].
    destruct sx; cbn [SFscaled cond_Zopp] in Hle; [lia | reflexivity].
  - assert (Hpos : 0 < SFscaled x) by (assert (0 < Zpos m * 2 ^ (ez + 1074)) by lia; lia).
    destruct x as [sx | sx | | sx mx ex]; try discriminate; cbn [SFscaled] in *.
    pose proof (valid_finite_scaled_pos _ _ _ Hvx) as [Hx _].
    destruct sx; cbn [cond_Zopp] in *; [lia | ].
    cbn [SpecFloat.valid_binary] in Hvx.
    destruct (binary_round_monotone false m ez Hez) as [(m' & e' & -> & Hb & Hmono) | [_ Hinf]].
    + apply SFleb_scaled; try assumption; try reflexivity.
      cbn [SFscaled cond_Zopp]. apply (Hmono mx ex Hvx). exact Hle.
    + specialize (Hinf mx ex Hvx). unfold scaled in Hinf at 2. lia.
  - destruct (binary_round_monotone true m ez Hez) as [(m' & e' & -> & Hb & Hmono) | [-> _]].
    + destruct x as [sx | sx | | sx mx ex]; try discriminate; [reflexivity | ].
      destruct sx; [ | reflexivity].
      apply SFleb_scaled; try assumption; try reflexivity.
      cbn [SFscaled cond_Zopp] in *. cbn [SpecFloat.valid_binary] in Hvx.
      assert (scaled mx ex <= scaled m' e'); [ | lia].
      apply (Hmono mx ex Hvx). unfold scaled at 2. lia.
    + destruct x as [sx | sx | | sx mx ex]; try discriminate; reflexivity.
Qed.

Lemma binary_normalize_ge (V ez : Z) (x : spec_float) :
  -1074 <= ez -> valid_binary x = true -> SFfinite x = true ->
  SFscaled x <= V * 2 ^ (ez + 1074) ->
  SFleb x (binary_normalize prec emax V ez false) = true.
Proof.
  intros Hez Hvx Hfx Hle.
  assert (HP : 0 < 2 ^ (ez + 1074)) by (apply pow2_pos; lia).
  destruct V as [ | m | m]; cbn [binary_normalize].
  - destruct x as [sx | sx | | sx mx ex]; try discriminate; [reflexivity | ].
    pose proof (valid_finite_scaled_pos _ _ _ Hvx) as [Hx _].
    destruct sx; cbn [SFscaled cond_Zopp] in Hle; [reflexivity | lia].
  - destruct (binary_round_monotone false m ez Hez) as [(m' & e' & -> & Hb & Hmono) | [-> _]].
    + destruct x as [sx | sx | | sx mx ex]; try discriminate; [reflexivity | ].
      destruct sx; [reflexivity | ].
      apply SFleb_scaled; try assumption; try reflexivity.
      cbn [SFscaled cond_Zopp] in *. cbn [SpecFloat.valid_binary] in Hvx.
      apply (Hmono mx ex Hvx). unfold scaled at 2. lia.
    + destruct x as [sx | sx | | sx mx ex]; try discriminate; reflexivity.
  - assert (Hneg : SFscaled x < 0) by (assert (Zneg m * 2 ^ (ez + 1074) < 0) by lia; lia).
    destruct x as [sx | sx | | sx mx ex]; try discriminate; cbn [SFscaled] in *.
    pose proof (valid_finite_scaled_pos _ _ _ Hvx) as [Hx _].
    destruct sx; cbn [cond_Zopp] in *; [ | lia].
    cbn [SpecFloat.valid_binary] in Hvx.
    destruct (binary_round_monotone true m ez Hez) as [(m' & e' & -> & Hb & Hmono) | [_ Hinf]].
    + apply SFleb_scaled; try assumption; try reflexivity.
      cbn [SFscaled cond_Zopp].
      assert (scaled m' e' <= scaled mx ex); [ | lia].
      apply (Hmono mx ex Hvx). unfold scaled at 1. lia.
    + specialize (Hinf mx ex Hvx). unfold scaled in Hinf at 2. lia.
Qed.

Lemma shl_align_scaled (mx : positive) (ex ez : Z) :
  -1074 <= ez -> ez <= ex ->
  Zpos (fst (shl_align mx ex ez)) * 2 ^ (ez + 1074) = scaled mx ex.
Proof.
  intros Hez Hle. unfold shl_align, scaled.
  destruct (ez - ex) as [ | d | d] eqn:Hd; cbn [fst]; try lia.
  - replace ez with ex by lia. reflexivity.
  - rewrite pos_iter_xO, <- Z.mul_assoc, <- Z.pow_add_r by lia. do 2 f_equal. lia.
Qed.

Lemma cond_Zopp_mul (s : bool) (a p : Z) : cond_Zopp s a * p = cond_Zopp s (a * p).
Proof. destruct s; cbn [cond_Zopp]; lia. Qed.

Lemma SFleb_refl_finite (x : spec_float) : SFfinite x = true -> SFleb x x = true.
Proof.
  destruct x as [sx | sx | | sx mx ex]; try discriminate; intros _; [reflexivity | ].
  unfold SFleb. rewrite SFcompare_refl_finite. reflexivity.
Qed.

Lemma SFadd_nonneg (x y : spec_float) :
  valid_binary x = true -> valid_binary y = true ->
  SFfinite x = true -> SFnonneg y = true ->
  SFleb x (SF64add x y) = true.
Proof.
  intros Hvx Hvy Hfx Hy.
  destruct y as [sy | [ | ] | | [ | ] my ey]; try discriminate.
  - (* x + 0 *)
    destruct x as [sx | sx | | sx mx ex]; try discriminate.
    + destruct sx, sy; reflexivity.
    + apply (SFleb_refl_finite (S754_finite sx mx ex)). reflexivity.
  - destruct x as [sx | sx | | sx mx ex]; try discriminate; reflexivity.
  - destruct x as [sx | sx | | sx mx ex]; try discriminate; [reflexivity | ].
    pose proof (valid_finite_scaled_pos _ _ _ Hvx) as [Hx Hex].
    pose proof (valid_finite_scaled_pos _ _ _ Hvy) as [Hy' Hey].
    unfold SF64add, SFadd.
    apply binary_normalize_ge; try assumption; [lia | ].
    rewrite Z.mul_add_distr_r, !cond_Zopp_mul, !shl_align_scaled by lia.
    cbn [SFscaled cond_Zopp]. lia.
Qed.

Lemma SFsub_nonneg (x y : spec_float) :
  valid_binary x = true -> valid_binary y = true ->
  SFfinite x = true -> SFnonneg y = true ->
  SFleb (SF64sub x y) x = true.
Proof.
  intros Hvx Hvy Hfx Hy.
  destruct y as [sy | [ | ] | | [ | ] my ey]; try discriminate.
  - destruct x as [sx | sx | | sx mx ex]; try discriminate.
    + destruct sx, sy; reflexivity.
    + apply (SFleb_refl_finite (S754_finite sx mx ex)). reflexivity.
  - destruct x as [sx | sx | | sx mx ex]; try discriminate; reflexivity.
  - destruct x as [sx | sx | | sx mx ex]; try discriminate; [reflexivity | ].
    pose proof (valid_finite_scaled_pos _ _ _ Hvx) as [Hx Hex].
    pose proof (valid_finite_scaled_pos _ _ _ Hvy) as [Hy' Hey].
    unfold SF64sub, SFsub.
    apply binary_normalize_le; try assumption; [lia | ].
    rewrite Z.mul_sub_distr_r, !cond_Zopp_mul, !shl_align_scaled by lia.
    cbn [SFscaled cond_Zopp]. lia.
Qed.

(** ** Signs of rounded results *)

Lemma shr_record_of_loc_m m l : shr_m (shr_record_of_loc m l) = m.
Proof. destruct l as [ | []]; reflexivity. Qed.

Lemma shr_fexp_nonneg (m e : Z) (l : location) :
  0 <= m -> 0 <= shr_m (fst (shr_fexp prec emax m e l)).
Proof.
  intros Hm. unfold shr_fexp, shr.
  destruct (fexp prec emax (Zdigits2 m + e) - e) as [ | p | p]; cbn [fst];
    rewrite ?shr_record_of_loc_m; try assumption.
  rewrite iter_pos_nat.
  destruct (shr_record_of_loc m l) as [m' r s] eqn:Hrec.
  assert (m' = m) by (rewrite <- (shr_record_of_loc_m m l), Hrec; reflexivity). subst m'.
  destruct (shr_iter (Pos.to_nat p) m r s Hm) as [-> _].
  apply Z.div_pos; [assumption | apply pow2_pos; lia].
Qed.

Lemma binary_round_aux_signed (s : bool) (m e : Z) (l : location) :
  0 <= m -> SFsigned s (binary_round_aux prec emax s m e l) = true.
Proof.
  intros Hm. unfold binary_round_aux.
  pose proof (shr_fexp_nonneg m e l Hm) as H1.
  destruct (shr_fexp prec emax m e l) as [mrs' e']. cbn [fst] in H1.
  pose proof (round_nearest_even_bounds mrs') as [[Hr _] _].
  pose proof (shr_fexp_nonneg (round_nearest_even (shr_m mrs') (loc_of_shr_record mrs')) e'
                loc_Exact ltac:(lia)) as H2.
  destruct (shr_fexp prec emax _ e' loc_Exact) as [mrs'' e'']. cbn [fst] in H2.
  destruct (shr_m mrs'') as [ | p | p]; try lia.
  - cbn. apply eqb_reflx.
  - destruct (e'' <=? emax - prec); cbn; apply eqb_reflx.
Qed.

Lemma binary_round_signed (s : bool) (m : positive) (e : Z) :
  SFsigned s (binary_round prec emax s m e) = true.
Proof.
  unfold binary_round. destruct (shl_align m e _) as [mz ez].
  apply binary_round_aux_signed. lia.
Qed.

Lemma binary_normalize_not_nan (V e : Z) :
  binary_normalize prec emax V e false <> S754_nan.
Proof.
  destruct V as [ | m | m]; cbn [binary_normalize]; [discriminate | | ].
  - pose proof (binary_round_signed false m e) as Hs.
    destruct (binary_round prec emax false m e); discriminate.
  - pose proof (binary_round_signed true m e) as Hs.
    destruct (binary_round prec emax true m e); discriminate.
Qed.

Lemma SFadd_nonneg_nonneg (x y : spec_float) :
  SFnonneg x = true -> SFnonneg y = true -> SFnonneg (SF64add x y) = true.
Proof.
  intros Hx Hy.
  destruct x as [sx | [ | ] | | [ | ] mx ex]; try discriminate;
    destruct y as [sy | [ | ] | | [ | ] my ey]; try discriminate; try reflexivity.
  - destruct sx, sy; reflexivity.
  - unfold SF64add, SFadd. cbn [cond_Zopp].
    set (a := fst (shl_align mx ex (Z.min ex ey))). set (b := fst (shl_align my ey (Z.min ex ey))).
    change (Zpos a + Zpos b) with (Zpos (a + b)). cbn [binary_normalize].
    pose proof (binary_round_signed false (a + b) (Z.min ex ey)) as Hs.
    destruct (binary_round prec emax false (a + b) (Z.min ex ey)) as [[]|[]| |[] ? ?];
      try discriminate; reflexivity.
Qed.

Lemma SFdiv_core_nonneg (m1 m2 : positive) (e1 e2 : Z) :
  0 <= fst (fst (SFdiv_core_binary prec emax (Zpos m1) e1 (Zpos m2) e2)).
Proof.
  unfold SFdiv_core_binary.
  set (e' := Z.min _ _). set (sh := e1 - e2 - e').
  set (m' := match sh with Zpos _ => Z.shiftl (Zpos m1) sh | Z0 => Zpos m1 | Zneg _ => 0 end).
  assert (Hm' : 0 <= m').
  { unfold m'. destruct sh; try lia. apply Z.shiftl_nonneg. lia. }
  pose proof (Z_div_mod m' (Zpos m2) ltac:(lia)) as Hdiv.
  destruct (Z.div_eucl m' (Zpos m2)) as [q r]. cbn [fst].
  destruct Hdiv as [Hq Hr]. nia.
Qed.

Lemma SFdiv_nonneg_proper (x y : spec_float) :
  SFnonneg x = true -> SFproper false y = true -> SFnonneg (SF64div x y) = true.
Proof.
  intros Hx Hy.
  destruct y as [sy | sy | | [ | ] my ey]; try discriminate.
  destruct x as [sx | [ | ] | | [ | ] mx ex]; try discriminate; try reflexivity.
  unfold SF64div, SFdiv.
    pose proof (SFdiv_core_nonneg mx my ex ey) as Hq.
    destruct (SFdiv_core_binary prec emax (Zpos mx) ex (Zpos my) ey) as [[mz ez] lz].
    cbn [fst] in Hq. cbn [xorb].
    pose proof (binary_round_aux_signed false mz ez lz Hq) as Hs.
    destruct (binary_round_aux prec emax false mz ez lz) as [[]|[]| |[] ? ?];
      try discriminate; reflexivity.
Qed.

Lemma SFmul_proper_nonneg (x y : spec_float) :
  SFproper false x = true -> SFnonneg y = true -> SFnonneg (SF64mul x y) = true.
Proof.
  intros Hx Hy.
  destruct x as [sx | sx | | [ | ] mx ex]; try discriminate.
  destruct y as [sy | [ | ] | | [ | ] my ey]; try discriminate; try reflexivity.
  unfold SF64mul, SFmul. cbn [xorb].
    pose proof (binary_round_aux_signed false (Zpos (mx * my)) (ex + ey) loc_Exact ltac:(lia)) as Hs.
    destruct (binary_round_aux prec emax false (Zpos (mx * my)) (ex + ey) loc_Exact)
      as [[]|[]| |[] ? ?]; try discriminate; reflexivity.
Qed.

(** ** Results that neither underflow to zero nor overflow *)

Lemma digits2_pos_le (p : positive) (n : Z) :
  0 <= n -> Zpos p < 2 ^ n -> Zpos (digits2_pos p) <= n.
Proof.
  intros Hn Hp. pose proof (digits2_pos_bounds p) as [Hlo _].
  destruct (Z.le_gt_cases (Zpos (digits2_pos p)) n) as [Hle | Hgt]; [assumption | ].
  assert (2 ^ n <= 2 ^ (Zpos (digits2_pos p) - 1)) by (apply Z.pow_le_mono_r; lia). lia.
Qed.

Lemma shr_fexp_range (m : positive) (e : Z) (l : location) :
  -1074 <= e ->
  exists (m1 : positive) (r1 s1 : bool),
    shr_fexp prec emax (Zpos m) e l
    = (Build_shr_record (Zpos m1) r1 s1, Z.max e (Zpos (digits2_pos m) + e - 53))
    /\ Zpos (digits2_pos m1) + Z.max e (Zpos (digits2_pos m) + e - 53)
       = Zpos (digits2_pos m) + e
    /\ Zpos (digits2_pos m1) <= 53.
Proof.
  intros He. rewrite shr_fexp_spec, fexp64.
  set (d := Zpos (digits2_pos m)).
  pose proof (digits2_pos_bounds m) as Hdig. fold d in Hdig.
  destruct (shr_record_of_loc (Zpos m) l) as [m0 r s] eqn:Hrec.
  assert (m0 = Zpos m) by (rewrite <- (shr_record_of_loc_m (Zpos m) l), Hrec; reflexivity).
  subst m0.
  destruct (Z.ltb_spec 0 (Z.max (d + e - 53) (-1074) - e)) as [Hk | Hk].
  - replace (Z.max (d + e - 53) (-1074) - e) with (d - 53) in * by lia.
    destruct (shr_iter (Z.to_nat (d - 53)) (Zpos m) r s ltac:(lia)) as [Hm1 _].
    rewrite Z2Nat.id in Hm1 by lia.
    destruct (Nat.iter (Z.to_nat (d - 53)) shr_1 (Build_shr_record (Zpos m) r s))
      as [m1 r1 s1].
    cbn [shr_m] in Hm1.
    pose proof (div_pow2_bounds (Zpos m) d (d - 53) ltac:(lia) ltac:(lia) Hdig) as Hb.
    replace (d - (d - 53) - 1) with 52 in Hb by lia.
    replace (d - (d - 53)) with 53 in Hb by lia.
    rewrite <- Hm1 in Hb.
    assert (H52 : 0 < 2 ^ 52) by (apply pow2_pos; lia).
    destruct m1 as [ | p1 | p1]; try lia.
    exists p1, r1, s1.
    rewrite (digits2_pos_unique p1 53) by (change (53 - 1) with 52; lia).
    split; [f_equal; lia | lia].
  - exists m, r, s. fold d. split; [f_equal; lia | lia].
Qed.

Lemma binary_round_aux_proper (s : bool) (m : positive) (e : Z) (l : location) :
  -1074 <= e <= 971 -> Zpos (digits2_pos m) + e <= 1023 ->
  SFproper s (binary_round_aux prec emax s (Zpos m) e l) = true.
Proof.
  intros He Hd. unfold binary_round_aux.
  destruct (shr_fexp_range m e l ltac:(lia)) as (m1 & r1 & s1 & -> & Hd1 & Hd1').
  set (e1 := Z.max e (Zpos (digits2_pos m) + e - 53)) in *.
  pose proof (round_nearest_even_bounds (Build_shr_record (Zpos m1) r1 s1)) as [Hrne _].
  cbn [shr_m] in *.
  set (m2 := round_nearest_even (Zpos m1) _) in *.
  destruct m2 as [ | p2 | p2] eqn:Hm2; try lia.
  assert (Hd2 : Zpos (digits2_pos p2) <= Zpos (digits2_pos m1) + 1).
  { apply digits2_pos_le; [lia | ].
    pose proof (digits2_pos_bounds m1) as [_ Hhi].
    rewrite Z.pow_add_r by lia. change (2 ^ 1) with 2. lia. }
  destruct (shr_fexp_range p2 e1 loc_Exact ltac:(lia)) as (m3 & r3 & s3 & -> & Hd3 & Hd3').
  cbn [shr_m].
  change (emax - prec) with 971.
  destruct (Z.leb_spec (Z.max e1 (Zpos (digits2_pos p2) + e1 - 53)) 971) as [Hle | Hgt].
  - cbn. apply eqb_reflx.
  - lia.
Qed.

Lemma num_of_nat_proper (n : nat) :
  (1 <= n)%nat -> Z.of_nat n < 2 ^ 63 ->
  SFproper false (Prim2SF (num_of_nat n)) = true.
Proof.
  intros Hn Hlt. unfold num_of_nat.
  rewrite of_uint63_spec, Uint63.of_Z_spec.
  change Uint63.wB with (2 ^ 63). rewrite Z.mod_small by lia.
  destruct (Z.of_nat n) as [ | p | p] eqn:Hp; try lia.
  cbn [binary_normalize]. unfold binary_round, shl_align. rewrite fexp64.
  assert (Hd : Zpos (digits2_pos p) <= 63) by (apply digits2_pos_le; lia).
  set (f := Z.max (Zpos (digits2_pos p) + 0 - 53) (-1074)).
  assert (Hf : -1074 <= f <= 10) by (unfold f; lia).
  destruct (f - 0) as [ | q | q] eqn:Hq.
  - apply binary_round_aux_proper; lia.
  - apply binary_round_aux_proper; lia.
  - apply binary_round_aux_proper; [lia | ].
    rewrite digits2_pos_shift. unfold f in *. lia.
Qed.

Lemma SFsqrt_core_nonneg (m : positive) (e : Z) :
  0 <= fst (fst (SFsqrt_core_binary prec emax (Zpos m) e)).
Proof.
  unfold SFsqrt_core_binary.
  set (e' := Z.min _ _). set (sh := e - 2 * e').
  set (m' := match sh with Zpos _ => Z.shiftl (Zpos m) sh | Z0 => Zpos m | Zneg _ => 0 end).
  pose proof (Z.sqrtrem_sqrt m') as Hq.
  destruct (Z.sqrtrem m') as [q r]. cbn [fst] in *. subst q. apply Z.sqrt_nonneg.
Qed.

Lemma SFsqrt_nonneg (x : spec_float) :
  SFnonneg x = true -> SFnonneg (SF64sqrt x) = true.
Proof.
  intros Hx. destruct x as [sx | [ | ] | | [ | ] mx ex]; try discriminate; try reflexivity.
  unfold SF64sqrt, SFsqrt.
  pose proof (SFsqrt_core_nonneg mx ex) as Hq.
  destruct (SFsqrt_core_binary prec emax (Zpos mx) ex) as [[mz ez] lz]. cbn [fst] in Hq.
  pose proof (binary_round_aux_signed false mz ez lz Hq) as Hs.
  destruct (binary_round_aux prec emax false mz ez lz) as [[]|[]| |[] ? ?];
    try discriminate; reflexivity.
Qed.

Lemma shift_match (m sh : Z) :
  0 <= sh ->
  match sh with Zpos _ => Z.shiftl m sh | Z0 => m | Zneg _ => 0 end = m * 2 ^ sh.
Proof.
  intros Hsh. destruct sh as [ | p | p].
  - change (2 ^ 0) with 1. rewrite Z.mul_1_r. reflexivity.
  - apply Z.shiftl_mul_pow2. lia.
  - lia.
Qed.

Lemma SFsqrt_proper (x : spec_float) :
  valid_binary x = true -> SFproper false x = true -> SFproper false (SF64sqrt x) = true.
Proof.
  intros Hv Hx. destruct x as [sx | sx | | [ | ] mx ex]; try discriminate.
  cbn [SpecFloat.valid_binary] in Hv. apply bounded_digits in Hv.
  destruct Hv as (Hex & Hd & _).
  unfold SF64sqrt, SFsqrt, SFsqrt_core_binary. cbn [Zdigits2]. rewrite fexp64, !Z.div2_div.
  set (d := Zpos (digits2_pos mx)) in *.
  pose proof (digits2_pos_bounds mx) as Hdig. fold d in Hdig.
  set (e' := Z.min (Z.max ((d + ex + 1) / 2 - 53) (-1074)) (ex / 2)).
  pose proof (Z.div_mod ex 2 ltac:(lia)) as Hex2.
  pose proof (Z.mod_pos_bound ex 2 ltac:(lia)) as Hexr.
  pose proof (Z.div_mod (d + ex + 1) 2 ltac:(lia)) as Hde2.
  pose proof (Z.mod_pos_bound (d + ex + 1) 2 ltac:(lia)) as Hder.
  assert (He' : -1074 <= e' <= 485 /\ 2 * e' <= ex) by (unfold e'; lia).
  set (sh := ex - 2 * e').
  assert (Hsh : 0 <= sh) by (unfold sh; lia).
  set (m' := match sh with Zpos _ => Z.shiftl (Zpos mx) sh | Z0 => Zpos mx | Zneg _ => 0 end).
  assert (Hm' : m' = Zpos mx * 2 ^ sh) by (apply shift_match; assumption).
  assert (HP : 0 < 2 ^ sh) by (apply pow2_pos; lia).
  assert (Hm'pos : 0 < m') by (rewrite Hm'; apply Z.mul_pos_pos; lia).
  pose proof (Z.sqrtrem_sqrt m') as Hq.
  destruct (Z.sqrtrem m') as [q r]. cbn [fst] in Hq. subst q.
  assert (Hqpos : 0 < Z.sqrt m') by (apply Z.sqrt_pos; assumption).
  destruct (Z.sqrt m') as [ | pq | pq] eqn:Hsq; try lia.
  apply binary_round_aux_proper; [lia | ].
  set (h := (d + sh + 1) / 2).
  pose proof (Z.div_mod (d + sh + 1) 2 ltac:(lia)) as Hh2.
  pose proof (Z.mod_pos_bound (d + sh + 1) 2 ltac:(lia)) as Hhr.
  fold h in Hh2.
  assert (Hh : 0 <= h /\ d + sh <= 2 * h) by lia.
  assert (Hlt : Zpos pq < 2 ^ h).
  { rewrite <- Hsq. apply Z.sqrt_lt_square; [lia | apply Z.lt_le_incl, pow2_pos; lia | ].
    rewrite <- Z.pow_add_r by lia. rewrite Hm'.
    apply Z.lt_le_trans with (2 ^ d * 2 ^ sh).
    - apply Z.mul_lt_mono_pos_r; lia.
    - rewrite <- Z.pow_add_r by lia. apply Z.pow_le_mono_r; lia. }
  pose proof (digits2_pos_le pq h ltac:(lia) Hlt) as Hdq.
  unfold sh in *. lia.
Qed.

Lemma SFsub_not_nan (x y : spec_float) :
  SFfinite x = true -> SFfinite y = true -> SF64sub x y <> S754_nan.
Proof.
  intros Hx Hy.
  destruct x as [sx | sx | | sx mx ex]; try discriminate;
    destruct y as [sy | sy | | sy my ey]; try discriminate; unfold SF64sub, SFsub;
    try (destruct sx, sy; discriminate); try (intros Hn; discriminate Hn).
  apply binary_normalize_not_nan.
Qed.

Lemma num_of_Z_pred_proper (n : nat) :
  (2 <= n)%nat -> Z.of_nat n < 2 ^ 63 ->
  SFproper false (Prim2SF (num_of_Z (Z.of_nat n - 1))) = true.
Proof.
  intros Hn Hlt. unfold num_of_Z.
  destruct (Z.ltb_spec (Z.of_nat n - 1) 0) as [? | _]; [lia | ].
  replace (Z.of_nat n - 1) with (Z.of_nat (n - 1)) by lia.
  apply (num_of_nat_proper (n - 1)); lia.
Qed.

End Rounding.

(** ** The same facts on [float] *)

Lemma leb_zero_SF (e : float) : (0 <=? e) = SFnonneg (Prim2SF e).
Proof.
  rewrite leb_spec. change (Prim2SF 0) with (S754_zero false).
  destruct (Prim2SF e) as [[]|[]| |[] m ee]; reflexivity.
Qed.

Lemma is_finite_SFfinite (x : float) : is_finite x = SFfinite (Prim2SF x).
Proof. apply is_finite_SF. Qed.

Theorem add_nonneg_ge (m e : float) :
  is_finite m = true -> (0 <=? e) = true -> (m <=? m + e) = true.
Proof.
  rewrite is_finite_SFfinite, leb_zero_SF, leb_spec, add_spec.
  apply SFadd_nonneg; apply Prim2SF_valid.
Qed.

Theorem sub_nonneg_le (m e : float) :
  is_finite m = true -> (0 <=? e) = true -> (m - e <=? m) = true.
Proof.
  rewrite is_finite_SFfinite, leb_zero_SF, leb_spec, sub_spec.
  apply SFsub_nonneg; apply Prim2SF_valid.
Qed.

Lemma add_nonneg (a b : float) :
  (0 <=? a) = true -> (0 <=? b) = true -> (0 <=? a + b) = true.
Proof. rewrite !leb_zero_SF, add_spec. apply SFadd_nonneg_nonneg. Qed.

Lemma div_nonneg_proper (a b : float) :
  (0 <=? a) = true -> SFproper false (Prim2SF b) = true -> (0 <=? a / b) = true.
Proof. rewrite !leb_zero_SF, div_spec. apply SFdiv_nonneg_proper. Qed.

Lemma mul_proper_nonneg (a b : float) :
  SFproper false (Prim2SF a) = true -> (0 <=? b) = true -> (0 <=? a * b) = true.
Proof. rewrite !leb_zero_SF, mul_spec. apply SFmul_proper_nonneg. Qed.

Lemma sqrt_nonneg (a : float) : (0 <=? a) = true -> (0 <=? sqrt a) = true.
Proof. rewrite !leb_zero_SF, sqrt_spec. apply SFsqrt_nonneg. Qed.

Lemma sqrt_proper (a : float) :
  SFproper false (Prim2SF a) = true -> SFproper false (Prim2SF (sqrt a)) = true.
Proof. rewrite sqrt_spec. apply SFsqrt_proper, Prim2SF_valid. Qed.

Lemma sub_finite_not_nan (a b : float) :
  is_finite a = true -> is_finite b = true -> is_nan (a - b) = false.
Proof.
  rewrite !is_finite_SFfinite, is_nan_SF, sub_spec. intros Ha Hb.
  pose proof (SFsub_not_nan _ _ Ha Hb) as Hn.
  destruct (SF64sub (Prim2SF a) (Prim2SF b)); congruence.
Qed.

Lemma nonneg_not_nan (a : float) : (0 <=? a) = true -> is_nan a = false.
Proof. rewrite leb_zero_SF, is_nan_SF. destruct (Prim2SF a); [reflexivity.. | discriminate | reflexivity]. Qed.

(** * The error function *)

Section ErfFacts.
Context {E : MathEngine}.

Lemma erf_zero : erf 0 = 9.9999997171806854e-10.
Proof. reflexivity. Qed.

Lemma erf_neg_zero : erf (-0) = 9.9999997171806854e-10.
Proof. reflexivity. Qed.

(** C7 (as amended).  For every number [x] other than zero, infinities
    included, [erf (-x)] and [-erf x] are the same number, and they
    compare equal unless [erf x] is [NaN]: the sign is extracted before
    the magnitude is evaluated.  Zero is excluded because the sign of both
    [+0] and [-0] is taken as [+1]. *)
Theorem erf_odd (x : number) :
  (x <? 0) = true \/ (0 <? x) = true ->
  erf (- x) = - erf x
  /\ (is_nan (erf x) = false -> strict_eq (erf (- x)) (- erf x) = true).
Proof.
  intros Hx.
  assert (Heq : erf (- x) = - erf x).
  { unfold erf, Math_abs. rewrite abs_opp, opp_ltb_zero.
    set (y := 1.0 - _ * Math_exp _).
    destruct Hx as [Hneg | Hpos].
    - rewrite Hneg, (ltb_asym _ _ Hneg).
      change (-1) with (opp 1). rewrite mul_opp_l, opp_involutive. reflexivity.
    - rewrite Hpos, (ltb_asym _ _ Hpos).
      change (-1) with (opp 1). apply mul_opp_l. }
  split; [exact Heq | ].
  intros Hnan. unfold strict_eq. rewrite Heq.
  apply is_nan_false_eqb_refl. rewrite is_nan_opp. exact Hnan.
Qed.
End ErfFacts.

(** At zero the approximation does not vanish: the five coefficients sum
    to 0.999999999, so [erf 0] is about 1e-9, for [+0] and for [-0]
    alike. *)
Lemma erf_zero_counterexample :
  @erf reference_engine 0 = 9.9999997171806854e-10
  /\ strict_eq (@erf reference_engine 0) 0 = false
  /\ strict_eq (@erf reference_engine (-0)) (- @erf reference_engine 0) = false.
Proof. repeat split. Qed.

Lemma erf_odd_witness :
  @erf reference_engine (- 1.5) = - @erf reference_engine 1.5
  /\ strict_eq (@erf reference_engine (- 1.5)) (- @erf reference_engine 1.5) = true.
Proof.
  destruct (@erf_odd reference_engine 1.5 (or_intror eq_refl)) as [Heq Hcmp].
  split; [exact Heq | exact (Hcmp eq_refl)].
Defined.

(** * [stats.mode] *)

Section ModeFacts.
Local Open Scope nat_scope.

Lemma same_key_spec k1 k2 : same_key k1 k2 = true <-> k1 = k2.
Proof. apply Leibniz.eqb_spec. Qed.

Lemma same_key_refl k : same_key k k = true.
Proof. apply same_key_spec. reflexivity. Qed.

Lemma same_key_false k1 k2 : same_key k1 k2 = false <-> k1 <> k2.
Proof.
  split.
  - intros Hf Heq. apply same_key_spec in Heq. congruence.
  - intros Hne. destruct (same_key k1 k2) eqn:Hs; [ | reflexivity].
    apply same_key_spec in Hs. contradiction.
Qed.

Lemma get_set_same o key v : get (set o key v) key = Some v.
Proof.
  induction o as [ | [k w] o IH]; simpl.
  - rewrite same_key_refl. reflexivity.
  - destruct (same_key k key) eqn:Hk; simpl; rewrite Hk; [reflexivity | exact IH].
Qed.

Lemma get_set_other o key v key' : key <> key' -> get (set o key v) key' = get o key'.
Proof.
  intros Hne. induction o as [ | [k w] o IH]; simpl.
  - apply same_key_false in Hne. rewrite Hne. reflexivity.
  - destruct (same_key k key) eqn:Hk; simpl.
    + apply same_key_spec in Hk. subst k.
      apply same_key_false in Hne. rewrite Hne. reflexivity.
    + rewrite IH. reflexivity.
Qed.

Lemma set_keys o key v :
  map fst (set o key v) = if existsb (same_key key) (map fst o) then map fst o
                          else map fst o ++ [key].
Proof.
  induction o as [ | [k w] o IH]; simpl; [reflexivity | ].
  destruct (same_key k key) eqn:Hk.
  - apply same_key_spec in Hk. subst k. rewrite same_key_refl. reflexivity.
  - assert (Hk' : same_key key k = false).
    { apply same_key_false. apply same_key_false in Hk. congruence. }
    rewrite Hk'. simpl. rewrite IH.
    destruct (existsb (same_key key) (map fst o)); reflexivity.
Qed.

Lemma existsb_same_key key l : existsb (same_key key) l = true <-> In key l.
Proof.
  rewrite existsb_exists. split.
  - intros (x & Hin & Hx). apply same_key_spec in Hx. subst. assumption.
  - intros Hin. exists key. split; [assumption | apply same_key_refl].
Qed.

Lemma set_keys_NoDup o key v : NoDup (map fst o) -> NoDup (map fst (set o key v)).
Proof.
  intros Hnd. rewrite set_keys.
  destruct (existsb (same_key key) (map fst o)) eqn:Hex; [assumption | ].
  apply NoDup_app; [assumption | constructor; [intros [] | constructor] | ].
  intros a Ha [<- | []].
  apply existsb_same_key in Ha. congruence.
Qed.

Lemma get_In o key v : NoDup (map fst o) -> (get o key = Some v <-> In (key, v) o).
Proof.
  induction o as [ | [k w] o IH]; simpl; intros Hnd.
  - split; [discriminate | contradiction].
  - inversion Hnd as [ | ? ? Hnotin Hnd']; subst.
    destruct (same_key k key) eqn:Hk.
    + apply same_key_spec in Hk. subst k. split.
      * intros [= ->]. left. reflexivity.
      * intros [[= ->] | Hin]; [reflexivity | ].
        exfalso. apply Hnotin. apply (in_map fst) in Hin. exact Hin.
    + rewrite (IH Hnd'). apply same_key_false in Hk. split.
      * intros Hin. right. exact Hin.
      * intros [[= -> ->] | Hin]; [contradiction | exact Hin].
Qed.

Lemma frequencies_fold data : frequencies data = fold_left tally data [].
Proof. reflexivity. Qed.

Lemma tally_fold_get data : forall o key,
  or_zero (get (fold_left tally data o) key) = or_zero (get o key) + occurrences key data.
Proof.
  induction data as [ | x data IH]; intros o key; simpl.
  - unfold occurrences. simpl. lia.
  - rewrite IH. unfold tally, occurrences. simpl.
    destruct (same_key (ToPropertyKey x) key) eqn:Hk.
    + apply same_key_spec in Hk. subst key. rewrite get_set_same. simpl. lia.
    + apply same_key_false in Hk. rewrite get_set_other by assumption. lia.
Qed.

Lemma tally_fold_NoDup data : forall o,
  NoDup (map fst o) -> NoDup (map fst (fold_left tally data o)).
Proof.
  induction data as [ | x data IH]; intros o Hnd; simpl; [assumption | ].
  apply IH. apply set_keys_NoDup. assumption.
Qed.

Lemma tally_fold_keys data : forall o key,
  In key (map fst (fold_left tally data o))
  <-> In key (map fst o) \/ exists x, In x data /\ ToPropertyKey x = key.
Proof.
  induction data as [ | x data IH]; intros o key; simpl.
  - split; [auto | intros [Hin | (x & [] & _)]; assumption].
  - rewrite IH. unfold tally at 1. rewrite set_keys.
    destruct (existsb (same_key (ToPropertyKey x)) (map fst o)) eqn:Hex.
    + apply existsb_same_key in Hex. split.
      * intros [Hin | (y & Hy & Hk)]; [left; assumption | right; exists y; auto].
      * intros [Hin | (y & [-> | Hy] & Hk)];
          [left; assumption | left; subst; assumption | right; exists y; auto].
    + rewrite in_app_iff. simpl. split.
      * intros [[Hin | [<- | []]] | (y & Hy & Hk)];
          [left; assumption | right; exists x; auto | right; exists y; auto].
      * intros [Hin | (y & [-> | Hy] & Hk)];
          [left; left; assumption | left; right; left; assumption | right; exists y; auto].
Qed.

Lemma tally_fold_positive data : forall o,
  Forall (fun p => 1 <= snd p) o -> Forall (fun p => 1 <= snd p) (fold_left tally data o).
Proof.
  induction data as [ | x data IH]; intros o Hpos; simpl; [assumption | ].
  apply IH. unfold tally. generalize (or_zero (get o (ToPropertyKey x))). intros c.
  induction Hpos as [ | [k w] o Hw Hpos IHo]; simpl.
  - constructor; [simpl; lia | constructor].
  - destruct (same_key k (ToPropertyKey x)); constructor; simpl; try lia; assumption.
Qed.

Lemma insert_by_index_perm p l : Permutation (insert_by_index p l) (p :: l).
Proof.
  induction l as [ | q l IH]; simpl; [reflexivity | ].
  destruct (index_of p <=? index_of q)%Z; [reflexivity | ].
  rewrite IH. apply perm_swap.
Qed.

Lemma sort_by_index_perm l : Permutation (sort_by_index l) l.
Proof.
  induction l as [ | p l IH]; simpl; [reflexivity | ].
  rewrite insert_by_index_perm. constructor. exact IH.
Qed.

Lemma filter_split_perm (A : Type) (f : A -> bool) (l : list A) :
  Permutation (filter f l ++ filter (fun x => negb (f x)) l) l.
Proof.
  induction l as [ | a l IH]; simpl; [reflexivity | ].
  destruct (f a); simpl.
  - constructor. exact IH.
  - rewrite <- Permutation_middle. constructor. exact IH.
Qed.

Lemma own_properties_perm o : Permutation (own_properties o) o.
Proof.
  unfold own_properties. rewrite sort_by_index_perm. apply filter_split_perm.
Qed.

Lemma max_count_fold values : forall a,
  exists M, fold_left (fun acc v => match acc with
                                    | None => Some v
                                    | Some a => Some (Nat.max a v)
                                    end) values (Some a) = Some M
            /\ (M = a \/ In M values) /\ a <= M /\ Forall (fun v => v <= M) values.
Proof.
  induction values as [ | v values IH]; intros a; simpl.
  - exists a. repeat split; auto.
  - destruct (IH (Nat.max a v)) as (M & HM & Hin & Hle & Hall).
    exists M. split; [exact HM | ]. split; [ | split; [lia | constructor; [lia | exact Hall]]].
    destruct Hin as [-> | Hin]; [ | right; right; exact Hin].
    destruct (Nat.max_spec a v) as [[_ ->] | [_ ->]]; [right; left; reflexivity | left; reflexivity].
Qed.

Lemma Math_max_count_spec values :
  values <> [] ->
  exists M, Math_max_count values = Some M /\ In M values /\ Forall (fun v => v <= M) values.
Proof.
  destruct values as [ | v values]; [congruence | intros _].
  unfold Math_max_count. simpl.
  destruct (max_count_fold values v) as (M & HM & Hin & Hle & Hall).
  exists M. split; [exact HM | ]. split.
  - destruct Hin as [-> | Hin]; [left; reflexivity | right; exact Hin].
  - constructor; assumption.
Qed.

Lemma ToPropertyKey_idem x : ToPropertyKey (ToPropertyKey x) = ToPropertyKey x.
Proof.
  unfold ToPropertyKey. destruct (is_zero x) eqn:Hz; [reflexivity | ].
  rewrite Hz. reflexivity.
Qed.

Lemma frequencies_NoDup data : NoDup (map fst (frequencies data)).
Proof. rewrite frequencies_fold. apply tally_fold_NoDup. constructor. Qed.

Lemma frequencies_keys data key :
  In key (map fst (frequencies data)) <-> exists x, In x data /\ ToPropertyKey x = key.
Proof.
  rewrite frequencies_fold, tally_fold_keys. simpl. tauto.
Qed.

Lemma frequencies_get data key :
  In key (map fst (frequencies data)) ->
  get (frequencies data) key = Some (occurrences key data).
Proof.
  intros Hin.
  pose proof (tally_fold_get data [] key) as Hget. rewrite <- frequencies_fold in Hget.
  simpl in Hget.
  apply in_map_iff in Hin. destruct Hin as ([k v] & Hk & Hin). simpl in Hk. subst k.
  pose proof (proj2 (get_In _ _ _ (frequencies_NoDup data)) Hin) as Hsome.
  rewrite Hsome in *. simpl in Hget. congruence.
Qed.

Lemma occurrences_cons key x data :
  occurrences key (x :: data)
  = (if same_key (ToPropertyKey x) key then 1 else 0) + occurrences key data.
Proof. unfold occurrences. simpl. destruct (same_key _ _); reflexivity. Qed.

Lemma indicator_sum_NoDup (k : number) (l : list number) :
  NoDup l -> list_sum (map (fun key => if same_key k key then 1 else 0) l) <= 1.
Proof.
  induction 1 as [ | a l Hnotin Hnd IH]; simpl; [lia | ].
  destruct (same_key k a) eqn:Hk; [ | lia].
  apply same_key_spec in Hk. subst a.
  assert (Hz : list_sum (map (fun key => if same_key k key then 1 else 0) l) = 0).
  { clear IH Hnd. induction l as [ | b l IHl]; simpl; [reflexivity | ].
    destruct (same_key k b) eqn:Hb.
    - apply same_key_spec in Hb. subst b. exfalso. apply Hnotin. left. reflexivity.
    - apply IHl. intros Hin. apply Hnotin. right. exact Hin. }
  lia.
Qed.

Lemma occurrences_sum_NoDup (l : list number) data :
  NoDup l -> list_sum (map (fun key => occurrences key data) l) <= length data.
Proof.
  intros Hnd. induction data as [ | x data IH]; simpl.
  - clear Hnd. induction l as [ | a l IHl]; simpl in *; [lia | ].
    change (occurrences a []) with 0. lia.
  - transitivity (list_sum (map (fun key => if same_key (ToPropertyKey x) key then 1 else 0) l)
                  + list_sum (map (fun key => occurrences key data) l)).
    + clear. induction l as [ | a l IHl]; simpl; [lia | ].
      rewrite occurrences_cons. lia.
    + pose proof (indicator_sum_NoDup (ToPropertyKey x) l Hnd). lia.
Qed.

(** C8.  For a non-empty sample, [mode] returns exactly the values whose
    number of occurrences is the largest in the sample: every tied value is
    returned (the whole sample when every value occurs once), each once,
    and the occurrences of the returned values sum to at most the length
    of the sample.  A value is reported as the number its property key
    reads back to, so [-0] is reported as [0]. *)
Theorem mode_all_most_frequent (data : list number) :
  data <> [] ->
  (forall v, In v (mode data) <->
             (exists x, In x data /\ v = ToPropertyKey x)
             /\ forall y, In y data ->
                  occurrences (ToPropertyKey y) data <= occurrences v data)
  /\ NoDup (mode data)
  /\ list_sum (map (fun v => occurrences v data) (mode data)) <= length data.
Proof.
  intros Hne. unfold mode.
  set (o := frequencies data).
  assert (Hperm : Permutation (own_properties o) o) by apply own_properties_perm.
  assert (Hkeys : forall k, In k (Object_keys o) <-> exists x, In x data /\ ToPropertyKey x = k).
  { intros k. unfold Object_keys. rewrite <- frequencies_keys.
    split; apply Permutation_in; [ | symmetry]; apply Permutation_map; exact Hperm. }
  assert (Hnd : NoDup (Object_keys o)).
  { unfold Object_keys. eapply Permutation_NoDup;
      [symmetry; apply Permutation_map; exact Hperm | apply frequencies_NoDup]. }
  assert (Hvals : forall c, In c (Object_values o) <->
                            exists k, In k (Object_keys o) /\ c = occurrences k data).
  { intros c. unfold Object_values, Object_keys. split.
    - intros Hc. apply in_map_iff in Hc. destruct Hc as ([k v] & Hv & Hin).
      simpl in Hv. subst v.
      exists k. split; [apply in_map_iff; exists (k, c); auto | ].
      assert (Hin' : In (k, c) o) by (eapply Permutation_in; eassumption).
      pose proof (in_map fst _ _ Hin') as Hk. simpl in Hk.
      apply (get_In _ _ _ (frequencies_NoDup data)) in Hin'.
      unfold o in Hin'. rewrite (frequencies_get _ _ Hk) in Hin'. congruence.
    - intros (k & Hk & ->). apply in_map_iff in Hk. destruct Hk as ([k' v] & Hk & Hin).
      simpl in Hk. subst k'.
      apply in_map_iff. exists (k, v). split; [ | exact Hin]. simpl.
      assert (Hin' : In (k, v) o) by (eapply Permutation_in; eassumption).
      pose proof (in_map fst _ _ Hin') as Hk. simpl in Hk.
      apply (get_In _ _ _ (frequencies_NoDup data)) in Hin'.
      unfold o in Hin'. rewrite (frequencies_get _ _ Hk) in Hin'. congruence. }
  destruct (Math_max_count_spec (Object_values o)) as (M & HM & HMin & HMall).
  { destruct data as [ | x data]; [congruence | ].
    assert (Hin : In (ToPropertyKey x) (Object_keys o)).
    { apply Hkeys. exists x. split; [left; reflexivity | reflexivity]. }
    unfold Object_keys in Hin. unfold Object_values.
    destruct (own_properties o); [contradiction | discriminate]. }
  rewrite HM. rewrite map_id.
  assert (Hmode : forall v, In v (filter (fun key => count_eq (get o (ToPropertyKey (Number_of_key key))) (Some M)) (Object_keys o))
                   <-> In v (Object_keys o) /\ occurrences v data = M).
  { intros v. rewrite filter_In. split; intros [Hin Hc]; split; try assumption.
    - destruct (proj1 (Hkeys v) Hin) as (x & _ & <-).
      unfold Number_of_key in Hc. rewrite ToPropertyKey_idem in Hc.
      unfold o in Hc. rewrite frequencies_get in Hc by (apply frequencies_keys; apply Hkeys; exact Hin).
      simpl in Hc. apply Nat.eqb_eq in Hc. exact Hc.
    - destruct (proj1 (Hkeys v) Hin) as (x & _ & <-).
      unfold Number_of_key. rewrite ToPropertyKey_idem.
      unfold o. rewrite frequencies_get by (apply frequencies_keys; apply Hkeys; exact Hin).
      simpl. apply Nat.eqb_eq. exact Hc. }
  split; [ | split].
  - intros v. rewrite Hmode, Hkeys. split.
    + intros [(x & Hx & <-) HvM]. split; [exists x; auto | ].
      intros y Hy. rewrite HvM.
      rewrite Forall_forall in HMall. apply HMall. apply Hvals.
      exists (ToPropertyKey y). split; [apply Hkeys; exists y; auto | reflexivity].
    + intros [(x & Hx & ->) Hmax]. split; [exists x; auto | ].
      apply Hvals in HMin. destruct HMin as (k & Hk & ->).
      apply Nat.le_antisymm.
      * rewrite Forall_forall in HMall. apply HMall. apply Hvals.
        exists (ToPropertyKey x). split; [apply Hkeys; exists x; auto | reflexivity].
      * apply Hkeys in Hk. destruct Hk as (y & Hy & <-). apply Hmax, Hy.
  - apply NoDup_filter. exact Hnd.
  - apply occurrences_sum_NoDup. apply NoDup_filter. exact Hnd.
Qed.
End ModeFacts.

Lemma mode_all_most_frequent_witness :
  (In 2 (mode [1; 2; 2; 3; 3]) <->
   (exists x, In x [1; 2; 2; 3; 3] /\ 2 = ToPropertyKey x)
   /\ forall y, In y [1; 2; 2; 3; 3] ->
        le (occurrences (ToPropertyKey y) [1; 2; 2; 3; 3]) (occurrences 2 [1; 2; 2; 3; 3]))
  /\ NoDup (mode [1; 2; 2; 3; 3])
  /\ le (list_sum (map (fun v => occurrences v [1; 2; 2; 3; 3]) (mode [1; 2; 2; 3; 3])))
        (length [1; 2; 2; 3; 3]).
Proof.
  destruct (mode_all_most_frequent [1; 2; 2; 3; 3] ltac:(discriminate)) as (Hin & Hnd & Hsum).
  split; [exact (Hin 2) | split; [exact Hnd | exact Hsum]].
Defined.

(** Ties are all returned, in the order of the object's keys. *)
Lemma mode_ties_example :
  mode [1; 2; 2; 3; 3] = [2; 3] /\ mode [3; 1; 2.5; 2] = [1; 2; 3; 2.5] /\ mode [-0] = [0].
Proof. repeat split. Qed.

(** * [stats.histogram] *)

Section HistogramFacts.
Local Open Scope nat_scope.

Lemma increment_at_length cells i : length (increment_at cells i) = length cells.
Proof.
  revert i. induction cells as [ | c cells IH]; intros [ | i]; simpl; auto.
Qed.

Lemma increment_length cells index : length (increment cells index) = length cells.
Proof.
  destruct index as [k | ]; simpl; [ | reflexivity].
  destruct (0 <=? k)%Z; [apply increment_at_length | reflexivity].
Qed.

Lemma increment_at_nth cells i j :
  nth j (increment_at cells i) 0
  = nth j cells 0 + (if Nat.eqb i j && Nat.ltb j (length cells) then 1 else 0).
Proof.
  revert i j. induction cells as [ | c cells IH]; intros i j.
  - simpl. destruct i, j; simpl; rewrite ?andb_false_r; reflexivity.
  - destruct i as [ | i], j as [ | j]; simpl; try lia.
    rewrite IH. reflexivity.
Qed.

Lemma increment_nth cells index j :
  j < length cells ->
  nth j (increment cells index) 0
  = nth j cells 0
    + (match index with Some k => if (k =? Z.of_nat j)%Z then 1 else 0 | None => 0 end).
Proof.
  intros Hj. destruct index as [k | ]; simpl; [ | lia].
  destruct (Z.leb_spec 0 k) as [Hk | Hk].
  - rewrite increment_at_nth.
    destruct (Nat.ltb_spec j (length cells)); [ | lia]. rewrite andb_true_r.
    destruct (Nat.eqb_spec (Z.to_nat k) j), (Z.eqb_spec k (Z.of_nat j)); lia.
  - destruct (Z.eqb_spec k (Z.of_nat j)); lia.
Qed.

Lemma fold_increment_length (f : number -> option Z) (values : list number) cells :
  length (fold_left (fun binCounts value => increment binCounts (f value)) values cells)
  = length cells.
Proof.
  revert cells. induction values as [ | v values IH]; intros cells; simpl; [reflexivity | ].
  rewrite IH. apply increment_length.
Qed.

Lemma fold_increment_nth (min binWidth : number) (bins : nat)
    (values : list number) (cells : list nat) (j : nat) :
  j < length cells ->
  nth j (fold_left (fun binCounts value =>
                      increment binCounts (binIndex_of min binWidth bins value))
                   values cells) 0
  = nth j cells 0 + length (filter (lands_in min binWidth bins j) values).
Proof.
  revert cells. induction values as [ | v values IH]; intros cells Hj; simpl; [lia | ].
  rewrite IH by (rewrite increment_length; assumption).
  rewrite increment_nth by assumption. unfold lands_in at 2.
  destruct (binIndex_of min binWidth bins v) as [k | ]; [ | simpl; lia].
  destruct (k =? Z.of_nat j)%Z; simpl; lia.
Qed.

Lemma binCounts_length data bins : length (binCounts_of data bins) = bins.
Proof. unfold binCounts_of. rewrite fold_increment_length. apply repeat_length. Qed.

Lemma binCounts_nth data bins (j : nat) :
  j < bins ->
  nth j (binCounts_of data bins) 0
  = length (filter (lands_in (Math_min data) (binWidth_of data bins) bins j) data).
Proof.
  intros Hj. unfold binCounts_of.
  rewrite fold_increment_nth by (rewrite repeat_length; assumption).
  rewrite nth_repeat. reflexivity.
Qed.

Lemma map_count_combine (total : number) (cells : list nat) :
  forall (labs : list (number * number)) (pre : list nat),
    length labs = length cells ->
    map (fun x : number * number * nat =>
           count (let '(label, index) := x in
                  {| bin := label; count := nth index (pre ++ cells) 0;
                     frequency := (num_of_nat (nth index (pre ++ cells) 0%nat) / total)%float |}))
        (combine labs (seq (length pre) (length cells))) = cells.
Proof.
  induction cells as [ | c cells IH]; intros labs pre Hl.
  - destruct labs; reflexivity.
  - destruct labs as [ | lab labs]; [discriminate | ]. simpl.
    f_equal.
    + rewrite app_nth2, Nat.sub_diag by lia. reflexivity.
    + specialize (IH labs (pre ++ [c])).
      rewrite <- app_assoc, length_app in IH. simpl in IH.
      replace (length pre + 1) with (S (length pre)) in IH by lia.
      apply IH. simpl in Hl. lia.
Qed.

Lemma histogram_counts data bins : map count (histogram data bins) = binCounts_of data bins.
Proof.
  unfold histogram.
  set (labels := map _ (seq 0 bins)).
  assert (Hlab : length labels = length (binCounts_of data bins)).
  { unfold labels. rewrite length_map, length_seq, binCounts_length. reflexivity. }
  rewrite map_map.
  pose proof (map_count_combine (num_of_nat (length data)) (binCounts_of data bins) labels [] Hlab) as Hgen.
  rewrite binCounts_length in Hgen. exact Hgen.
Qed.

Lemma increment_at_sum cells i :
  list_sum (increment_at cells i)
  = list_sum cells + (if Nat.ltb i (length cells) then 1 else 0).
Proof.
  revert i. induction cells as [ | c cells IH]; intros [ | i]; simpl; try lia.
  rewrite IH. change (S i <? S (length cells)) with (i <? length cells). lia.
Qed.

Lemma fold_increment_sum (min binWidth : number) (bins : nat)
    (values : list number) (cells : list nat) :
  length cells = bins ->
  list_sum (fold_left (fun binCounts value =>
                         increment binCounts (binIndex_of min binWidth bins value))
                      values cells)
  = list_sum cells + length (filter (counted min binWidth bins) values).
Proof.
  revert cells. induction values as [ | v values IH]; intros cells Hlen; simpl; [lia | ].
  rewrite IH by (rewrite increment_length; assumption).
  unfold counted at 2, increment.
  destruct (binIndex_of min binWidth bins v) as [k | ]; [ | simpl; lia].
  destruct (Z.leb_spec 0 k) as [Hk | Hk]; simpl.
  - rewrite increment_at_sum, Hlen.
    destruct (Nat.ltb_spec (Z.to_nat k) bins), (Z.ltb_spec k (Z.of_nat bins)); simpl; lia.
  - lia.
Qed.

Lemma list_sum_repeat_zero n : list_sum (repeat 0 n) = 0.
Proof. induction n; simpl; auto. Qed.

Lemma binCounts_sum data bins :
  list_sum (binCounts_of data bins)
  = length (filter (counted (Math_min data) (binWidth_of data bins) bins) data).
Proof.
  unfold binCounts_of. rewrite fold_increment_sum by apply repeat_length.
  rewrite list_sum_repeat_zero. reflexivity.
Qed.
End HistogramFacts.

Lemma filter_all (A : Type) (p : A -> bool) (l : list A) :
  Forall (fun a => p a = true) l -> filter p l = l.
Proof.
  induction 1 as [ | a l Ha _ IH]; simpl; [reflexivity | ]. rewrite Ha, IH. reflexivity.
Qed.

Lemma binIndex_of_Some min binWidth bins value j :
  (1 <= bins)%nat ->
  lands_in min binWidth bins j value = true <->
  (exists k, Math_floor ((value - min) / binWidth)%float = Some k
             /\ (k = Z.of_nat j /\ k <> Z.of_nat bins
                 \/ k = Z.of_nat bins /\ j = (bins - 1)%nat)).
Proof.
  intros Hb. unfold lands_in, binIndex_of.
  destruct (Math_floor _) as [k | ]; [ | split; [discriminate | intros (k & Hk & _); discriminate]].
  destruct (Z.eqb_spec k (Z.of_nat bins)) as [-> | Hne].
  - rewrite Z.eqb_eq. split.
    + intros Hj. exists (Z.of_nat bins). split; [reflexivity | right]. lia.
    + intros (k' & Hk & Hcase). injection Hk as <-. destruct Hcase as [[? ?] | [? ?]]; lia.
  - rewrite Z.eqb_eq. split.
    + intros ->. exists (Z.of_nat j). split; [reflexivity | left; auto].
    + intros (k' & Hk & Hcase). injection Hk as <-. destruct Hcase as [[? ?] | [? ?]]; lia.
Qed.

(** What [histogram] returns on every sample: exactly [bins] bins; cell
    [j] counts the values that land in it; the counts sum to the number of
    values whose index, after the fold of [bins] into [bins - 1], is an
    index of the array, which is at most the length of the sample; and a
    value whose computed index is [bins] lands in the last cell. *)
Lemma histogram_counts_counted (data : list number) (bins : nat) :
  list_sum (map count (histogram data bins))
  = length (filter (counted (Math_min data) (binWidth_of data bins) bins) data)
  /\ (list_sum (map count (histogram data bins)) <= length data)%nat
  /\ length (histogram data bins) = bins
  /\ (forall j, (j < bins)%nat ->
        nth j (map count (histogram data bins)) 0%nat
        = length (filter (lands_in (Math_min data) (binWidth_of data bins) bins j) data))
  /\ (forall value,
        (1 <= bins)%nat ->
        Math_floor ((value - Math_min data) / binWidth_of data bins)%float
        = Some (Z.of_nat bins) ->
        lands_in (Math_min data) (binWidth_of data bins) bins (bins - 1) value = true).
Proof.
  rewrite histogram_counts. split; [ | split; [ | split; [ | split]]].
  - apply binCounts_sum.
  - rewrite binCounts_sum. apply filter_length_le.
  - rewrite <- (length_map count), histogram_counts. apply binCounts_length.
  - intros j Hj. apply binCounts_nth, Hj.
  - intros value Hb Hfloor. unfold lands_in, binIndex_of. rewrite Hfloor, Z.eqb_refl.
    apply Z.eqb_eq. lia.
Qed.

(** When every computed index is an integer from 0 to [bins], every value
    is counted. *)
Lemma histogram_counts_of_indices (data : list number) (bins : nat) :
  (1 <= bins)%nat ->
  Forall (fun value =>
            exists k, Math_floor ((value - Math_min data) / binWidth_of data bins)%float = Some k
                      /\ (0 <= k <= Z.of_nat bins)%Z) data ->
  list_sum (map count (histogram data bins)) = length data.
Proof.
  intros Hb Hall. rewrite histogram_counts, binCounts_sum. f_equal. apply filter_all.
  eapply Forall_impl; [ | exact Hall]. cbv beta. intros v (k & Hk & Hr).
  unfold counted, binIndex_of. fold (binWidth_of data bins). rewrite Hk.
  destruct (Z.eqb_spec k (Z.of_nat bins));
    [destruct (Z.leb_spec 0 (Z.of_nat bins - 1)), (Z.ltb_spec (Z.of_nat bins - 1) (Z.of_nat bins))
    | destruct (Z.leb_spec 0 k), (Z.ltb_spec k (Z.of_nat bins))]; simpl; try reflexivity; lia.
Qed.

(** The value at the maximum has the computed index [bins] and is counted
    in the last bin. *)
Lemma histogram_fold_example :
  Math_floor ((4 - Math_min [1; 2; 3; 4]) / binWidth_of [1; 2; 3; 4] 2) = Some 2%Z
  /\ map count (histogram [1; 2; 3; 4] 2) = [2; 2]%nat.
Proof. split; reflexivity. Qed.

(** C3.  The counts do not sum to the length of every sample: the loop
    the code introduces with "Count data points in each bin" loses the
    points of a sample of one value.  On [[5]] with one bin, [min] and
    [max] are both 5, the bin width is [(5 - 5) / 1 = 0], the index
    [Math.floor((5 - 5) / 0)] is [NaN], and [binCounts[NaN]++] touches no
    cell: the one bin returned has count 0, and the counts sum to 0, not
    to the length 1 of the sample. *)
Theorem histogram_single_value_uncounted :
  Math_min [5] = 5 /\ Math_max [5] = 5
  /\ binWidth_of [5] 1 = 0
  /\ ((5 - Math_min [5]) / binWidth_of [5] 1 =? (5 - Math_min [5]) / binWidth_of [5] 1) = false
  /\ Math_floor ((5 - Math_min [5]) / binWidth_of [5] 1) = None
  /\ binIndex_of (Math_min [5]) (binWidth_of [5] 1) 1 5 = None
  /\ map count (histogram [5] 1) = [0%nat]
  /\ list_sum (map count (histogram [5] 1)) = 0%nat
  /\ list_sum (map count (histogram [5] 1)) <> length [5].
Proof. repeat split. discriminate. Qed.

(** The same happens to every value of a sample whose values are all
    equal, and to values whose quotient by a width rounded among the
    subnormal numbers exceeds [bins]. *)
Lemma histogram_lost_counts_example :
  map count (histogram [7; 7; 7] 4) = [0; 0; 0; 0]%nat
  /\ map count (histogram [0; 2.5e-323] 4) = [1; 0; 0; 0]%nat.
Proof. split; reflexivity. Qed.

(** * The t tests and the analysis of variance *)

Lemma ToNumber_member_nan m : ToNumber_member m = nan.
Proof. destruct m; reflexivity. Qed.

Section TTestFacts.
Context {E : MathEngine}.

Lemma oneSampleTTest_returns (j : JStat) data mu0 alpha :
  exists r, oneSampleTTest j data mu0 alpha = Return r
            /\ OneSampleTTest.pValue r = 1
            /\ OneSampleTTest.reject r = gt (Math_abs (OneSampleTTest.tStatistic r)) 1.96.
Proof.
  unfold oneSampleTTest. rewrite ToNumber_member_nan.
  change (ToBoolean (1 - nan)) with false. cbv iota.
  eexists; split; [reflexivity | split; reflexivity].
Qed.

Lemma fallback_pValue x df : 2 * (1 - studentt_cdf_or_half (jStat None) x df) = 1.
Proof. reflexivity. Qed.

Lemma twoSampleTTest_pValue s1 s2 alpha eqv :
  TwoSampleTTest.pValue (twoSampleTTest (jStat None) s1 s2 alpha eqv) = 1.
Proof. unfold twoSampleTTest. destruct eqv; reflexivity. Qed.

Lemma twoSampleTTest_reject s1 s2 alpha eqv :
  TwoSampleTTest.reject (twoSampleTTest (jStat None) s1 s2 alpha eqv) = (1 <? alpha).
Proof. unfold twoSampleTTest. destruct eqv; reflexivity. Qed.

Lemma pairedTTest_throws (j : JStat) before after alpha :
  length before <> length after ->
  pairedTTest j before after alpha = Throw "Paired samples must have equal length".
Proof.
  intros Hne. unfold pairedTTest.
  destruct (Nat.eqb_spec (length before) (length after)); [contradiction | reflexivity].
Qed.

Lemma differences_length before after : length (differences before after) = length before.
Proof.
  unfold differences. rewrite length_map, length_combine, length_seq. apply Nat.min_id.
Qed.

Lemma differences_nth before after i :
  i < length before ->
  nth i (differences before after) nan = element after i - nth i before nan.
Proof.
  intros Hi. unfold differences.
  set (f := fun val_idx : number * nat => element after (snd val_idx) - fst val_idx).
  rewrite (nth_indep _ nan (f (nan, 0%nat)))
    by (rewrite length_map, length_combine, length_seq; lia).
  rewrite (map_nth f), combine_nth by (rewrite length_seq; reflexivity).
  rewrite seq_nth by assumption. reflexivity.
Qed.

Lemma pairedTTest_returns (j : JStat) before after alpha :
  length before = length after ->
  exists r, pairedTTest j before after alpha = Return r
    /\ PairedTTest.degreesOfFreedom r = num_of_Z (Z.of_nat (length before) - 1)
    /\ PairedTTest.meanDifference r = mean (differences before after)
    /\ PairedTTest.pValue r = 2 * (1 - studentt_cdf_or_half j (Math_abs (PairedTTest.tStatistic r)) (PairedTTest.degreesOfFreedom r))
    /\ PairedTTest.reject r = (PairedTTest.pValue r <? alpha).
Proof.
  intros Hlen. unfold pairedTTest. rewrite Hlen, Nat.eqb_refl. simpl negb. cbv iota.
  eexists. split; [reflexivity | ]. simpl.
  rewrite differences_length, Hlen. repeat split; reflexivity.
Qed.

(** C2.  [pairedTTest] throws the error "Paired samples must have equal
    length" exactly when the two arrays differ in length.  When they have
    the same length it returns, with [degreesOfFreedom] the length minus 1;
    nothing is truncated: the array of differences has the length of the
    inputs and holds [after[i] - before[i]] at every index. *)
Theorem pairedTTest_length_mismatch (j : JStat) before after alpha :
  (pairedTTest j before after alpha = Throw "Paired samples must have equal length"
   <-> length before <> length after)
  /\ (length before = length after ->
      exists r, pairedTTest j before after alpha = Return r
        /\ PairedTTest.degreesOfFreedom r = num_of_Z (Z.of_nat (length before) - 1)
        /\ PairedTTest.meanDifference r = mean (differences before after)
        /\ length (differences before after) = length before
        /\ forall i, i < length before ->
             nth i (differences before after) nan = nth i after nan - nth i before nan).
Proof.
  split.
  - split.
    + intros Hthrow Hlen.
      destruct (pairedTTest_returns j before after alpha Hlen) as (r & Hr & _).
      congruence.
    + apply pairedTTest_throws.
  - intros Hlen.
    destruct (pairedTTest_returns j before after alpha Hlen) as (r & Hr & Hdf & Hmd & _).
    exists r. repeat split; try assumption.
    + apply differences_length.
    + intros i Hi. apply differences_nth, Hi.
Qed.

(** C1.  Whatever the data, [oneSampleTTest] returns, with [pValue] 1 and
    the [reject] flag [|tStatistic| > 1.96], for every [jStat] object: the
    condition [1 - jStat.studentt.cdf] is [NaN], never truthy.  With the
    fallback [jStat] object, which has no [studentt.cdf], [twoSampleTTest]
    (pooled and Welch) and, on arrays of equal length, [pairedTTest] return
    [pValue] 1 as well, and [reject] false for every [alpha <= 1]. *)
Theorem t_tests_pValue_is_one (j : JStat) data mu0 s1 s2 eqv before after alpha :
  (exists r, oneSampleTTest j data mu0 alpha = Return r
     /\ OneSampleTTest.pValue r = 1
     /\ OneSampleTTest.reject r = gt (Math_abs (OneSampleTTest.tStatistic r)) 1.96)
  /\ (TwoSampleTTest.pValue (twoSampleTTest (jStat None) s1 s2 alpha eqv) = 1
      /\ ((alpha <=? 1) = true ->
          TwoSampleTTest.reject (twoSampleTTest (jStat None) s1 s2 alpha eqv) = false))
  /\ (length before = length after ->
      exists r, pairedTTest (jStat None) before after alpha = Return r
        /\ PairedTTest.pValue r = 1
        /\ ((alpha <=? 1) = true -> PairedTTest.reject r = false)).
Proof.
  split; [apply oneSampleTTest_returns | split].
  - split; [apply twoSampleTTest_pValue | ].
    intros Ha. rewrite twoSampleTTest_reject. apply leb_true_ltb_false, Ha.
  - intros Hlen.
    destruct (pairedTTest_returns (jStat None) before after alpha Hlen)
      as (r & Hr & _ & _ & Hp & Hrej).
    exists r. split; [exact Hr | ].
    assert (Hone : PairedTTest.pValue r = 1) by (rewrite Hp; reflexivity).
    split; [exact Hone | ].
    intros Ha. rewrite Hrej, Hone. apply leb_true_ltb_false, Ha.
Qed.

(** C4 (as amended).  For a sample [S] whose mean is finite and whose
    pooled standard error is greater than zero, [twoSampleTTest S S alpha
    true] has [tStatistic] 0; with the fallback [jStat] object, [reject] is
    false for every [alpha <= 1].  The standard error of a sample whose
    values are all equal is 0, and is excluded. *)
Theorem twoSampleTTest_same_sample (S : list number) (alpha : number) :
  is_finite (mean S) = true ->
  (0 <? pooledStandardError (length S) (length S) (variance S) (variance S)) = true ->
  (alpha <=? 1) = true ->
  let r := twoSampleTTest (jStat None) S S alpha true in
  TwoSampleTTest.tStatistic r = 0 /\ TwoSampleTTest.reject r = false.
Proof.
  intros Hfin Hse Ha r. split.
  - unfold r, twoSampleTTest. cbn [TwoSampleTTest.tStatistic].
    rewrite (sub_diag _ Hfin). apply zero_div_pos, Hse.
  - unfold r. rewrite twoSampleTTest_reject. apply leb_true_ltb_false, Ha.
Qed.

Lemma length_concat_sum (groups : list (list number)) :
  length (concat groups) = list_sum (map (@length number) groups).
Proof.
  induction groups as [ | g groups IH]; simpl; [reflexivity | ].
  rewrite length_app, IH. reflexivity.
Qed.

(** C5.  [oneWayANOVA] returns the critical value 3.0, rejects exactly
    when [fStatistic > 3.0], reports the p-value 0.01 when it does and 0.1
    otherwise, and the degrees of freedom [k - 1], [N - k] and [N - 1] for
    [k] groups with [N] observations in all. *)
Theorem oneWayANOVA_coarse (groups : list (list number)) (alpha : number) :
  let r := oneWayANOVA groups alpha in
  let k := Z.of_nat (length groups) in
  let N := Z.of_nat (list_sum (map (@length number) groups)) in
  ANOVA.criticalValue r = 3.0
  /\ ANOVA.reject r = gt (ANOVA.fStatistic r) 3.0
  /\ ANOVA.pValue r = (if gt (ANOVA.fStatistic r) 3.0 then 0.01 else 0.1)
  /\ ANOVA.dfBetween r = (k - 1)%Z
  /\ ANOVA.dfWithin r = (N - k)%Z
  /\ ANOVA.dfTotal r = (N - 1)%Z
  /\ ANOVA.fStatistic r = ANOVA.meanSquareBetween r / ANOVA.meanSquareWithin r
  /\ ANOVA.meanSquareBetween r = ANOVA.sumOfSquaresBetween r / num_of_Z (k - 1)
  /\ ANOVA.meanSquareWithin r = ANOVA.sumOfSquaresWithin r / num_of_Z (N - k).
Proof.
  intros r k N. unfold r, k, N, oneWayANOVA. cbn [ANOVA.criticalValue ANOVA.reject ANOVA.fStatistic ANOVA.pValue
    ANOVA.dfBetween ANOVA.dfWithin ANOVA.dfTotal ANOVA.meanSquareBetween ANOVA.meanSquareWithin
    ANOVA.sumOfSquaresBetween ANOVA.sumOfSquaresWithin].
  rewrite <- length_concat_sum. repeat split; reflexivity.
Qed.
End TTestFacts.

Lemma t_tests_pValue_is_one_witness :
  (exists r, @oneSampleTTest reference_engine fallback_jStat [98; 99; 100; 101] 100 0.05
             = Return r
             /\ OneSampleTTest.pValue r = 1)
  /\ TwoSampleTTest.pValue
       (@twoSampleTTest reference_engine (jStat None) [1; 2; 4] [2; 3; 9] 0.05 false) = 1
  /\ TwoSampleTTest.reject
       (@twoSampleTTest reference_engine (jStat None) [1; 2; 4] [2; 3; 9] 0.05 false) = false
  /\ (exists r, @pairedTTest reference_engine (jStat None) [1; 2; 3] [2; 4; 7] 0.05 = Return r
                /\ PairedTTest.pValue r = 1 /\ PairedTTest.reject r = false).
Proof.
  destruct (@t_tests_pValue_is_one reference_engine fallback_jStat [98; 99; 100; 101] 100
              [1; 2; 4] [2; 3; 9] false [1; 2; 3] [2; 4; 7] 0.05)
    as ((r1 & Hr1 & Hp1 & _) & (Hp2 & Hrej2) & Hpaired).
  destruct (Hpaired eq_refl) as (r3 & Hr3 & Hp3 & Hrej3).
  split; [exists r1; split; assumption | ].
  split; [exact Hp2 | ].
  split; [exact (Hrej2 eq_refl) | ].
  exists r3. split; [exact Hr3 | split; [exact Hp3 | exact (Hrej3 eq_refl)]].
Defined.

Lemma pairedTTest_length_mismatch_witness :
  @pairedTTest reference_engine fallback_jStat [1; 2; 3] [2; 4] 0.05
  = Throw "Paired samples must have equal length"
  /\ (exists r, @pairedTTest reference_engine fallback_jStat [1; 2; 3] [2; 4; 7] 0.05
                = Return r
                /\ PairedTTest.degreesOfFreedom r = 2).
Proof.
  split.
  - apply (proj1 (@pairedTTest_length_mismatch reference_engine fallback_jStat
                    [1; 2; 3] [2; 4] 0.05)).
    discriminate.
  - destruct (proj2 (@pairedTTest_length_mismatch reference_engine fallback_jStat
                       [1; 2; 3] [2; 4; 7] 0.05) eq_refl) as (r & Hr & Hdf & _).
    exists r. split; [exact Hr | exact Hdf].
Defined.

(** Two copies of a sample whose values are all equal: the difference of
    the means and the standard error are both 0, and their quotient is
    [NaN]. *)
Lemma twoSampleTTest_constant_sample_counterexample :
  TwoSampleTTest.tStatistic
    (@twoSampleTTest reference_engine (jStat None) [1; 1] [1; 1] 0.05 true) = nan
  /\ strict_eq
       (TwoSampleTTest.tStatistic
          (@twoSampleTTest reference_engine (jStat None) [1; 1] [1; 1] 0.05 true)) 0 = false.
Proof. split; reflexivity. Qed.

Lemma twoSampleTTest_same_sample_witness :
  TwoSampleTTest.tStatistic
    (@twoSampleTTest reference_engine (jStat None) [1; 2; 4] [1; 2; 4] 0.05 true) = 0
  /\ TwoSampleTTest.reject
       (@twoSampleTTest reference_engine (jStat None) [1; 2; 4] [1; 2; 4] 0.05 true) = false.
Proof.
  exact (@twoSampleTTest_same_sample reference_engine [1; 2; 4] 0.05 eq_refl eq_refl eq_refl).
Defined.

(** * Engines with non-negative squares *)

Lemma reference_engine_squares : squares_nonneg reference_engine.
Proof.
  intros b Hb. cbn [approx_pow reference_engine].
  change (Math_floor 2) with (Some 2%Z). change (is_integral 2) with true.
  cbn [andb Z.leb Z.compare]. change (Z.to_nat 2) with 2%nat. cbn [pow_nat].
  rewrite leb_zero_SF, !mul_spec. rewrite is_nan_SF in Hb.
  change (Prim2SF 1) with (S754_finite false 4503599627370496 (-52)).
  destruct (Prim2SF b) as [sb | sb | | sb mb eb]; try discriminate.
  - destruct sb; reflexivity.
  - destruct sb; reflexivity.
  - unfold SF64mul at 2. cbn [SFmul]. rewrite xorb_false_r.
    pose proof (binary_round_aux_signed sb (Zpos (mb * 4503599627370496)) (eb + -52)
                  loc_Exact ltac:(lia)) as Hs.
    destruct (binary_round_aux prec emax sb _ _ loc_Exact) as [s1 | s1 | | s1 m1 e1];
      try discriminate; cbn [SFsigned] in Hs; apply eqb_prop in Hs; subst s1.
    + destruct sb; reflexivity.
    + destruct sb; reflexivity.
    + unfold SF64mul. cbn [SFmul]. rewrite xorb_nilpotent.
      pose proof (binary_round_aux_signed false (Zpos (mb * m1)) (eb + e1) loc_Exact
                    ltac:(lia)) as Hs.
      destruct (binary_round_aux prec emax false _ _ loc_Exact) as [[]|[]| |[] ? ?];
        try discriminate; reflexivity.
Qed.

(** * [confidenceIntervalMean] *)

Section IntervalFacts.
Context {E : MathEngine}.
Hypothesis Hsq : squares_nonneg E.

Lemma Math_pow_2_nonneg (b : number) : is_nan b = false -> (0 <=? Math_pow b 2) = true.
Proof.
  intros Hb. unfold Math_pow.
  change (is_nan 2) with false. change (is_zero 2) with false.
  change (0 <? 2) with true. change (is_odd_integral 2) with false.
  change (2 =? infinity) with false. change (2 =? neg_infinity) with false.
  change (is_integral 2) with true. rewrite Hb. cbv iota. rewrite andb_false_r.
  destruct (b =? infinity); [reflexivity | ].
  destruct (b =? neg_infinity); [reflexivity | ].
  destruct (is_zero b); [destruct (get_sign b); reflexivity | ].
  apply Hsq, Hb.
Qed.

Lemma sum_squares_nonneg (mean : number) (data : list number) (acc : number) :
  is_finite mean = true -> Forall (fun v => is_finite v = true) data ->
  (0 <=? acc) = true ->
  (0 <=? fold_left (fun sum val => sum + Math_pow (val - mean) 2) data acc) = true.
Proof.
  intros Hm Hall. revert acc. induction Hall as [ | v data Hv _ IH]; intros acc Hacc; simpl.
  - exact Hacc.
  - apply IH. apply add_nonneg; [exact Hacc | ].
    apply Math_pow_2_nonneg, sub_finite_not_nan; assumption.
Qed.

Lemma variance_nonneg (data : list number) :
  (2 <= length data)%nat -> (Z.of_nat (length data) < 2 ^ 63)%Z ->
  Forall (fun v => is_finite v = true) data -> is_finite (mean data) = true ->
  (0 <=? variance data) = true.
Proof.
  intros Hn Hlen Hall Hm. unfold variance.
  apply div_nonneg_proper.
  - apply sum_squares_nonneg; [assumption | assumption | reflexivity].
  - apply num_of_Z_pred_proper; assumption.
Qed.

Lemma standardError_nonneg (data : list number) :
  (2 <= length data)%nat -> (Z.of_nat (length data) < 2 ^ 63)%Z ->
  Forall (fun v => is_finite v = true) data -> is_finite (mean data) = true ->
  (0 <=? standardDeviation data / Math_sqrt (num_of_nat (length data))) = true.
Proof.
  intros Hn Hlen Hall Hm.
  apply div_nonneg_proper.
  - apply sqrt_nonneg, variance_nonneg; assumption.
  - apply sqrt_proper, num_of_nat_proper; [lia | assumption].
Qed.

Lemma tCritical_of_proper (confidenceLevel : number) :
  SFproper false (Prim2SF (tCritical_of confidenceLevel)) = true.
Proof.
  unfold tCritical_of.
  destruct (strict_eq confidenceLevel 0.95); [reflexivity | ].
  destruct (strict_eq confidenceLevel 0.99); reflexivity.
Qed.

(** C6 (as amended).  For every array of at least two finite numbers
    whose computed mean is finite (the sum does not overflow), and every
    confidence level, [lowerBound <= mean <= upperBound]; the margin of
    error is the standard error times 1.96 at level 0.95, 2.576 at level
    0.99, and 1.645 at every other level.  (Squares are taken by an engine
    whose squares are non-negative; an array has fewer than 2^32
    elements.) *)
Theorem confidenceIntervalMean_bounds (data : list number) (confidenceLevel : number) :
  (2 <= length data)%nat -> (Z.of_nat (length data) < 2 ^ 32)%Z ->
  Forall (fun v => is_finite v = true) data ->
  is_finite (mean data) = true ->
  let r := confidenceIntervalMean data confidenceLevel in
  (ConfidenceInterval.lowerBound r <=? ConfidenceInterval.mean r) = true
  /\ (ConfidenceInterval.mean r <=? ConfidenceInterval.upperBound r) = true
  /\ ConfidenceInterval.marginOfError r
     = (if strict_eq confidenceLevel 0.95 then 1.96
        else if strict_eq confidenceLevel 0.99 then 2.576 else 1.645)
       * ConfidenceInterval.standardError r.
Proof.
  intros Hn Hlen Hall Hm r.
  assert (Hmargin : (0 <=? ConfidenceInterval.marginOfError r) = true).
  { apply mul_proper_nonneg; [apply tCritical_of_proper | ].
    apply standardError_nonneg; try assumption. lia. }
  split; [ | split].
  - apply sub_nonneg_le; assumption.
  - apply add_nonneg_ge; assumption.
  - reflexivity.
Qed.
End IntervalFacts.

(** Two finite numbers whose sum overflows: the mean and the margin of
    error are both [+Infinity], and the lower bound, their difference, is
    [NaN]. *)
Lemma confidenceIntervalMean_overflow_counterexample :
  forallb is_finite [1e308; 1e308] = true
  /\ ConfidenceInterval.lowerBound
       (@confidenceIntervalMean reference_engine [1e308; 1e308] 0.95) = nan
  /\ (ConfidenceInterval.lowerBound
        (@confidenceIntervalMean reference_engine [1e308; 1e308] 0.95)
      <=? ConfidenceInterval.mean
            (@confidenceIntervalMean reference_engine [1e308; 1e308] 0.95)) = false.
Proof. repeat split. Qed.

Lemma confidenceIntervalMean_bounds_witness :
  (ConfidenceInterval.lowerBound (@confidenceIntervalMean reference_engine [1; 2; 3] 0.9)
   <=? ConfidenceInterval.mean (@confidenceIntervalMean reference_engine [1; 2; 3] 0.9)) = true
  /\ (ConfidenceInterval.mean (@confidenceIntervalMean reference_engine [1; 2; 3] 0.9)
      <=? ConfidenceInterval.upperBound
            (@confidenceIntervalMean reference_engine [1; 2; 3] 0.9)) = true
  /\ ConfidenceInterval.marginOfError (@confidenceIntervalMean reference_engine [1; 2; 3] 0.9)
     = 1.645 * ConfidenceInterval.standardError
                 (@confidenceIntervalMean reference_engine [1; 2; 3] 0.9).
Proof.
  exact (@confidenceIntervalMean_bounds reference_engine reference_engine_squares
           [1; 2; 3] 0.9 (le_S _ _ (le_n 2)) eq_refl
           ltac:(repeat constructor) eq_refl).
Defined.

(** * [hypothesisTests.chiSquareGoodnessOfFit] *)

Lemma fold_left_map_index (A B : Type) (f : A -> B -> A) (g : nat -> B) (l : list nat) (a : A) :
  fold_left (fun acc i => f acc (g i)) l a = fold_left f (map g l) a.
Proof. revert a. induction l as [ | i l IH]; intros a; simpl; [reflexivity | apply IH]. Qed.

Lemma map_nth_pairs (observed expected : list number) :
  length observed = length expected ->
  map (fun i => (element observed i, element expected i)) (seq 0 (length observed))
  = combine observed expected.
Proof.
  revert expected. induction observed as [ | o observed IH]; intros [ | e expected] Hlen;
    try discriminate; [reflexivity | ].
  simpl. f_equal. rewrite <- seq_shift, map_map. apply IH. simpl in Hlen. lia.
Qed.

Lemma fold_left_guard (A B : Type) (c : B -> bool) (h : A -> B -> A) (l : list B) (a : A) :
  fold_left (fun acc b => if c b then h acc b else acc) l a = fold_left h (filter c l) a.
Proof.
  revert a. induction l as [ | b l IH]; intros a; simpl; [reflexivity | ].
  destruct (c b); simpl; apply IH.
Qed.

Lemma ltb_zero_finite_proper (e : float) :
  (0 <? e) = true -> is_finite e = true -> SFproper false (Prim2SF e) = true.
Proof.
  rewrite ltb_spec, is_finite_SFfinite. change (Prim2SF 0) with (S754_zero false).
  destruct (Prim2SF e) as [[]|[]| |[] m ee]; try discriminate; reflexivity.
Qed.

Section ChiSquareFacts.
Context {E : MathEngine}.

Lemma chiSquare_loop_guarded (observed expected : list number) :
  length observed = length expected ->
  chiSquare_loop observed expected
  = fold_left (fun chiSquare oe => chiSquare + Math_pow (fst oe - snd oe) 2 / snd oe)
              (positive_categories observed expected) 0.
Proof.
  intros Hlen. unfold chiSquare_loop, positive_categories.
  rewrite <- fold_left_guard, <- (map_nth_pairs observed expected Hlen).
  rewrite <- fold_left_map_index. reflexivity.
Qed.

Hypothesis Hsq : squares_nonneg E.

Lemma chiSquare_terms_nonneg (l : list (number * number)) (acc : number) :
  Forall (fun oe => is_finite (fst oe) = true /\ is_finite (snd oe) = true
                    /\ gt (snd oe) 0 = true) l ->
  (0 <=? acc) = true ->
  (0 <=? fold_left (fun chiSquare oe => chiSquare + Math_pow (fst oe - snd oe) 2 / snd oe)
                   l acc) = true.
Proof.
  intros Hall. revert acc. induction Hall as [ | [o e] l (Ho & He & Hpos) _ IH];
    intros acc Hacc; simpl; [exact Hacc | ].
  apply IH. apply add_nonneg; [exact Hacc | ].
  apply div_nonneg_proper.
  - apply (Math_pow_2_nonneg Hsq), sub_finite_not_nan; assumption.
  - apply ltb_zero_finite_proper; assumption.
Qed.

(** C10 (as amended).  On arrays of finite numbers of equal length,
    [chiSquareGoodnessOfFit] returns; a category whose expected count is
    not greater than zero contributes nothing, so the statistic is the sum
    of [(O - E)^2 / E] over the categories with [E > 0] and every division
    is by a number greater than zero.  The statistic is a non-negative
    number or [+Infinity], never [NaN], and it is 0 when no expected count
    is greater than zero.  (Squares are taken by an engine whose squares
    are non-negative.)  It can be [+Infinity], by overflow. *)
Theorem chiSquareGoodnessOfFit_guarded (observed expected : list number) (alpha : number) :
  length observed = length expected ->
  Forall (fun v => is_finite v = true) observed ->
  Forall (fun v => is_finite v = true) expected ->
  exists r,
    chiSquareGoodnessOfFit observed expected alpha = Return r
    /\ ChiSquare.chiSquareStatistic r
       = fold_left (fun chiSquare oe => chiSquare + Math_pow (fst oe - snd oe) 2 / snd oe)
                   (positive_categories observed expected) 0
    /\ Forall (fun oe => gt (snd oe) 0 = true) (positive_categories observed expected)
    /\ (0 <=? ChiSquare.chiSquareStatistic r) = true
    /\ is_nan (ChiSquare.chiSquareStatistic r) = false
    /\ (Forall (fun e => gt e 0 = false) expected -> ChiSquare.chiSquareStatistic r = 0).
Proof.
  intros Hlen Hobs Hexp. unfold chiSquareGoodnessOfFit.
  rewrite Hlen, Nat.eqb_refl. cbn [negb]. eexists. split; [reflexivity | ].
  cbn [ChiSquare.chiSquareStatistic].
  rewrite (chiSquare_loop_guarded observed expected Hlen).
  assert (Hpos : Forall (fun oe => gt (snd oe) 0 = true) (positive_categories observed expected)).
  { apply Forall_forall. intros oe Hin. apply filter_In in Hin. apply Hin. }
  assert (Hnn : (0 <=? fold_left (fun chiSquare oe => chiSquare + Math_pow (fst oe - snd oe) 2 / snd oe)
                   (positive_categories observed expected) 0) = true).
  { apply chiSquare_terms_nonneg; [ | reflexivity].
    apply Forall_forall. intros [o e] Hin. apply filter_In in Hin. destruct Hin as [Hin Hgt].
    rewrite Forall_forall in Hobs, Hexp.
    split; [apply Hobs; eapply in_combine_l; eassumption | ].
    split; [apply Hexp; eapply in_combine_r; eassumption | exact Hgt]. }
  split; [reflexivity | ]. split; [exact Hpos | ]. split; [exact Hnn | ].
  split; [apply nonneg_not_nan, Hnn | ].
  intros Hnone. unfold positive_categories.
  assert (Hnil : filter (fun oe : number * number => gt (snd oe) 0) (combine observed expected) = []).
  { clear - Hnone. revert observed.
    induction Hnone as [ | e expected He _ IH]; intros [ | o observed]; try reflexivity.
    simpl. rewrite He. apply IH. }
  rewrite Hnil. reflexivity.
Qed.
End ChiSquareFacts.

(** An expected count of zero is skipped; the difference of a large
    negative and a large positive finite number overflows, its square is
    [+Infinity], and so is the statistic. *)
Lemma chiSquare_overflow_counterexample :
  exists r,
    @chiSquareGoodnessOfFit reference_engine [1; -1.7e308] [0; 1.7e308] 0.05 = Return r
    /\ ChiSquare.chiSquareStatistic r = infinity
    /\ is_finite (ChiSquare.chiSquareStatistic r) = false
    /\ forallb is_finite [1; -1.7e308] = true
    /\ forallb is_finite [0; 1.7e308] = true.
Proof. eexists. repeat split. Qed.

(** So does the quotient of the square of a count by a tiny expected
    count. *)
Lemma chiSquare_small_expected_example :
  exists r,
    @chiSquareGoodnessOfFit reference_engine [10; 20] [1e-310; 30] 0.05 = Return r
    /\ ChiSquare.chiSquareStatistic r = infinity.
Proof. eexists. split; reflexivity. Qed.

Lemma chiSquareGoodnessOfFit_guarded_witness :
  exists r,
    @chiSquareGoodnessOfFit reference_engine [10; 20; 30] [0; 25; 35] 0.05 = Return r
    /\ (0 <=? ChiSquare.chiSquareStatistic r) = true
    /\ is_nan (ChiSquare.chiSquareStatistic r) = false
    /\ positive_categories [10; 20; 30] [0; 25; 35] = [(20, 25); (30, 35)].
Proof.
  destruct (@chiSquareGoodnessOfFit_guarded reference_engine reference_engine_squares
              [10; 20; 30] [0; 25; 35] 0.05 eq_refl
              ltac:(repeat constructor) ltac:(repeat constructor))
    as (r & Hr & _ & _ & Hnn & Hnan & _).
  exists r. split; [exact Hr | split; [exact Hnn | split; [exact Hnan | reflexivity]]].
Defined.

(** * [coinFlipSimulation] *)

Section CoinFlipFacts.
Local Open Scope nat_scope.
Variable random : nat -> number.
Variable probability : number.
Variable numFlips : nat.

Abbreviation run := (coin_loop_upto random numFlips probability).

Lemma run_S n : run (S n) = coin_iteration random numFlips probability (run n) n.
Proof. unfold coin_loop_upto. rewrite seq_S, fold_left_app. reflexivity. Qed.

Lemma run_results n : results (run n) = map (face_of random probability) (seq 0 n).
Proof.
  induction n as [ | n IH]; [reflexivity | ].
  rewrite run_S, seq_S, map_app. cbn [coin_iteration results]. rewrite IH. reflexivity.
Qed.

Lemma run_heads n : heads (run n) = heads_among random probability n.
Proof.
  induction n as [ | n IH]; [reflexivity | ].
  rewrite run_S. unfold heads_among in *. rewrite seq_S, map_app, filter_app, length_app.
  cbn [coin_iteration heads]. rewrite IH. simpl. unfold face_of.
  destruct (random n <? probability)%float; simpl; lia.
Qed.

Lemma run_counts n : heads (run n) + tails (run n) = n.
Proof.
  induction n as [ | n IH]; [reflexivity | ].
  rewrite run_S. cbn [coin_iteration heads tails].
  destruct (random n <? probability)%float; lia.
Qed.

Lemma run_checkpoints n :
  n <= numFlips ->
  map flip (cumulativeProportions (run n)) = filter (is_checkpoint numFlips) (seq 1 n).
Proof.
  induction n as [ | n IH]; [reflexivity | ].
  intros Hn. rewrite run_S, seq_S, filter_app. cbn [coin_iteration cumulativeProportions].
  simpl filter. unfold is_checkpoint at 2.
  replace (Nat.eqb n (numFlips - 1)) with (Nat.eqb (1 + n) numFlips)
    by (destruct (Nat.eqb_spec (1 + n) numFlips), (Nat.eqb_spec n (numFlips - 1)); lia).
  replace (n + 1) with (1 + n) by lia.
  destruct (_ || _).
  - rewrite map_app, IH by lia. reflexivity.
  - rewrite app_nil_r. apply IH. lia.
Qed.

Lemma run_ratios n :
  Forall (fun c => headsRatio c
                   = (num_of_nat (heads_among random probability (flip c))
                      / num_of_nat (flip c))%float)
         (cumulativeProportions (run n)).
Proof.
  induction n as [ | n IH]; [constructor | ].
  rewrite run_S. cbn [coin_iteration cumulativeProportions].
  destruct (_ || _); [ | exact IH].
  apply Forall_app. split; [exact IH | ].
  constructor; [ | constructor]. cbn [headsRatio flip].
  replace (n + 1) with (S n) by lia.
  rewrite <- (run_heads (S n)), run_S. reflexivity.
Qed.
End CoinFlipFacts.

(** C9.  For every number of flips [numFlips >= 1], every probability and
    every sequence of random draws, [coinFlipSimulation] returns
    [heads + tails = numFlips] and [headsRatio = heads / numFlips]; its
    [results] are the first 100 flips, [min numFlips 100] of them; its
    checkpoints are the flips whose number is a multiple of
    [max 1 (floor (numFlips / 100))] together with the last flip, in
    order, so that the last checkpoint is flip [numFlips]; each checkpoint
    records the ratio of heads so far. *)
Theorem coinFlipSimulation_invariants (random : nat -> number) (numFlips : nat)
    (probability : number) :
  (1 <= numFlips)%nat ->
  let r := coinFlipSimulation random numFlips probability in
  (CoinFlip.heads r + CoinFlip.tails r)%nat = numFlips
  /\ CoinFlip.headsRatio r = num_of_nat (CoinFlip.heads r) / num_of_nat numFlips
  /\ CoinFlip.results r = firstn 100 (map (face_of random probability) (seq 0 numFlips))
  /\ length (CoinFlip.results r) = Nat.min numFlips 100
  /\ map flip (CoinFlip.cumulativeProportions r)
     = filter (is_checkpoint numFlips) (seq 1 numFlips)
  /\ last (map flip (CoinFlip.cumulativeProportions r)) 0%nat = numFlips
  /\ Forall (fun c => headsRatio c
                      = num_of_nat (heads_among random probability (flip c))
                        / num_of_nat (flip c))
            (CoinFlip.cumulativeProportions r).
Proof.
  intros Hn r. unfold r, coinFlipSimulation, coin_loop.
  cbn [CoinFlip.heads CoinFlip.tails CoinFlip.headsRatio CoinFlip.results
       CoinFlip.cumulativeProportions].
  split; [apply run_counts | ].
  split; [reflexivity | ].
  split; [rewrite run_results; reflexivity | ].
  split.
  { rewrite run_results, length_firstn, length_map, length_seq. lia. }
  split; [apply run_checkpoints; lia | ].
  split; [ | apply run_ratios].
  rewrite run_checkpoints by lia.
  destruct numFlips as [ | n]; [lia | ].
  rewrite seq_S, filter_app. simpl filter. unfold is_checkpoint at 2.
  rewrite Nat.eqb_refl, orb_true_r. apply last_last.
Qed.

Lemma coinFlipSimulation_invariants_witness :
  let r := coinFlipSimulation (fun i => if Nat.even i then 0.25 else 0.75) 250 0.5 in
  (CoinFlip.heads r + CoinFlip.tails r)%nat = 250%nat
  /\ length (CoinFlip.results r) = 100%nat
  /\ last (map flip (CoinFlip.cumulativeProportions r)) 0%nat = 250%nat.
Proof.
  destruct (coinFlipSimulation_invariants (fun i => if Nat.even i then 0.25 else 0.75)
              250 0.5 ltac:(lia))
    as (Hcount & _ & _ & Hlen & _ & Hlast & _).
  split; [exact Hcount | split; [exact Hlen | exact Hlast]].
Defined.

(** * Further properties of the engine

    First more facts about binary64 arithmetic, then properties of the
    routines, each read off the code. *)

(** ** More binary64 arithmetic *)

Lemma SFadd_comm (x y : spec_float) : SF64add x y = SF64add y x.
Proof.
  destruct x as [sx | sx | | sx mx ex], y as [sy | sy | | sy my ey];
    try reflexivity; try (destruct sx, sy; reflexivity).
  unfold SF64add, SFadd. rewrite (Z.min_comm ex ey), Z.add_comm. reflexivity.
Qed.

Lemma add_comm (a b : float) : a + b = b + a.
Proof. apply Prim2SF_inj. rewrite !add_spec. apply SFadd_comm. Qed.

Lemma SFmul_comm (x y : spec_float) : SF64mul x y = SF64mul y x.
Proof.
  destruct x as [sx | sx | | sx mx ex], y as [sy | sy | | sy my ey];
    try reflexivity; try (destruct sx, sy; reflexivity).
  unfold SF64mul, SFmul. rewrite (xorb_comm sx sy), (Pos.mul_comm mx my), (Z.add_comm ex ey).
  reflexivity.
Qed.

Lemma mul_comm (a b : float) : a * b = b * a.
Proof. apply Prim2SF_inj. rewrite !mul_spec. apply SFmul_comm. Qed.

Lemma add_nan_l (x : float) : nan + x = nan.
Proof. apply Prim2SF_inj. rewrite add_spec. reflexivity. Qed.

Lemma add_nan_r (x : float) : x + nan = nan.
Proof. rewrite add_comm. apply add_nan_l. Qed.

Lemma sub_nan_l (x : float) : nan - x = nan.
Proof. apply Prim2SF_inj. rewrite sub_spec. reflexivity. Qed.

Lemma sub_nan_r (x : float) : x - nan = nan.
Proof.
  apply Prim2SF_inj. rewrite sub_spec. change (Prim2SF nan) with S754_nan.
  destruct (Prim2SF x); reflexivity.
Qed.

Lemma mul_nan_l (x : float) : nan * x = nan.
Proof. apply Prim2SF_inj. rewrite mul_spec. reflexivity. Qed.

Lemma mul_nan_r (x : float) : x * nan = nan.
Proof. rewrite mul_comm. apply mul_nan_l. Qed.

Lemma div_nan_l (x : float) : nan / x = nan.
Proof. apply Prim2SF_inj. rewrite div_spec. reflexivity. Qed.

Lemma div_nan_r (x : float) : x / nan = nan.
Proof.
  apply Prim2SF_inj. rewrite div_spec. change (Prim2SF nan) with S754_nan.
  destruct (Prim2SF x); reflexivity.
Qed.

Lemma sqrt_nan : sqrt nan = nan.
Proof. reflexivity. Qed.

Lemma SFdiv_opp_l (a b : spec_float) : SF64div (SFopp a) b = SFopp (SF64div a b).
Proof.
  destruct a as [sa | sa | | sa ma ea], b as [sb | sb | | sb mb eb]; simpl;
    try reflexivity; try (destruct sa, sb; reflexivity).
  destruct (SFdiv_core_binary prec emax (Zpos ma) ea (Zpos mb) eb) as [[mz ez] lz].
  rewrite <- binary_round_aux_opp. destruct sa, sb; reflexivity.
Qed.

Lemma SFdiv_opp_r (a b : spec_float) : SF64div a (SFopp b) = SFopp (SF64div a b).
Proof.
  destruct a as [sa | sa | | sa ma ea], b as [sb | sb | | sb mb eb]; simpl;
    try reflexivity; try (destruct sa, sb; reflexivity).
  destruct (SFdiv_core_binary prec emax (Zpos ma) ea (Zpos mb) eb) as [[mz ez] lz].
  rewrite <- binary_round_aux_opp. destruct sa, sb; reflexivity.
Qed.

Lemma div_opp_l (a b : float) : (- a) / b = - (a / b).
Proof. apply Prim2SF_inj. rewrite div_spec, !opp_spec, div_spec. apply SFdiv_opp_l. Qed.

Lemma div_opp_r (a b : float) : a / (- b) = - (a / b).
Proof. apply Prim2SF_inj. rewrite div_spec, !opp_spec, div_spec. apply SFdiv_opp_r. Qed.

Lemma mul_self_not_negative (x : float) : (x * x <? 0) = false.
Proof.
  rewrite ltb_spec, mul_spec. change (Prim2SF 0) with (S754_zero false).
  destruct (Prim2SF x) as [sx | sx | | sx mx ex]; try (destruct sx; reflexivity); try reflexivity.
  unfold SF64mul, SFmul. rewrite xorb_nilpotent.
  pose proof (binary_round_aux_signed false (Zpos (mx * mx)) (ex + ex) loc_Exact) as Hs.
  destruct (binary_round_aux prec emax false (Zpos (mx * mx)) (ex + ex) loc_Exact)
    as [s | s | | s m e]; cbn [SFsigned] in Hs.
  - reflexivity.
  - specialize (Hs ltac:(lia)). destruct s; [discriminate | reflexivity].
  - reflexivity.
  - specialize (Hs ltac:(lia)). destruct s; [discriminate | reflexivity].
Qed.

Section MoreRounding.
Local Open Scope Z_scope.

Lemma SFleb_zero_nonneg (x : spec_float) : SFleb (S754_zero false) x = SFnonneg x.
Proof. destruct x as [[]|[]| |[] m e]; reflexivity. Qed.

(** The difference of two finite numbers, the larger first, is not negative. *)
Lemma SFsub_le_nonneg (x y : spec_float) :
  valid_binary x = true -> valid_binary y = true ->
  SFfinite x = true -> SFfinite y = true ->
  SFleb y x = true -> SFnonneg (SF64sub x y) = true.
Proof.
  intros Hvx Hvy Hfx Hfy Hle.
  unfold SFleb in Hle. rewrite SFcompare_scaled in Hle by assumption.
  assert (Hs : SFscaled y <= SFscaled x).
  { destruct (Z.compare_spec (SFscaled y) (SFscaled x)); try lia; discriminate. }
  clear Hle.
  destruct x as [sx | sx | | sx mx ex]; try discriminate;
    destruct y as [sy | sy | | sy my ey]; try discriminate.
  - destruct sx, sy; reflexivity.
  - pose proof (valid_finite_scaled_pos _ _ _ Hvy) as [Hy _].
    cbn [SFscaled] in Hs. destruct sy; cbn [cond_Zopp] in Hs; [reflexivity | lia].
  - pose proof (valid_finite_scaled_pos _ _ _ Hvx) as [Hx _].
    cbn [SFscaled] in Hs. destruct sx; cbn [cond_Zopp] in Hs; [lia | reflexivity].
  - pose proof (valid_finite_scaled_pos _ _ _ Hvx) as [Hx Hex].
    pose proof (valid_finite_scaled_pos _ _ _ Hvy) as [Hy Hey].
    rewrite <- SFleb_zero_nonneg. unfold SF64sub, SFsub.
    apply binary_normalize_ge; try reflexivity; [lia | ].
    rewrite Z.mul_sub_distr_r, !cond_Zopp_mul, !shl_align_scaled by lia.
    cbn [SFscaled] in *. lia.
Qed.

Lemma binary_normalize_abs_opp (V e : Z) :
  SFabs (binary_normalize prec emax (- V) e false)
  = SFabs (binary_normalize prec emax V e false).
Proof.
  destruct V as [ | m | m]; cbn [Z.opp binary_normalize]; try reflexivity.
  - unfold binary_round. destruct (shl_align m e _) as [mz ez].
    change true with (negb false). rewrite binary_round_aux_opp.
    destruct (binary_round_aux prec emax false (Zpos mz) ez loc_Exact); reflexivity.
  - unfold binary_round. destruct (shl_align m e _) as [mz ez].
    change true with (negb false). rewrite binary_round_aux_opp.
    destruct (binary_round_aux prec emax false (Zpos mz) ez loc_Exact); reflexivity.
Qed.

Lemma SFabs_sub_swap (x y : spec_float) :
  SFabs (SF64sub x y) = SFabs (SF64sub y x).
Proof.
  destruct x as [sx | sx | | sx mx ex], y as [sy | sy | | sy my ey];
    try reflexivity; try (destruct sx, sy; reflexivity).
  unfold SF64sub, SFsub. rewrite (Z.min_comm ey ex).
  rewrite <- binary_normalize_abs_opp. f_equal. f_equal. lia.
Qed.

End MoreRounding.

Lemma sub_le_nonneg (a b : float) :
  is_finite a = true -> is_finite b = true -> (b <=? a) = true -> (0 <=? a - b) = true.
Proof.
  rewrite !is_finite_SFfinite, leb_zero_SF, leb_spec, sub_spec.
  apply SFsub_le_nonneg; apply Prim2SF_valid.
Qed.

Lemma abs_sub_swap (a b : float) : abs (a - b) = abs (b - a).
Proof. apply Prim2SF_inj. rewrite !abs_spec, !sub_spec. apply SFabs_sub_swap. Qed.

Section DivOne.
Local Open Scope Z_scope.

Lemma div_eucl_exact (a b q : Z) : 0 < b -> a = q * b -> Z.div_eucl a b = (q, 0).
Proof.
  intros Hb ->. pose proof (Z.div_mod (q * b) b ltac:(lia)) as Hdm.
  unfold Z.div, Z.modulo in *. destruct (Z.div_eucl (q * b) b) as [q' r'] eqn:Hqr.
  assert (Hq : q' = q * b / b) by (unfold Z.div; rewrite Hqr; reflexivity).
  assert (Hr : r' = (q * b) mod b) by (unfold Z.modulo; rewrite Hqr; reflexivity).
  rewrite Z.div_mul in Hq by lia. rewrite Z.mod_mul in Hr by lia. congruence.
Qed.

Lemma SFdiv_one (x : spec_float) :
  valid_binary x = true ->
  SF64div x (S754_finite false 4503599627370496 (-52)) = x.
Proof.
  intros Hv. destruct x as [sx | sx | | sx mx ex]; try (destruct sx; reflexivity); try reflexivity.
  cbn [SpecFloat.valid_binary] in Hv.
  pose proof (bounded_digits _ _ Hv) as (He & Hd & Hd').
  apply bounded64 in Hv. destruct Hv as [Hfe _].
  unfold SF64div, SFdiv, SFdiv_core_binary.
  rewrite fexp64, xorb_false_r.
  change (Zdigits2 (Zpos mx)) with (Zpos (digits2_pos mx)).
  change (Zdigits2 4503599627370496) with 53.
  set (d := Zpos (digits2_pos mx)) in *.
  destruct (Z.eq_dec ex (-1074)) as [-> | Hne].
  - replace (Z.min (Z.max (d + -1074 - (53 + -52) - 53) (-1074)) (-1074 - -52))
      with (-1074) by lia.
    change (-1074 - -52 - -1074) with 52. cbv iota.
    rewrite (div_eucl_exact (Z.shiftl (Zpos mx) 52) 4503599627370496 (Zpos mx));
      [ | lia | rewrite Z.shiftl_mul_pow2 by lia; reflexivity].
    change (new_location 4503599627370496 0) with loc_Exact.
    rewrite binary_round_aux_exact by (rewrite fexp64; fold d; lia).
    reflexivity.
  - assert (d = 53) by lia.
    replace (Z.min (Z.max (d + ex - (53 + -52) - 53) (-1074)) (ex - -52)) with (ex - 1) by lia.
    replace (ex - -52 - (ex - 1)) with 53 by lia. cbv iota.
    rewrite (div_eucl_exact (Z.shiftl (Zpos mx) 53) 4503599627370496 (Zpos (xO mx)));
      [ | lia | rewrite Z.shiftl_mul_pow2 by lia; rewrite (Pos2Z.inj_xO mx);
              change (2 ^ 53) with (2 * 4503599627370496); lia].
    change (new_location 4503599627370496 0) with loc_Exact.
    assert (Hd54 : Zpos (digits2_pos (xO mx)) = 54).
    { cbn [digits2_pos]. rewrite Pos2Z.inj_succ. fold d. lia. }
    destruct (binary_round_aux_inexact sx (xO mx) (ex - 1) ltac:(lia) ltac:(lia))
      as (m2 & _ & Hexact & Hrange & ->).
    rewrite Hd54 in *. change (54 - 53) with 1 in *. change (2 ^ 1) with 2 in *.
    assert (Hm2 : Zpos m2 = Zpos mx).
    { rewrite Hexact.
      - rewrite (Pos2Z.inj_xO mx), Z.mul_comm, Z.div_mul; lia.
      - rewrite (Pos2Z.inj_xO mx), Z.mul_comm. apply Z.mod_mul. lia. }
    injection Hm2 as ->.
    pose proof (digits2_pos_bounds mx) as [_ Hhi]. fold d in Hhi. rewrite H in Hhi.
    destruct (Z.ltb_spec (Zpos mx) (2 ^ 53)); [ | lia].
    replace (ex - 1 + 1) with ex by lia.
    destruct (Z.leb_spec ex 971); [reflexivity | lia].
Qed.

End DivOne.

Lemma div_one (x : float) : x / 1 = x.
Proof.
  apply Prim2SF_inj. rewrite div_spec.
  change (Prim2SF 1) with (S754_finite false 4503599627370496 (-52)).
  apply SFdiv_one, Prim2SF_valid.
Qed.

Section Order.
Local Open Scope Z_scope.

Lemma SFrank_bounds (x : spec_float) :
  valid_binary x = true -> - 2 ^ 2098 <= SFrank x <= 2 ^ 2098.
Proof.
  intros Hv. assert (0 < 2 ^ 2098) by (apply pow2_pos; lia).
  destruct x as [sx | sx | | sx mx ex]; cbn [SFrank SFscaled]; try lia.
  - destruct sx; cbn [cond_Zopp]; lia.
  - pose proof (valid_finite_scaled_pos _ _ _ Hv) as [Hx _].
    cbn [SpecFloat.valid_binary] in Hv. apply bounded_scaled_max in Hv.
    destruct sx; cbn [cond_Zopp]; lia.
Qed.

Lemma SFcompare_rank (x y : spec_float) :
  valid_binary x = true -> valid_binary y = true ->
  x <> S754_nan -> y <> S754_nan ->
  SFcompare x y = Some (SFrank x ?= SFrank y).
Proof.
  intros Hvx Hvy Hnx Hny.
  assert (HP : 0 < 2 ^ 2098) by (apply pow2_pos; lia).
  destruct x as [sx | sx | | sx mx ex]; try congruence;
    destruct y as [sy | sy | | sy my ey]; try congruence;
    try (apply SFcompare_scaled; (assumption || reflexivity)).
  - cbn [SFcompare SFrank SFscaled]. f_equal. symmetry.
    destruct sy; cbn [cond_Zopp];
      [apply Z.compare_gt_iff | apply Z.compare_lt_iff]; lia.
  - cbn [SFcompare SFrank SFscaled]. f_equal. symmetry.
    destruct sx; cbn [cond_Zopp];
      [apply Z.compare_lt_iff | apply Z.compare_gt_iff]; lia.
  - cbn [SFcompare SFrank]. f_equal. symmetry.
    destruct sx, sy; cbn [cond_Zopp];
      [apply Z.compare_eq_iff | apply Z.compare_lt_iff | apply Z.compare_gt_iff
       | apply Z.compare_eq_iff]; lia.
  - pose proof (SFrank_bounds _ Hvy) as Hb.
    pose proof (valid_finite_scaled_pos _ _ _ Hvy) as [Hy _].
    cbn [SpecFloat.valid_binary] in Hvy. apply bounded_scaled_max in Hvy.
    cbn [SFcompare SFrank SFscaled] in *. f_equal. symmetry.
    destruct sx; cbn [cond_Zopp];
      [apply Z.compare_lt_iff | apply Z.compare_gt_iff]; destruct sy; cbn [cond_Zopp]; lia.
  - pose proof (valid_finite_scaled_pos _ _ _ Hvx) as [Hx _].
    cbn [SpecFloat.valid_binary] in Hvx. apply bounded_scaled_max in Hvx.
    cbn [SFcompare SFrank SFscaled] in *. f_equal. symmetry.
    destruct sy; cbn [cond_Zopp];
      [apply Z.compare_gt_iff | apply Z.compare_lt_iff]; destruct sx; cbn [cond_Zopp]; lia.
Qed.

End Order.

Lemma is_nan_false_SF (x : float) : is_nan x = false -> Prim2SF x <> S754_nan.
Proof. rewrite is_nan_SF. destruct (Prim2SF x); congruence. Qed.

Lemma leb_rank (a b : float) :
  is_nan a = false -> is_nan b = false -> (a <=? b) = (rank a <=? rank b)%Z.
Proof.
  intros Ha Hb. rewrite leb_spec. unfold SFleb, rank.
  rewrite SFcompare_rank by (apply Prim2SF_valid || apply is_nan_false_SF; assumption).
  rewrite Z.leb_compare.
  destruct (SFrank (Prim2SF a) ?= SFrank (Prim2SF b))%Z; reflexivity.
Qed.

Lemma ltb_rank (a b : float) :
  is_nan a = false -> is_nan b = false -> (a <? b) = (rank a <? rank b)%Z.
Proof.
  intros Ha Hb. rewrite ltb_spec. unfold SFltb, rank.
  rewrite SFcompare_rank by (apply Prim2SF_valid || apply is_nan_false_SF; assumption).
  rewrite Z.ltb_compare.
  destruct (SFrank (Prim2SF a) ?= SFrank (Prim2SF b))%Z; reflexivity.
Qed.

Lemma leb_nan_l (b : float) : (nan <=? b) = false.
Proof. rewrite leb_spec. reflexivity. Qed.

Lemma leb_true_not_nan (a b : float) :
  (a <=? b) = true -> is_nan a = false /\ is_nan b = false.
Proof.
  rewrite leb_spec, !is_nan_SF. unfold SFleb.
  destruct (Prim2SF a), (Prim2SF b); cbn; intros H; try discriminate; split; reflexivity.
Qed.

Lemma ltb_true_not_nan (a b : float) :
  (a <? b) = true -> is_nan a = false /\ is_nan b = false.
Proof. intros H. apply leb_true_not_nan, ltb_true_leb_true, H. Qed.

Lemma leb_trans (a b c : float) :
  (a <=? b) = true -> (b <=? c) = true -> (a <=? c) = true.
Proof.
  intros Hab Hbc.
  destruct (leb_true_not_nan _ _ Hab) as [Ha Hb].
  destruct (leb_true_not_nan _ _ Hbc) as [_ Hc].
  rewrite leb_rank in * by assumption. lia.
Qed.

Section ExactIntegers.
Local Open Scope Z_scope.

(** An integer below [2^53] converts to a number exactly. *)
Lemma binary_normalize_exact (p : positive) :
  Zpos p < 2 ^ 53 ->
  exists m e, binary_normalize prec emax (Zpos p) 0 false = S754_finite false m e
              /\ scaled m e = Zpos p * 2 ^ 1074.
Proof.
  intros Hp. cbn [binary_normalize]. unfold binary_round. rewrite fexp64.
  assert (Hd : Zpos (digits2_pos p) <= 53) by (apply digits2_pos_le; lia).
  assert (Hd0 : 0 < Zpos (digits2_pos p)) by lia.
  remember (Zpos (digits2_pos p)) as d eqn:Hdp.
  replace (Z.max (d + 0 - 53) (-1074)) with (d - 53) by lia.
  pose proof (shl_align_scaled p 0 (d - 53) ltac:(lia) ltac:(lia)) as Hsc.
  assert (Hdig : Zpos (digits2_pos (fst (shl_align p 0 (d - 53)))) = 53
                 /\ snd (shl_align p 0 (d - 53)) = d - 53).
  { unfold shl_align. destruct (d - 53 - 0) as [ | q | q] eqn:Hq; cbn [fst snd]; try lia.
    rewrite digits2_pos_shift. lia. }
  destruct (shl_align p 0 (d - 53)) as [mz ez]. cbn [fst snd] in *.
  destruct Hdig as [Hdig ->].
  rewrite binary_round_aux_exact by (rewrite fexp64, Hdig; lia).
  destruct (Z.leb_spec (d - 53) 971); [ | lia].
  exists mz, (d - 53). split; [reflexivity | ].
  unfold scaled in *. rewrite Hsc. reflexivity.
Qed.

Lemma num_of_nat_rank (n : nat) :
  Z.of_nat n < 2 ^ 53 ->
  is_nan (num_of_nat n) = false /\ rank (num_of_nat n) = Z.of_nat n * 2 ^ 1074.
Proof.
  intros Hn. unfold rank. rewrite is_nan_SF. unfold num_of_nat.
  rewrite of_uint63_spec, Uint63.of_Z_spec.
  change Uint63.wB with (2 ^ 63). rewrite Z.mod_small by lia.
  destruct (Z.of_nat n) as [ | p | p] eqn:Hp; try lia.
  - split; reflexivity.
  - destruct (binary_normalize_exact p Hn) as (m & e & -> & Hs).
    split; [reflexivity | exact Hs].
Qed.

End ExactIntegers.

(** ** [stats.min], [stats.max], [stats.range] *)

Lemma is_nan_true_eq (x : float) : is_nan x = true -> x = nan.
Proof.
  rewrite is_nan_SF. intros H. apply Prim2SF_inj. change (Prim2SF nan) with S754_nan.
  destruct (Prim2SF x); congruence.
Qed.

Lemma Math_min2_nan_l b : Math_min2 nan b = nan.
Proof. reflexivity. Qed.

Lemma Math_max2_nan_l b : Math_max2 nan b = nan.
Proof. reflexivity. Qed.

Lemma Math_min2_nan_r a : Math_min2 a nan = nan.
Proof. unfold Math_min2. change (is_nan nan) with true. rewrite orb_true_r. reflexivity. Qed.

Lemma Math_max2_nan_r a : Math_max2 a nan = nan.
Proof. unfold Math_max2. change (is_nan nan) with true. rewrite orb_true_r. reflexivity. Qed.

Lemma fold_min_nan l : fold_left Math_min2 l nan = nan.
Proof. induction l as [ | x l IH]; [reflexivity | exact IH]. Qed.

Lemma fold_max_nan l : fold_left Math_max2 l nan = nan.
Proof. induction l as [ | x l IH]; [reflexivity | exact IH]. Qed.

Lemma fold_min_Exists_nan l : forall acc,
  Exists (fun v => is_nan v = true) l -> fold_left Math_min2 l acc = nan.
Proof.
  induction l as [ | x l IH]; intros acc Hex; inversion Hex; subst; cbn [fold_left].
  - rewrite (is_nan_true_eq x) by assumption. rewrite Math_min2_nan_r. apply fold_min_nan.
  - apply IH. assumption.
Qed.

Lemma fold_max_Exists_nan l : forall acc,
  Exists (fun v => is_nan v = true) l -> fold_left Math_max2 l acc = nan.
Proof.
  induction l as [ | x l IH]; intros acc Hex; inversion Hex; subst; cbn [fold_left].
  - rewrite (is_nan_true_eq x) by assumption. rewrite Math_max2_nan_r. apply fold_max_nan.
  - apply IH. assumption.
Qed.

Lemma Math_min2_spec a b :
  is_nan a = false -> is_nan b = false ->
  (Math_min2 a b = a \/ Math_min2 a b = b)
  /\ rank (Math_min2 a b) = Z.min (rank a) (rank b).
Proof.
  intros Ha Hb. unfold Math_min2. rewrite Ha, Hb. cbn [orb].
  rewrite !ltb_rank by assumption.
  destruct (Z.ltb_spec (rank a) (rank b)); [split; [left; reflexivity | lia] | ].
  destruct (Z.ltb_spec (rank b) (rank a)); [split; [right; reflexivity | lia] | ].
  destruct (get_sign a); (split; [auto | lia]).
Qed.

Lemma Math_max2_spec a b :
  is_nan a = false -> is_nan b = false ->
  (Math_max2 a b = a \/ Math_max2 a b = b)
  /\ rank (Math_max2 a b) = Z.max (rank a) (rank b).
Proof.
  intros Ha Hb. unfold Math_max2. rewrite Ha, Hb. cbn [orb].
  rewrite !ltb_rank by assumption.
  destruct (Z.ltb_spec (rank b) (rank a)); [split; [left; reflexivity | lia] | ].
  destruct (Z.ltb_spec (rank a) (rank b)); [split; [right; reflexivity | lia] | ].
  destruct (get_sign a); (split; [auto | lia]).
Qed.

Lemma fold_min_spec l : forall acc,
  is_nan acc = false -> Forall (fun v => is_nan v = false) l ->
  let r := fold_left Math_min2 l acc in
  (r = acc \/ In r l) /\ is_nan r = false
  /\ (rank r <= rank acc)%Z /\ Forall (fun v => (rank r <= rank v)%Z) l.
Proof.
  induction l as [ | x l IH]; intros acc Hacc Hall; cbn [fold_left].
  - repeat split; auto. lia.
  - inversion Hall as [ | ? ? Hx Hl]; subst.
    destruct (Math_min2_spec acc x Hacc Hx) as [Hsel Hrank].
    assert (Hn : is_nan (Math_min2 acc x) = false) by (destruct Hsel as [-> | ->]; assumption).
    destruct (IH (Math_min2 acc x) Hn Hl) as (Hin & Hnr & Hle & Hfor).
    repeat split.
    + destruct Hin as [-> | Hin]; [ | right; right; exact Hin].
      destruct Hsel as [-> | ->]; [left; reflexivity | right; left; reflexivity].
    + exact Hnr.
    + lia.
    + constructor; [lia | exact Hfor].
Qed.

Lemma fold_max_spec l : forall acc,
  is_nan acc = false -> Forall (fun v => is_nan v = false) l ->
  let r := fold_left Math_max2 l acc in
  (r = acc \/ In r l) /\ is_nan r = false
  /\ (rank acc <= rank r)%Z /\ Forall (fun v => (rank v <= rank r)%Z) l.
Proof.
  induction l as [ | x l IH]; intros acc Hacc Hall; cbn [fold_left].
  - repeat split; auto. lia.
  - inversion Hall as [ | ? ? Hx Hl]; subst.
    destruct (Math_max2_spec acc x Hacc Hx) as [Hsel Hrank].
    assert (Hn : is_nan (Math_max2 acc x) = false) by (destruct Hsel as [-> | ->]; assumption).
    destruct (IH (Math_max2 acc x) Hn Hl) as (Hin & Hnr & Hle & Hfor).
    repeat split.
    + destruct Hin as [-> | Hin]; [ | right; right; exact Hin].
      destruct Hsel as [-> | ->]; [left; reflexivity | right; left; reflexivity].
    + exact Hnr.
    + lia.
    + constructor; [lia | exact Hfor].
Qed.

Lemma rank_le_infinity (x : float) : (rank x <= rank infinity)%Z.
Proof. apply (SFrank_bounds (Prim2SF x)), Prim2SF_valid. Qed.

Lemma rank_ge_neg_infinity (x : float) : (rank neg_infinity <= rank x)%Z.
Proof. apply (SFrank_bounds (Prim2SF x)), Prim2SF_valid. Qed.

Lemma Math_min2_infinity_l x : is_nan x = false -> Math_min2 infinity x = x.
Proof.
  intros Hx. unfold Math_min2. rewrite Hx. cbn [is_nan orb].
  change (is_nan infinity) with false. cbn [orb].
  rewrite !ltb_rank by (assumption || reflexivity).
  pose proof (rank_le_infinity x).
  destruct (Z.ltb_spec (rank infinity) (rank x)); [lia | ].
  destruct (Z.ltb_spec (rank x) (rank infinity)); reflexivity.
Qed.

Lemma Math_max2_neg_infinity_l x : is_nan x = false -> Math_max2 neg_infinity x = x.
Proof.
  intros Hx. unfold Math_max2. rewrite Hx.
  change (is_nan neg_infinity) with false. cbn [orb].
  rewrite !ltb_rank by (assumption || reflexivity).
  pose proof (rank_ge_neg_infinity x).
  destruct (Z.ltb_spec (rank x) (rank neg_infinity)); [lia | ].
  destruct (Z.ltb_spec (rank neg_infinity) (rank x)); reflexivity.
Qed.

Lemma Math_min_spec data :
  data <> [] -> Forall (fun v => is_nan v = false) data ->
  In (Math_min data) data /\ is_nan (Math_min data) = false
  /\ Forall (fun v => (rank (Math_min data) <= rank v)%Z) data.
Proof.
  intros Hne Hall. destruct data as [ | x l]; [congruence | ].
  inversion Hall as [ | ? ? Hx Hl]; subst.
  unfold Math_min. cbn [fold_left]. rewrite Math_min2_infinity_l by assumption.
  destruct (fold_min_spec l x Hx Hl) as (Hin & Hn & Hle & Hfor).
  repeat split.
  - destruct Hin as [-> | Hin]; [left; reflexivity | right; exact Hin].
  - exact Hn.
  - constructor; assumption.
Qed.

Lemma Math_max_spec data :
  data <> [] -> Forall (fun v => is_nan v = false) data ->
  In (Math_max data) data /\ is_nan (Math_max data) = false
  /\ Forall (fun v => (rank v <= rank (Math_max data))%Z) data.
Proof.
  intros Hne Hall. destruct data as [ | x l]; [congruence | ].
  inversion Hall as [ | ? ? Hx Hl]; subst.
  unfold Math_max. cbn [fold_left]. rewrite Math_max2_neg_infinity_l by assumption.
  destruct (fold_max_spec l x Hx Hl) as (Hin & Hn & Hle & Hfor).
  repeat split.
  - destruct Hin as [-> | Hin]; [left; reflexivity | right; exact Hin].
  - exact Hn.
  - constructor; assumption.
Qed.

(** X1.  On a sample that is not empty and holds no [NaN], [stats.min] and
    [stats.max] return values of the sample, [stats.min] at most and
    [stats.max] at least every value of the sample. *)
Theorem stats_min_max_extremes (data : list number) :
  data <> [] -> Forall (fun v => is_nan v = false) data ->
  In (stats.min data) data
  /\ Forall (fun v => (stats.min data <=? v) = true) data
  /\ In (stats.max data) data
  /\ Forall (fun v => (v <=? stats.max data) = true) data.
Proof.
  intros Hne Hall. unfold stats.min, stats.max.
  destruct (Math_min_spec data Hne Hall) as (Hin & Hn & Hfor).
  destruct (Math_max_spec data Hne Hall) as (Hin' & Hn' & Hfor').
  rewrite Forall_forall in *.
  repeat split; try assumption.
  - intros v Hv. rewrite leb_rank by auto. apply Z.leb_le. auto.
  - apply Forall_forall. intros v Hv. rewrite leb_rank by auto. apply Z.leb_le. auto.
Qed.

Lemma stats_min_max_extremes_witness :
  In (stats.min [3; 1; 2]) [3; 1; 2]
  /\ Forall (fun v => (stats.min [3; 1; 2] <=? v) = true) [3; 1; 2]
  /\ In (stats.max [3; 1; 2]) [3; 1; 2]
  /\ Forall (fun v => (v <=? stats.max [3; 1; 2]) = true) [3; 1; 2].
Proof.
  apply (stats_min_max_extremes [3; 1; 2]).
  - discriminate.
  - repeat constructor.
Defined.

(** X2.  A [NaN] anywhere in the sample makes [stats.min], [stats.max] and
    [stats.range] [NaN]. *)
Theorem stats_min_max_nan (data : list number) :
  Exists (fun v => is_nan v = true) data ->
  stats.min data = nan /\ stats.max data = nan /\ stats.range data = nan.
Proof.
  intros Hex. unfold stats.min, stats.max, stats.range, Math_min, Math_max.
  rewrite fold_min_Exists_nan, fold_max_Exists_nan by assumption.
  repeat split.
Qed.

Lemma stats_min_max_nan_witness :
  stats.min [1; nan; 2] = nan /\ stats.max [1; nan; 2] = nan
  /\ stats.range [1; nan; 2] = nan.
Proof.
  apply (stats_min_max_nan [1; nan; 2]).
  apply Exists_cons_tl, Exists_cons_hd. reflexivity.
Defined.

Lemma is_finite_not_nan x : is_finite x = true -> is_nan x = false.
Proof. rewrite is_finite_SF, is_nan_SF. destruct (Prim2SF x); congruence. Qed.

(** X3.  The range of a non-empty sample of finite values is a number that
    is not negative. *)
Theorem stats_range_nonneg (data : list number) :
  data <> [] -> Forall (fun v => is_finite v = true) data ->
  (0 <=? stats.range data) = true.
Proof.
  intros Hne Hfin.
  assert (Hall : Forall (fun v => is_nan v = false) data).
  { rewrite Forall_forall in *. intros v Hv. apply is_finite_not_nan. auto. }
  destruct (Math_min_spec data Hne Hall) as (Hin & Hn & Hfor).
  destruct (Math_max_spec data Hne Hall) as (Hin' & Hn' & Hfor').
  rewrite Forall_forall in *.
  unfold stats.range. apply sub_le_nonneg; auto.
  rewrite leb_rank by assumption. apply Z.leb_le. auto.
Qed.

Lemma stats_range_nonneg_witness : (0 <=? stats.range [3; 1; 2]) = true.
Proof.
  apply (stats_range_nonneg [3; 1; 2]).
  - discriminate.
  - repeat constructor.
Defined.

(** ** Samples of no value or of one value *)

Section SmallSamples.
Context {E : MathEngine}.

Lemma nth_repeat_zero (index bins : nat) : nth index (repeat 0%nat bins) 0%nat = 0%nat.
Proof.
  destruct (Nat.lt_ge_cases index bins) as [Hlt | Hge].
  - apply nth_repeat.
  - apply nth_overflow. rewrite repeat_length. exact Hge.
Qed.

(** X4.  On the empty sample nothing throws: the mean and the median are
    [NaN], the variance and the standard deviation are [-0], the minimum is
    [+Infinity], the maximum and the range are [-Infinity], there is no
    mode, and for every number of bins the histogram has that many bins,
    each with the count 0 and the frequency [NaN]. *)
Theorem stats_empty_sample :
  mean [] = nan /\ median [] = nan
  /\ variance [] = neg_zero /\ standardDeviation [] = neg_zero
  /\ stats.min [] = infinity /\ stats.max [] = neg_infinity
  /\ stats.range [] = neg_infinity
  /\ mode [] = []
  /\ (forall bins : nat,
        length (histogram [] bins) = bins
        /\ Forall (fun b => count b = 0%nat /\ frequency b = nan) (histogram [] bins)).
Proof.
  do 8 (split; [reflexivity | ]).
  intros bins. unfold histogram, binCounts_of. cbn [fold_left length]. split.
  - rewrite length_map, length_combine, length_map, !length_seq. apply Nat.min_id.
  - apply Forall_forall. intros b Hb. apply in_map_iff in Hb.
    destruct Hb as ([label index] & <- & _). cbn [count frequency].
    rewrite nth_repeat_zero. split; reflexivity.
Qed.

Lemma Math_pow_zero_2 (z : number) : is_zero z = true -> Math_pow z 2 = 0.
Proof.
  intros Hz. unfold Math_pow. rewrite Hz.
  assert (Hn : is_nan z = false).
  { unfold is_zero in Hz. rewrite eqb_spec in Hz. rewrite is_nan_SF.
    destruct (Prim2SF z); try reflexivity; discriminate. }
  assert (Hi : (z =? infinity) = false /\ (z =? neg_infinity) = false).
  { unfold is_zero in Hz. rewrite eqb_spec in *. rewrite !eqb_spec.
    destruct (Prim2SF z) as [[]|[]| |[] m e]; try discriminate; split; reflexivity. }
  destruct Hi as [-> ->]. rewrite Hn.
  change (is_nan 2) with false. change (is_zero 2) with false.
  change (0 <? 2) with true. change (is_odd_integral 2) with false.
  cbv iota. destruct (get_sign z); reflexivity.
Qed.

Lemma Math_pow_nan_2 : Math_pow nan 2 = nan.
Proof. reflexivity. Qed.

Lemma add_zero_l_cases (x : float) :
  (is_zero x = true /\ 0 + x = 0) \/ (is_zero x = false /\ 0 + x = x).
Proof.
  unfold is_zero. rewrite eqb_spec. change (Prim2SF 0) with (S754_zero false).
  destruct (Prim2SF x) as [[]|[]| |[] m e] eqn:Hx.
  1,2: left; split; [reflexivity | ];
       apply Prim2SF_inj; rewrite add_spec, Hx; reflexivity.
  all: right; split; [reflexivity | ];
       apply Prim2SF_inj; rewrite add_spec, Hx; reflexivity.
Qed.

Lemma sub_zero_of_zero (x : float) : is_zero x = true -> is_zero (x - 0) = true.
Proof.
  unfold is_zero. rewrite !eqb_spec, sub_spec. change (Prim2SF 0) with (S754_zero false).
  destruct (Prim2SF x) as [[]|[]| |[] m e]; try discriminate; reflexivity.
Qed.

Lemma sub_self_zero_or_nan (x : float) :
  is_zero (x - x) = true \/ x - x = nan.
Proof.
  destruct (is_finite x) eqn:Hf.
  - left. rewrite sub_diag by assumption. reflexivity.
  - right. apply Prim2SF_inj. rewrite sub_spec. rewrite is_finite_SF in Hf.
    change (Prim2SF nan) with S754_nan.
    destruct (Prim2SF x) as [[]|[]| |[] m e]; try discriminate; reflexivity.
Qed.

Lemma mean_singleton (x : number) : mean [x] = 0 + x.
Proof.
  unfold mean. cbn [fold_left length].
  change (num_of_nat 1) with 1. apply div_one.
Qed.

Lemma deviation_singleton (x : number) :
  is_zero (x - mean [x]) = true \/ x - mean [x] = nan.
Proof.
  rewrite mean_singleton.
  destruct (add_zero_l_cases x) as [[Hz ->] | [Hz ->]].
  - left. apply sub_zero_of_zero, Hz.
  - apply sub_self_zero_or_nan.
Qed.

Lemma variance_singleton (x : number) : variance [x] = nan.
Proof.
  unfold variance. cbn [fold_left length].
  change (num_of_Z (Z.of_nat 1 - 1)) with 0.
  destruct (deviation_singleton x) as [Hz | ->].
  - rewrite Math_pow_zero_2 by assumption. reflexivity.
  - rewrite Math_pow_nan_2. reflexivity.
Qed.

(** X5.  A sample of one value has no spread to estimate: whatever the
    value, its variance and standard deviation are [NaN] (a division of
    zero by zero), and with them the statistic of the one-sample t test and
    both bounds of the confidence interval for the mean; the mean is the
    value itself ([-0] read as [+0]). *)
Theorem single_value_sample (x : number) (j : JStat) (mu0 alpha cl : number) :
  mean [x] = 0 + x
  /\ variance [x] = nan /\ standardDeviation [x] = nan
  /\ (exists r, oneSampleTTest j [x] mu0 alpha = Return r
                /\ OneSampleTTest.tStatistic r = nan
                /\ OneSampleTTest.reject r = false)
  /\ ConfidenceInterval.lowerBound (confidenceIntervalMean [x] cl) = nan
  /\ ConfidenceInterval.upperBound (confidenceIntervalMean [x] cl) = nan.
Proof.
  assert (Hsd : standardDeviation [x] = nan).
  { unfold standardDeviation. rewrite variance_singleton. reflexivity. }
  split; [apply mean_singleton | ].
  split; [apply variance_singleton | ].
  split; [exact Hsd | ].
  split; [ | split].
  - unfold oneSampleTTest. rewrite Hsd.
    assert (Hc : ToBoolean (1 - ToNumber_member (studentt_cdf j)) = false)
      by (destruct (studentt_cdf j); reflexivity).
    rewrite Hc. eexists. split; [reflexivity | ].
    cbn [OneSampleTTest.tStatistic OneSampleTTest.reject length].
    rewrite div_nan_l, div_nan_r. split; reflexivity.
  - unfold confidenceIntervalMean. cbn [ConfidenceInterval.lowerBound].
    rewrite Hsd, div_nan_l, mul_nan_r. apply sub_nan_r.
  - unfold confidenceIntervalMean. cbn [ConfidenceInterval.upperBound].
    rewrite Hsd, div_nan_l, mul_nan_r. apply add_nan_r.
Qed.

End SmallSamples.

(** ** [stats.median] *)

Section SubSign.
Local Open Scope Z_scope.

Lemma SFsub_lt_neg (x y : spec_float) :
  valid_binary x = true -> valid_binary y = true ->
  SFfinite x = true -> SFfinite y = true ->
  SFscaled x < SFscaled y ->
  SFleb (SF64sub x y) (S754_finite true 1 (-1074)) = true.
Proof.
  intros Hvx Hvy Hfx Hfy Hs.
  destruct x as [sx | sx | | sx mx ex]; try discriminate;
    destruct y as [sy | sy | | sy my ey]; try discriminate.
  - pose proof (valid_finite_scaled_pos _ _ _ Hvy) as [Hy _].
    cbn [SFscaled] in Hs. destruct sy; cbn [cond_Zopp] in Hs; [lia | ].
    unfold SF64sub, SFsub. cbn [negb].
    apply SFleb_scaled; try reflexivity; [exact Hvy | ].
    cbn [SFscaled cond_Zopp]. change (scaled 1 (-1074)) with 1. lia.
  - pose proof (valid_finite_scaled_pos _ _ _ Hvx) as [Hx _].
    cbn [SFscaled] in Hs. destruct sx; cbn [cond_Zopp] in Hs; [ | lia].
    unfold SF64sub, SFsub.
    apply SFleb_scaled; try reflexivity; [exact Hvx | ].
    cbn [SFscaled cond_Zopp]. change (scaled 1 (-1074)) with 1. lia.
  - pose proof (valid_finite_scaled_pos _ _ _ Hvx) as [Hx Hex].
    pose proof (valid_finite_scaled_pos _ _ _ Hvy) as [Hy Hey].
    unfold SF64sub, SFsub.
    apply binary_normalize_le; try reflexivity; [lia | ].
    rewrite Z.mul_sub_distr_r, !cond_Zopp_mul, !shl_align_scaled by lia.
    cbn [SFscaled] in *. change (cond_Zopp true (scaled 1 (-1074))) with (-1). lia.
Qed.

End SubSign.

Lemma rank_finite (x : float) : is_finite x = true -> rank x = SFscaled (Prim2SF x).
Proof.
  rewrite is_finite_SF. unfold rank. destruct (Prim2SF x); try discriminate; reflexivity.
Qed.

Lemma sub_ltb_zero (a b : float) :
  is_finite a = true -> is_finite b = true -> (a - b <? 0) = (a <? b).
Proof.
  intros Ha Hb.
  pose proof (is_finite_not_nan _ Ha) as Hna. pose proof (is_finite_not_nan _ Hb) as Hnb.
  pose proof (sub_finite_not_nan a b Ha Hb) as Hn.
  rewrite (ltb_rank a b) by assumption.
  destruct (Z.ltb_spec (rank a) (rank b)) as [Hlt | Hge].
  - rewrite !rank_finite in Hlt by assumption.
    pose proof (SFsub_lt_neg _ _ (Prim2SF_valid a) (Prim2SF_valid b)
                  ltac:(rewrite <- is_finite_SFfinite; exact Ha)
                  ltac:(rewrite <- is_finite_SFfinite; exact Hb) Hlt) as Hle.
    rewrite <- sub_spec in Hle.
    unfold SFleb in Hle.
    rewrite SFcompare_rank in Hle
      by (apply Prim2SF_valid || (apply is_nan_false_SF; exact Hn) || reflexivity || discriminate).
    rewrite ltb_rank by (assumption || reflexivity).
    fold (rank (a - b)) in Hle. change (SFrank (S754_finite true 1 (-1074))) with (-1)%Z in Hle.
    change (rank 0) with 0%Z.
    destruct (Z.compare_spec (rank (a - b)) (-1)); try discriminate;
      apply Z.ltb_lt; lia.
  - assert (Hle : (b <=? a) = true) by (rewrite leb_rank by assumption; apply Z.leb_le; lia).
    pose proof (sub_le_nonneg a b Ha Hb Hle) as H0.
    apply leb_true_ltb_false, H0.
Qed.

Lemma sub_ltb_zero_numbers (a b : float) :
  is_nan a = false -> is_nan b = false -> (a - b <? 0) = (a <? b).
Proof.
  intros Hna Hnb.
  destruct (is_finite a) eqn:Ha; [destruct (is_finite b) eqn:Hb | ].
  - apply sub_ltb_zero; assumption.
  - rewrite is_finite_SF in Hb. rewrite is_nan_SF in Hna, Hnb.
    rewrite !ltb_spec, sub_spec. change (Prim2SF 0) with (S754_zero false).
    destruct (Prim2SF a) as [[]|[]| |[] ma ea], (Prim2SF b) as [[]|[]| |[] mb eb];
      try discriminate; reflexivity.
  - rewrite is_finite_SF in Ha. rewrite is_nan_SF in Hna, Hnb.
    rewrite !ltb_spec, sub_spec. change (Prim2SF 0) with (S754_zero false).
    destruct (Prim2SF a) as [[]|[]| |[] ma ea], (Prim2SF b) as [[]|[]| |[] mb eb];
      try discriminate; reflexivity.
Qed.

Lemma SortCompare_ltb_zero (f : number -> number -> number) (x y : number) :
  (SortCompare f x y <? 0) = (f x y <? 0).
Proof.
  unfold SortCompare. destruct (is_nan (f x y)) eqn:Hn; [ | reflexivity].
  rewrite (is_nan_true_eq _ Hn). reflexivity.
Qed.

Lemma sort_insert_perm f x l : Permutation (sort_insert f x l) (x :: l).
Proof.
  induction l as [ | y l IH]; cbn [sort_insert]; [reflexivity | ].
  destruct (SortCompare f x y <? 0); [reflexivity | ].
  rewrite IH. apply perm_swap.
Qed.

Lemma Array_sort_fold_perm f a : forall acc,
  Permutation (fold_left (fun sorted x => sort_insert f x sorted) a acc) (acc ++ a).
Proof.
  induction a as [ | x a IH]; intros acc; cbn [fold_left].
  - rewrite app_nil_r. reflexivity.
  - rewrite IH, sort_insert_perm. apply Permutation_middle.
Qed.

Lemma Array_sort_perm f a : Permutation (Array_sort f a) a.
Proof. unfold Array_sort. apply (Array_sort_fold_perm f a []). Qed.

Lemma Forall_perm (P : number -> Prop) l l' :
  Permutation l l' -> Forall P l -> Forall P l'.
Proof.
  intros HP HF. rewrite Forall_forall in *. intros x Hx. apply HF.
  apply (Permutation_in _ (Permutation_sym HP)). exact Hx.
Qed.

Lemma sort_insert_sorted x l :
  is_nan x = false -> Forall (fun v => is_nan v = false) l ->
  StronglySorted rank_le l ->
  StronglySorted rank_le (sort_insert (fun a b => a - b) x l).
Proof.
  intros Hx Hall Hs. induction Hs as [ | y l Hs IH Hy]; cbn [sort_insert].
  - repeat constructor.
  - inversion Hall as [ | ? ? Hny Hl]; subst.
    rewrite SortCompare_ltb_zero, sub_ltb_zero_numbers, ltb_rank by assumption.
    destruct (Z.ltb_spec (rank x) (rank y)) as [Hlt | Hge].
    + constructor; [constructor; assumption | ].
      constructor; [unfold rank_le; lia | ].
      rewrite Forall_forall in *. intros v Hv. specialize (Hy v Hv). unfold rank_le in *. lia.
    + constructor; [apply IH, Hl | ].
      apply (Forall_perm _ (x :: l)).
      * symmetry. apply sort_insert_perm.
      * constructor; [exact Hge | exact Hy].
Qed.

Lemma Array_sort_fold_sorted a : forall acc,
  Forall (fun v => is_nan v = false) a -> Forall (fun v => is_nan v = false) acc ->
  StronglySorted rank_le acc ->
  StronglySorted rank_le
    (fold_left (fun sorted x => sort_insert (fun a b => a - b) x sorted) a acc).
Proof.
  induction a as [ | x a IH]; intros acc Ha Hacc Hs; cbn [fold_left]; [exact Hs | ].
  inversion Ha as [ | ? ? Hx Ha']; subst.
  apply IH; [exact Ha' | | apply sort_insert_sorted; assumption].
  apply (Forall_perm _ (x :: acc)).
  - symmetry. apply sort_insert_perm.
  - constructor; assumption.
Qed.

Lemma Array_sort_sorted a :
  Forall (fun v => is_nan v = false) a ->
  StronglySorted rank_le (Array_sort (fun a b => a - b) a).
Proof.
  intros Ha. apply Array_sort_fold_sorted; [exact Ha | constructor | constructor].
Qed.

Lemma StronglySorted_middle l1 m l2 :
  StronglySorted rank_le (l1 ++ m :: l2) ->
  Forall (fun v => rank_le v m) l1 /\ Forall (fun v => rank_le m v) l2.
Proof.
  induction l1 as [ | x l1 IH]; cbn [app]; intros Hs; inversion Hs as [ | ? ? Hs' Hx]; subst.
  - split; [constructor | exact Hx].
  - destruct (IH Hs') as [H1 H2]. split; [ | exact H2].
    constructor; [ | exact H1].
    rewrite Forall_forall in Hx. apply Hx. apply in_or_app. right. left. reflexivity.
Qed.

Lemma filter_length_perm (f : number -> bool) l l' :
  Permutation l l' -> length (filter f l) = length (filter f l').
Proof.
  intros HP. induction HP as [ | x l l' HP IH | x y l | l l' l'' HP1 IH1 HP2 IH2];
    cbn [filter].
  - reflexivity.
  - destruct (f x); cbn [length]; congruence.
  - destruct (f x), (f y); reflexivity.
  - congruence.
Qed.

Lemma filter_length_all (f : number -> bool) l :
  Forall (fun v => f v = true) l -> length (filter f l) = length l.
Proof.
  induction 1 as [ | x l Hx Hl IH]; cbn [filter length]; [reflexivity | ].
  rewrite Hx. cbn [length]. congruence.
Qed.

Lemma filter_length_le (f : number -> bool) l : (length (filter f l) <= length l)%nat.
Proof.
  induction l as [ | x l IH]; cbn [filter length]; [lia | ].
  destruct (f x); cbn [length]; lia.
Qed.

(** X6.  The median of a sample of odd length that holds no [NaN] is a value
    of the sample, and more than half of the values are at most the median
    and more than half are at least the median. *)
Theorem median_odd_sample (data : list number) :
  Nat.odd (length data) = true -> Forall (fun v => is_nan v = false) data ->
  In (median data) data
  /\ (length data < 2 * length (filter (fun v => (v <=? median data)%float) data))%nat
  /\ (length data < 2 * length (filter (fun v => (median data <=? v)%float) data))%nat.
Proof.
  intros Hodd Hall.
  pose proof (Array_sort_perm (fun a b => a - b) data) as HP.
  pose proof (Array_sort_sorted data Hall) as Hs.
  pose proof (Permutation_length HP) as Hlen.
  unfold median. set (sorted := Array_sort (fun a b => a - b) data) in *.
  rewrite Hlen.
  assert (Hmod : (length data mod 2 = 1)%nat).
  { apply Nat.odd_spec in Hodd. destruct Hodd as [k Hk]. rewrite Hk.
    rewrite Nat.add_comm, Nat.mul_comm, Nat.Div0.mod_add. reflexivity. }
  rewrite Hmod. cbn [Nat.eqb].
  set (middle := (length data / 2)%nat).
  assert (Hmid : (length data = 2 * middle + 1)%nat).
  { unfold middle. pose proof (Nat.div_mod_eq (length data) 2). lia. }
  assert (Hlt : (middle < length sorted)%nat) by lia.
  destruct (@nth_split _ middle sorted nan Hlt) as (l1 & l2 & Hsplit & Hl1).
  unfold element. set (m := nth middle sorted nan) in *.
  assert (Hall' : Forall (fun v => is_nan v = false) sorted)
    by (apply (Forall_perm _ data); [symmetry; exact HP | exact Hall]).
  assert (Hm : is_nan m = false).
  { rewrite Forall_forall in Hall'. apply Hall'. rewrite Hsplit.
    apply in_or_app. right. left. reflexivity. }
  rewrite Hsplit in Hs. destruct (StronglySorted_middle _ _ _ Hs) as [H1 H2].
  assert (Hlen2 : (length l2 = middle)%nat).
  { rewrite Hsplit, length_app in Hlen. cbn [length] in Hlen. lia. }
  split; [ | split].
  - apply (Permutation_in (l := sorted)); [exact HP | ].
    rewrite Hsplit. apply in_or_app. right. left. reflexivity.
  - rewrite <- (filter_length_perm _ _ _ HP), Hsplit, filter_app, length_app.
    rewrite (filter_length_all _ l1).
    + cbn [filter]. rewrite (leb_rank m m), Z.leb_refl by assumption. cbn [length]. lia.
    + rewrite Hsplit in Hall'. apply Forall_app in Hall'. destruct Hall' as [Ha1 _].
      rewrite Forall_forall in *. intros v Hv.
      rewrite leb_rank by auto. apply Z.leb_le. apply H1, Hv.
  - rewrite <- (filter_length_perm _ _ _ HP), Hsplit, filter_app, length_app.
    cbn [filter]. rewrite (leb_rank m m), Z.leb_refl by assumption. cbn [length].
    rewrite (filter_length_all _ l2).
    + lia.
    + rewrite Hsplit in Hall'. apply Forall_app in Hall'. destruct Hall' as [_ Ha2].
      inversion Ha2 as [ | ? ? _ Ha2']; subst.
      rewrite Forall_forall in *. intros v Hv.
      rewrite leb_rank by auto. apply Z.leb_le. apply H2, Hv.
Qed.

Lemma median_odd_sample_witness :
  In (median [5; 1; 3]) [5; 1; 3]
  /\ (length [5; 1; 3]%float < 2 * length (filter (fun v => (v <=? median [5; 1; 3])%float) [5; 1; 3]%float))%nat
  /\ (length [5; 1; 3]%float < 2 * length (filter (fun v => (median [5; 1; 3] <=? v)%float) [5; 1; 3]%float))%nat.
Proof.
  apply (median_odd_sample [5; 1; 3]).
  - reflexivity.
  - repeat constructor.
Defined.

(** ** [stats.linearRegression] *)

(** X7.  The coefficient of determination returned by [linearRegression] is
    a square: it is never negative. *)
Theorem linearRegression_rSquared_not_negative (xData yData : list number) :
  (LinearRegression.rSquared (linearRegression xData yData) <? 0) = false.
Proof. apply mul_self_not_negative. Qed.

Lemma fold_sumXY_nan (yData : list number) (l : list (number * nat)) :
  fold_left (fun sum x_i => sum + fst x_i * element yData (snd x_i)) l nan = nan.
Proof.
  induction l as [ | p l IH]; cbn [fold_left]; [reflexivity | ].
  rewrite add_nan_l. exact IH.
Qed.

Lemma fold_sumXY_past_end (yData : list number) (l : list (number * nat)) : forall acc,
  Exists (fun p => (length yData <= snd p)%nat) l ->
  fold_left (fun sum x_i => sum + fst x_i * element yData (snd x_i)) l acc = nan.
Proof.
  induction l as [ | p l IH]; intros acc Hex; [inversion Hex | ].
  apply Exists_cons in Hex. destruct Hex as [Hp | Hl]; cbn [fold_left].
  - destruct p as [x i]. cbn [fst snd] in *.
    assert (Hel : element yData i = nan) by (apply nth_overflow; assumption).
    rewrite Hel, mul_nan_r, add_nan_r. apply fold_sumXY_nan.
  - apply IH. assumption.
Qed.

Lemma In_combine_seq (xData : list number) (i : nat) :
  (i < length xData)%nat -> In (nth i xData 0, i) (combine xData (seq 0 (length xData))).
Proof.
  intros Hi.
  assert (Hn : nth i (combine xData (seq 0 (length xData))) (0, 0%nat) = (nth i xData 0, i)).
  { rewrite combine_nth by (rewrite length_seq; reflexivity).
    rewrite seq_nth by exact Hi. reflexivity. }
  rewrite <- Hn. apply nth_In. rewrite length_combine, length_seq. lia.
Qed.

Lemma sumXY_of_short (xData yData : list number) :
  (length yData < length xData)%nat -> sumXY_of xData yData = nan.
Proof.
  intros Hlt. unfold sumXY_of. apply fold_sumXY_past_end.
  apply Exists_exists.
  exists (nth (length yData) xData 0, length yData). split; [ | cbn [snd]; lia].
  apply In_combine_seq, Hlt.
Qed.

(** X8.  [linearRegression] does not compare the lengths of its samples.
    When [yData] is shorter than [xData], the missing values are read as
    [undefined]: the slope, the intercept, the correlation and the
    coefficient of determination are all [NaN]. *)
Theorem linearRegression_short_yData (xData yData : list number) :
  (length yData < length xData)%nat ->
  let r := linearRegression xData yData in
  LinearRegression.slope r = nan /\ LinearRegression.intercept r = nan
  /\ LinearRegression.correlation r = nan /\ LinearRegression.rSquared r = nan.
Proof.
  intros Hlt. unfold linearRegression.
  cbn [LinearRegression.slope LinearRegression.intercept LinearRegression.correlation
       LinearRegression.rSquared].
  rewrite (sumXY_of_short _ _ Hlt).
  rewrite !mul_nan_r, !sub_nan_l, !div_nan_l, !mul_nan_l, !sub_nan_r, !div_nan_l.
  repeat split.
Qed.

Lemma linearRegression_short_yData_witness :
  LinearRegression.slope (linearRegression [1; 2; 3] [2; 4]) = nan
  /\ LinearRegression.intercept (linearRegression [1; 2; 3] [2; 4]) = nan
  /\ LinearRegression.correlation (linearRegression [1; 2; 3] [2; 4]) = nan
  /\ LinearRegression.rSquared (linearRegression [1; 2; 3] [2; 4]) = nan.
Proof. apply (linearRegression_short_yData [1; 2; 3] [2; 4]). cbn. lia. Defined.

Lemma fold_indexed_combine (xData : list number) : forall (yData pre : list number) acc,
  length xData = length yData ->
  fold_left (fun sum x_i => sum + fst x_i * element (pre ++ yData) (snd x_i))
            (combine xData (seq (length pre) (length xData))) acc
  = fold_left (fun sum p => sum + fst p * snd p) (combine xData yData) acc.
Proof.
  induction xData as [ | x xData IH]; intros yData pre acc Hlen; [reflexivity | ].
  destruct yData as [ | y yData]; [discriminate | ].
  cbn [length seq combine fold_left]. cbv beta. cbn [fst snd].
  assert (Hel : element (pre ++ y :: yData) (length pre) = y)
    by (unfold element; apply nth_middle).
  rewrite Hel.
  specialize (IH yData (pre ++ [y]) (acc + x * y) ltac:(cbn in Hlen; lia)).
  rewrite length_app, Nat.add_comm in IH. cbn [length Nat.add] in IH.
  rewrite <- app_assoc in IH. exact IH.
Qed.

Lemma sumXY_of_combine (xData yData : list number) :
  length xData = length yData ->
  sumXY_of xData yData
  = fold_left (fun sum p => sum + fst p * snd p) (combine xData yData) 0.
Proof. intros Hlen. apply (fold_indexed_combine xData yData [] 0 Hlen). Qed.

Lemma fold_products_swap (xData : list number) : forall (yData : list number) acc,
  fold_left (fun sum p => sum + fst p * snd p) (combine xData yData) acc
  = fold_left (fun sum p => sum + fst p * snd p) (combine yData xData) acc.
Proof.
  induction xData as [ | x xData IH]; intros [ | y yData] acc; try reflexivity.
  cbn [combine fold_left fst snd]. rewrite (mul_comm x y). apply IH.
Qed.

Lemma sumXY_of_swap (xData yData : list number) :
  length xData = length yData -> sumXY_of xData yData = sumXY_of yData xData.
Proof.
  intros Hlen. rewrite !sumXY_of_combine by congruence. apply fold_products_swap.
Qed.

(** X9.  On samples of equal length the correlation and the coefficient of
    determination do not depend on which sample is given as [xData] and
    which as [yData]. *)
Theorem linearRegression_correlation_symmetric (xData yData : list number) :
  length xData = length yData ->
  LinearRegression.correlation (linearRegression xData yData)
  = LinearRegression.correlation (linearRegression yData xData)
  /\ LinearRegression.rSquared (linearRegression xData yData)
     = LinearRegression.rSquared (linearRegression yData xData).
Proof.
  intros Hlen.
  assert (Hc : LinearRegression.correlation (linearRegression xData yData)
               = LinearRegression.correlation (linearRegression yData xData)).
  { unfold linearRegression. cbn [LinearRegression.correlation].
    rewrite (sumXY_of_swap xData yData Hlen), Hlen.
    set (n := num_of_nat (length yData)).
    set (sX := fold_left (fun a b => a + b) xData 0).
    set (sY := fold_left (fun a b => a + b) yData 0).
    rewrite (mul_comm sX sY).
    rewrite (mul_comm (n * fold_left (fun sum x => sum + x * x) xData 0 - sX * sX)).
    reflexivity. }
  split; [exact Hc | ].
  unfold linearRegression in *.
  cbn [LinearRegression.correlation LinearRegression.rSquared] in *.
  rewrite Hc. reflexivity.
Qed.

Lemma linearRegression_correlation_symmetric_witness :
  LinearRegression.correlation (linearRegression [1; 2; 4] [2; 3; 7])
  = LinearRegression.correlation (linearRegression [2; 3; 7] [1; 2; 4])
  /\ LinearRegression.rSquared (linearRegression [1; 2; 4] [2; 3; 7])
     = LinearRegression.rSquared (linearRegression [2; 3; 7] [1; 2; 4]).
Proof. apply (linearRegression_correlation_symmetric [1; 2; 4] [2; 3; 7]). reflexivity. Defined.

Section MoreTests.
Context {E : MathEngine}.

(** ** [hypothesisTests.zTest] *)

(** X10.  [zTest] accepts a negative [sigma]: the statistic changes sign and
    the p-value and the decision are those of [|sigma|]. *)
Theorem zTest_sigma_sign (data : list number) (mu0 sigma alpha : number) :
  let r := zTest data mu0 sigma alpha in
  let r' := zTest data mu0 (- sigma) alpha in
  ZTest.zStatistic r' = - ZTest.zStatistic r
  /\ ZTest.pValue r' = ZTest.pValue r
  /\ ZTest.reject r' = ZTest.reject r.
Proof.
  unfold zTest. cbn [ZTest.zStatistic ZTest.pValue ZTest.reject].
  rewrite div_opp_l, div_opp_r. unfold Math_abs. rewrite abs_opp.
  repeat split.
Qed.

(** ** [chiSquareGoodnessOfFit] on a perfect fit *)

Lemma combine_same (A : Type) (l : list A) (o e : A) : In (o, e) (combine l l) -> o = e.
Proof.
  induction l as [ | a l IH]; cbn [combine]; [intros [] | ].
  intros [Heq | Hin]; [injection Heq as <- <-; reflexivity | apply IH, Hin].
Qed.

Lemma perfect_fit_terms (l : list (number * number)) :
  Forall (fun oe => fst oe = snd oe /\ is_finite (snd oe) = true /\ gt (snd oe) 0 = true) l ->
  fold_left (fun chiSquare oe => chiSquare + Math_pow (fst oe - snd oe) 2 / snd oe) l 0 = 0.
Proof.
  induction 1 as [ | [o e] l (Ho & He & Hpos) _ IH]; cbn [fold_left]; [reflexivity | ].
  cbn [fst snd] in *. subst o.
  rewrite sub_diag by exact He. rewrite Math_pow_zero_2 by reflexivity.
  rewrite zero_div_pos by exact Hpos. exact IH.
Qed.

(** X12.  A perfect fit is never rejected: when the observed counts are
    the expected counts (finite numbers), every category contributes
    [(E - E)^2 / E = 0] or is skipped, so the statistic is exactly 0 and
    [reject] is false, whatever [alpha] is. *)
Theorem chiSquareGoodnessOfFit_perfect_fit (counts : list number) (alpha : number) :
  Forall (fun v => is_finite v = true) counts ->
  exists r, chiSquareGoodnessOfFit counts counts alpha = Return r
            /\ ChiSquare.chiSquareStatistic r = 0
            /\ ChiSquare.reject r = false.
Proof.
  intros Hfin. unfold chiSquareGoodnessOfFit. rewrite Nat.eqb_refl. cbn [negb].
  eexists. split; [reflexivity | ].
  cbn [ChiSquare.chiSquareStatistic ChiSquare.reject].
  assert (Hs : chiSquare_loop counts counts = 0).
  { rewrite (chiSquare_loop_guarded counts counts eq_refl).
    apply perfect_fit_terms. apply Forall_forall. intros [o e] Hin.
    unfold positive_categories in Hin. apply filter_In in Hin. destruct Hin as [Hin Hgt].
    cbn [fst snd] in *. split; [apply (combine_same _ counts), Hin | ].
    split; [ | exact Hgt].
    rewrite Forall_forall in Hfin. apply Hfin. eapply in_combine_r. exact Hin. }
  rewrite Hs. split; reflexivity.
Qed.

(** ** [oneWayANOVA] on one group *)

Lemma mul_proper_zero (a : float) : SFproper false (Prim2SF a) = true -> a * 0 = 0.
Proof.
  intros Ha. apply Prim2SF_inj. rewrite mul_spec. change (Prim2SF 0) with (S754_zero false).
  destruct (Prim2SF a) as [[]|[]| |[] m e]; try discriminate. reflexivity.
Qed.

(** X13.  With a single group there is no variation between groups: for
    every group with a finite mean the between-groups mean square is zero
    divided by zero, so [fStatistic] is [NaN], the test never rejects and
    the p-value is 0.1. *)
Theorem oneWayANOVA_single_group (group : list number) (alpha : number) :
  is_finite (mean group) = true -> (Z.of_nat (length group) < 2 ^ 32)%Z ->
  let r := oneWayANOVA [group] alpha in
  ANOVA.dfBetween r = 0%Z
  /\ ANOVA.sumOfSquaresBetween r = 0
  /\ ANOVA.fStatistic r = nan
  /\ ANOVA.reject r = false /\ ANOVA.pValue r = 0.1.
Proof.
  intros Hfin Hlen.
  assert (Hne : (1 <= length group)%nat).
  { destruct group; [discriminate Hfin | cbn; lia]. }
  assert (Hssb : ANOVA.sumOfSquaresBetween (oneWayANOVA [group] alpha) = 0).
  { unfold oneWayANOVA. cbn [ANOVA.sumOfSquaresBetween concat fold_left].
    rewrite app_nil_r, sub_diag by exact Hfin.
    rewrite Math_pow_zero_2 by reflexivity.
    rewrite mul_proper_zero by (apply num_of_nat_proper; lia). reflexivity. }
  assert (Hf : ANOVA.fStatistic (oneWayANOVA [group] alpha) = nan).
  { unfold oneWayANOVA in *. cbn [ANOVA.fStatistic ANOVA.sumOfSquaresBetween length] in *.
    rewrite Hssb. change (num_of_Z (Z.of_nat 1 - 1)) with 0.
    change (0 / 0) with nan. apply div_nan_l. }
  cbv zeta. split; [reflexivity | ]. split; [exact Hssb | ]. split; [exact Hf | ].
  unfold oneWayANOVA in *. cbn [ANOVA.fStatistic ANOVA.reject ANOVA.pValue] in *.
  rewrite Hf. split; reflexivity.
Qed.

End MoreTests.

(** ** [chiSquareIndependence] *)

Lemma is_zero_SF (x : float) :
  is_zero x = match Prim2SF x with S754_zero _ => true | _ => false end.
Proof.
  unfold is_zero. rewrite eqb_spec. change (Prim2SF 0) with (S754_zero false).
  destruct (Prim2SF x) as [[]|[]| |[] m e]; reflexivity.
Qed.

Lemma add_zero_zero (a b : float) :
  is_zero a = true -> is_zero b = true -> is_zero (a + b) = true.
Proof.
  rewrite !is_zero_SF, add_spec.
  destruct (Prim2SF a) as [[]|[]| |[] ma ea]; try discriminate;
    destruct (Prim2SF b) as [[]|[]| |[] mb eb]; try discriminate; reflexivity.
Qed.

Lemma sub_zero_zero (a b : float) :
  is_zero a = true -> is_zero b = true -> is_zero (a - b) = true.
Proof.
  rewrite !is_zero_SF, sub_spec.
  destruct (Prim2SF a) as [[]|[]| |[] ma ea]; try discriminate;
    destruct (Prim2SF b) as [[]|[]| |[] mb eb]; try discriminate; reflexivity.
Qed.

Lemma zero_mul_cases (a b : float) :
  is_zero a = true -> is_zero (a * b) = true \/ a * b = nan.
Proof.
  rewrite !is_zero_SF. intros Ha.
  destruct (Prim2SF a) as [sa | | | ] eqn:Hsa; try discriminate.
  destruct (Prim2SF b) as [sb | sb | | sb mb eb] eqn:Hsb.
  - left. rewrite mul_spec, Hsa, Hsb. reflexivity.
  - right. apply Prim2SF_inj. rewrite mul_spec, Hsa, Hsb. reflexivity.
  - right. apply Prim2SF_inj. rewrite mul_spec, Hsa, Hsb. reflexivity.
  - left. rewrite mul_spec, Hsa, Hsb. reflexivity.
Qed.

Lemma zero_div_cases (a b : float) :
  is_zero a = true -> is_zero (a / b) = true \/ a / b = nan.
Proof.
  rewrite !is_zero_SF. intros Ha.
  destruct (Prim2SF a) as [sa | | | ] eqn:Hsa; try discriminate.
  destruct (Prim2SF b) as [sb | sb | | sb mb eb] eqn:Hsb.
  - right. apply Prim2SF_inj. rewrite div_spec, Hsa, Hsb. reflexivity.
  - left. rewrite div_spec, Hsa, Hsb. reflexivity.
  - right. apply Prim2SF_inj. rewrite div_spec, Hsa, Hsb. reflexivity.
  - left. rewrite div_spec, Hsa, Hsb. reflexivity.
Qed.

Lemma zero_div_zero (a b : float) :
  is_zero a = true -> is_zero b = true -> a / b = nan.
Proof.
  rewrite !is_zero_SF. intros Ha Hb. apply Prim2SF_inj. rewrite div_spec.
  destruct (Prim2SF a) as [sa | | | ]; try discriminate;
    destruct (Prim2SF b) as [sb | | | ]; try discriminate; reflexivity.
Qed.

Lemma fold_add_zeros (l : list number) : forall acc,
  is_zero acc = true -> Forall (fun v => is_zero v = true) l ->
  is_zero (fold_left (fun a b => a + b) l acc) = true.
Proof.
  induction l as [ | x l IH]; intros acc Hacc Hall; cbn [fold_left]; [exact Hacc | ].
  inversion Hall; subst. apply IH; [apply add_zero_zero; assumption | assumption].
Qed.

Section Independence.
Context {E : MathEngine}.

(** The contribution of one cell to the statistic. *)
Lemma cell_of_zero_row (o e : number) :
  (is_zero o = true \/ o = nan) -> (is_zero e = true \/ e = nan) ->
  Math_pow (o - e) 2 / e = nan.
Proof.
  intros Ho [He | ->]; [ | apply div_nan_r].
  destruct Ho as [Ho | ->].
  - rewrite Math_pow_zero_2 by (apply sub_zero_zero; assumption).
    apply zero_div_zero; [reflexivity | exact He].
  - rewrite sub_nan_l, Math_pow_nan_2. apply div_nan_l.
Qed.

Lemma fold_left_nan (A : Type) (f : number -> A -> number) (l : list A) :
  (forall j, f nan j = nan) -> fold_left f l nan = nan.
Proof.
  intros Hf. induction l as [ | j l IH]; cbn [fold_left]; [reflexivity | ].
  rewrite Hf. exact IH.
Qed.

Lemma zero_row_total (observedMatrix : list (list number)) (i : nat) :
  (i < length observedMatrix)%nat ->
  Forall (fun v => is_zero v = true) (nth i observedMatrix []) ->
  is_zero (element (rowTotals_of observedMatrix) i) = true.
Proof.
  intros Hi Hz. unfold element, rowTotals_of.
  rewrite (nth_indep _ nan (fold_left (fun a b => a + b) [] 0))
    by (rewrite length_map; exact Hi).
  rewrite (map_nth (fun row => fold_left (fun a b => a + b) row 0)).
  apply fold_add_zeros; [reflexivity | exact Hz].
Qed.

Lemma zero_row_cell (row : list number) (j : nat) :
  Forall (fun v => is_zero v = true) row ->
  is_zero (element row j) = true \/ element row j = nan.
Proof.
  intros Hz. unfold element. destruct (Nat.lt_ge_cases j (length row)) as [Hj | Hj].
  - left. rewrite Forall_forall in Hz. apply Hz, nth_In, Hj.
  - right. apply nth_overflow, Hj.
Qed.

Lemma fold_add_nan_in (A : Type) (g : A -> number) (l : list A) (x : A) : forall acc,
  In x l -> g x = nan -> fold_left (fun sum row => sum + g row) l acc = nan.
Proof.
  induction l as [ | y l IH]; intros acc Hin Hx; [destruct Hin | ].
  cbn [fold_left]. destruct Hin as [-> | Hin].
  - rewrite Hx, add_nan_r. apply fold_left_nan. intros. apply add_nan_l.
  - apply IH; assumption.
Qed.

(** The total of a column that some row does not reach. *)
Lemma short_row_colTotal (observedMatrix : list (list number)) (cols i j : nat) :
  (i < length observedMatrix)%nat -> (j < cols)%nat ->
  (length (nth i observedMatrix []) <= j)%nat ->
  element (colTotals_of observedMatrix cols) j = nan.
Proof.
  intros Hi Hj Hshort. unfold element, colTotals_of.
  rewrite (nth_indep _ nan
             ((fun j => fold_left (fun sum row => sum + element row j) observedMatrix 0) 0%nat))
    by (rewrite length_map, length_seq; exact Hj).
  rewrite (map_nth (fun j => fold_left (fun sum row => sum + element row j) observedMatrix 0)).
  rewrite seq_nth by exact Hj. cbn [Nat.add].
  apply (fold_add_nan_in _ (fun row => element row j) observedMatrix (nth i observedMatrix [])).
  - apply nth_In, Hi.
  - apply nth_overflow, Hshort.
Qed.

(** The cells of one row of the matrix, when the expected count of column
    [j] is [NaN]. *)
Lemma row_with_nan_column (f : nat -> number) (e : nat -> number) (cols j : nat) (acc : number) :
  (j < cols)%nat -> e j = nan ->
  fold_left (fun chiSquare j => chiSquare + Math_pow (f j - e j) 2 / e j) (seq 0 cols) acc = nan.
Proof.
  intros Hj He.
  replace cols with (j + S (cols - S j))%nat by lia.
  rewrite seq_app, fold_left_app. cbn [seq fold_left Nat.add].
  rewrite He, div_nan_r, add_nan_r.
  apply fold_left_nan. intros. apply add_nan_l.
Qed.

(** X14.  The rows are not checked to be of one length.  When some row is
    shorter than the first one, the cells it lacks are read as [undefined]:
    the total of every column it does not reach is [NaN], so is the
    expected count of every cell of such a column, the statistic is [NaN]
    whatever the other cells hold, and the test does not reject. *)
Theorem chiSquareIndependence_short_row (observedMatrix : list (list number))
    (alpha : number) (i : nat) :
  (i < length observedMatrix)%nat ->
  (length (nth i observedMatrix []) < length (nth 0 observedMatrix []))%nat ->
  exists r, chiSquareIndependence observedMatrix alpha = Return r
    /\ ChiSquareIndependence.chiSquareStatistic r = nan
    /\ ChiSquareIndependence.reject r = false
    /\ ChiSquareIndependence.pValue r = 0.1
    /\ Forall (fun row => forall j,
                  (length (nth i observedMatrix []) <= j < length (nth 0 observedMatrix []))%nat ->
                  element row j = nan)
              (ChiSquareIndependence.expectedMatrix r).
Proof.
  intros Hi Hshort.
  destruct observedMatrix as [ | row0 rest]; [cbn in Hi; lia | ].
  unfold chiSquareIndependence.
  set (observedMatrix := row0 :: rest) in *.
  assert (HM : observedMatrix = row0 :: rest) by reflexivity.
  eexists. split; [reflexivity | ].
  cbn [ChiSquareIndependence.chiSquareStatistic ChiSquareIndependence.reject
       ChiSquareIndependence.pValue ChiSquareIndependence.expectedMatrix].
  set (rowTotals := rowTotals_of observedMatrix).
  set (cols := length row0).
  set (colTotals := colTotals_of observedMatrix cols).
  set (grandTotal := fold_left (fun a b => a + b) rowTotals 0).
  set (short := length (nth i observedMatrix [])) in *.
  assert (Hc : (short < cols)%nat) by (unfold cols; rewrite HM in Hshort; exact Hshort).
  assert (He : forall i' j, (short <= j < cols)%nat ->
                 expected_of rowTotals colTotals grandTotal i' j = nan).
  { intros i' j Hj. unfold expected_of, colTotals.
    rewrite (short_row_colTotal observedMatrix cols i j Hi) by (fold short; lia).
    rewrite mul_nan_r. apply div_nan_l. }
  match goal with |- ?s = nan /\ _ => assert (Hs : s = nan) end.
  { rewrite HM at 1. cbn [length seq fold_left]. cbv zeta.
    rewrite (row_with_nan_column _ (expected_of rowTotals colTotals grandTotal 0) cols short)
      by (try exact Hc; apply He; lia).
    apply fold_left_nan. intros i'.
    apply (row_with_nan_column _ (expected_of rowTotals colTotals grandTotal i') cols short);
      [exact Hc | apply He; lia]. }
  rewrite Hs. split; [reflexivity | ]. split; [reflexivity | ]. split; [reflexivity | ].
  apply Forall_forall. intros row Hrow. apply in_map_iff in Hrow.
  destruct Hrow as (i' & <- & _). intros j Hj. change (short <= j < cols)%nat in Hj.
  unfold element.
  rewrite (nth_indep _ nan (expected_of rowTotals colTotals grandTotal i' 0))
    by (rewrite length_map, length_seq; lia).
  rewrite (map_nth (expected_of rowTotals colTotals grandTotal i')).
  rewrite seq_nth by lia. cbn [Nat.add]. apply He. exact Hj.
Qed.

(** X15.  The expected counts are not guarded against zero, unlike in
    [chiSquareGoodnessOfFit]: when some row of the matrix holds only zeros
    (a category that was never observed), the statistic is [NaN] whatever
    the other rows hold, and the test does not reject. *)
Theorem chiSquareIndependence_zero_row (observedMatrix : list (list number))
    (alpha : number) (i : nat) :
  (i < length observedMatrix)%nat ->
  (1 <= length (nth 0 observedMatrix []))%nat ->
  Forall (fun v => is_zero v = true) (nth i observedMatrix []) ->
  exists r, chiSquareIndependence observedMatrix alpha = Return r
    /\ ChiSquareIndependence.chiSquareStatistic r = nan
    /\ ChiSquareIndependence.reject r = false
    /\ ChiSquareIndependence.pValue r = 0.1.
Proof.
  intros Hi Hcols Hz.
  destruct observedMatrix as [ | row0 rest]; [cbn in Hi; lia | ].
  unfold chiSquareIndependence.
  set (observedMatrix := row0 :: rest) in *.
  assert (HM : observedMatrix = row0 :: rest) by reflexivity.
  eexists. split; [reflexivity | ].
  cbn [ChiSquareIndependence.chiSquareStatistic ChiSquareIndependence.reject
       ChiSquareIndependence.pValue].
  set (rowTotals := rowTotals_of observedMatrix).
  set (cols := length row0).
  set (colTotals := colTotals_of observedMatrix cols).
  set (grandTotal := fold_left (fun a b => a + b) rowTotals 0).
  assert (Hc : (1 <= cols)%nat) by (unfold cols; rewrite HM in Hcols; exact Hcols).
  match goal with |- ?s = nan /\ _ => assert (Hs : s = nan) end.
  { assert (Hseq : seq 0 (length observedMatrix)
                   = seq 0 i ++ i :: seq (S i) (length observedMatrix - S i)).
    { replace (length observedMatrix) with (i + S (length observedMatrix - S i))%nat at 1 by lia.
      rewrite seq_app. reflexivity. }
    rewrite Hseq, fold_left_app. cbn [fold_left].
    destruct cols as [ | cols']; [lia | ]. cbn [seq fold_left].
    cbv zeta.
    rewrite cell_of_zero_row.
    - rewrite add_nan_r, fold_left_nan by (intros; apply add_nan_l).
      apply fold_left_nan. intros. rewrite add_nan_l.
      apply fold_left_nan. intros. apply add_nan_l.
    - apply zero_row_cell, Hz.
    - unfold expected_of.
      pose proof (zero_row_total observedMatrix i Hi Hz) as Hrt. fold rowTotals in Hrt.
      destruct (zero_mul_cases _ (element colTotals 0) Hrt) as [Hm | ->];
        [ | right; apply div_nan_l].
      destruct (zero_div_cases _ grandTotal Hm) as [Hd | Hd]; [left | right]; exact Hd. }
  rewrite Hs. repeat split.
Qed.

End Independence.

(** ** [confidenceIntervalProportion] *)

Lemma SFmul_nonneg_finite (x y : spec_float) :
  SFnonneg x = true -> SFnonneg y = true -> SFfinite x = true -> SFfinite y = true ->
  SFnonneg (SF64mul x y) = true.
Proof.
  intros Hx Hy Hfx Hfy.
  destruct x as [sx | sx | | sx mx ex]; try discriminate;
    destruct y as [sy | sy | | sy my ey]; try discriminate; try reflexivity.
  destruct sx, sy; try discriminate.
  unfold SF64mul, SFmul. cbn [xorb].
  pose proof (binary_round_aux_signed false (Zpos (mx * my)) (ex + ey) loc_Exact ltac:(lia)) as Hs.
  destruct (binary_round_aux prec emax false (Zpos (mx * my)) (ex + ey) loc_Exact)
    as [s | s | | s m e]; cbn [SFsigned] in Hs; try discriminate; try reflexivity;
    destruct s; try discriminate; reflexivity.
Qed.

Lemma mul_nonneg_finite (a b : float) :
  (0 <=? a) = true -> (0 <=? b) = true -> is_finite a = true -> is_finite b = true ->
  (0 <=? a * b) = true.
Proof.
  rewrite !leb_zero_SF, !is_finite_SFfinite, mul_spec. apply SFmul_nonneg_finite.
Qed.

Lemma leb_finite_between (a x b : float) :
  is_finite a = true -> is_finite b = true ->
  (a <=? x) = true -> (x <=? b) = true -> is_finite x = true.
Proof.
  intros Ha Hb Hax Hxb.
  destruct (leb_true_not_nan _ _ Hax) as [Hna Hnx].
  destruct (leb_true_not_nan _ _ Hxb) as [_ Hnb].
  rewrite leb_rank in Hax, Hxb by assumption.
  apply Z.leb_le in Hax, Hxb.
  rewrite is_finite_SF in *. rewrite is_nan_SF in Hnx. unfold rank in *.
  pose proof (Prim2SF_valid a) as Hva. pose proof (Prim2SF_valid b) as Hvb.
  destruct (Prim2SF x) as [sx | sx | | sx mx ex]; try reflexivity; try discriminate.
  assert (HP : (0 < 2 ^ 2098)%Z) by (apply pow2_pos; lia).
  destruct (Prim2SF a) as [sa | sa | | sa ma ea]; try discriminate;
    destruct (Prim2SF b) as [sb | sb | | sb mb eb]; try discriminate;
    cbn [SFrank SFscaled] in *;
    try (pose proof (valid_finite_scaled_pos _ _ _ Hva) as [Hpa _];
         cbn [SpecFloat.valid_binary] in Hva; apply bounded_scaled_max in Hva);
    try (pose proof (valid_finite_scaled_pos _ _ _ Hvb) as [Hpb _];
         cbn [SpecFloat.valid_binary] in Hvb; apply bounded_scaled_max in Hvb);
    destruct sx; cbn [cond_Zopp] in *;
    try (destruct sa; cbn [cond_Zopp] in * ); try (destruct sb; cbn [cond_Zopp] in * ); lia.
Qed.

Lemma pos_finite_proper (a : float) :
  (0 <? a) = true -> is_finite a = true -> SFproper false (Prim2SF a) = true.
Proof.
  rewrite ltb_spec, is_finite_SF. change (Prim2SF 0) with (S754_zero false).
  destruct (Prim2SF a) as [[]|[]| |[] m e]; try discriminate; reflexivity.
Qed.

Lemma Math_max_pair (a b : number) : Math_max [a; b] = Math_max2 (Math_max2 neg_infinity a) b.
Proof. reflexivity. Qed.

Lemma Math_min_pair (a b : number) : Math_min [a; b] = Math_min2 (Math_min2 infinity a) b.
Proof. reflexivity. Qed.

(** X16.  Whatever the arguments, the bounds [confidenceIntervalProportion]
    reports are clamped: the lower bound is never below 0 and the upper
    bound never above 1 (each is [NaN] when the unclamped bound is). *)
Theorem confidenceIntervalProportion_clamped (successes sampleSize confidenceLevel : number) :
  let r := confidenceIntervalProportion successes sampleSize confidenceLevel in
  (ProportionInterval.lowerBound r <? 0) = false
  /\ (1 <? ProportionInterval.upperBound r) = false.
Proof.
  unfold confidenceIntervalProportion.
  cbn [ProportionInterval.lowerBound ProportionInterval.upperBound].
  set (lo := successes / sampleSize - _). set (hi := successes / sampleSize + _).
  rewrite Math_max_pair, Math_min_pair.
  change (Math_max2 neg_infinity 0) with 0. change (Math_min2 infinity 1) with 1.
  split.
  - destruct (is_nan lo) eqn:Hlo.
    + rewrite (is_nan_true_eq _ Hlo). reflexivity.
    + destruct (Math_max2_spec 0 lo eq_refl Hlo) as [Hsel Hrank].
      rewrite ltb_rank; [ | destruct Hsel as [-> | ->]; [reflexivity | exact Hlo] | reflexivity].
      rewrite Hrank. change (rank 0) with 0%Z. apply Z.ltb_ge. lia.
  - destruct (is_nan hi) eqn:Hhi.
    + rewrite (is_nan_true_eq _ Hhi). reflexivity.
    + destruct (Math_min2_spec 1 hi eq_refl Hhi) as [Hsel Hrank].
      rewrite ltb_rank; [ | reflexivity | destruct Hsel as [-> | ->]; [reflexivity | exact Hhi]].
      rewrite Hrank. apply Z.ltb_ge. lia.
Qed.

(** X17.  When the sample size is a positive finite number and the computed
    proportion lies between 0 and 1, the reported bounds are numbers with
    [0 <= lowerBound <= proportion <= upperBound <= 1]. *)
Theorem confidenceIntervalProportion_bounds (successes sampleSize confidenceLevel : number) :
  (0 <? sampleSize) = true -> is_finite sampleSize = true ->
  (0 <=? successes / sampleSize) = true -> (successes / sampleSize <=? 1) = true ->
  let r := confidenceIntervalProportion successes sampleSize confidenceLevel in
  (0 <=? ProportionInterval.lowerBound r) = true
  /\ (ProportionInterval.lowerBound r <=? ProportionInterval.proportion r) = true
  /\ (ProportionInterval.proportion r <=? ProportionInterval.upperBound r) = true
  /\ (ProportionInterval.upperBound r <=? 1) = true.
Proof.
  intros Hn Hnf Hp0 Hp1. unfold confidenceIntervalProportion.
  cbn [ProportionInterval.lowerBound ProportionInterval.upperBound
       ProportionInterval.proportion].
  set (p := successes / sampleSize) in *.
  assert (Hpf : is_finite p = true)
    by (apply (leb_finite_between 0 p 1); (reflexivity || assumption)).
  assert (Hq0 : (0 <=? 1 - p) = true) by (apply sub_le_nonneg; (reflexivity || assumption)).
  assert (Hq1 : (1 - p <=? 1) = true) by (apply sub_nonneg_le; (reflexivity || assumption)).
  assert (Hqf : is_finite (1 - p) = true)
    by (apply (leb_finite_between 0 (1 - p) 1); (reflexivity || assumption)).
  assert (Hse : (0 <=? Math_sqrt (p * (1 - p) / sampleSize)) = true).
  { apply sqrt_nonneg, div_nonneg_proper.
    - apply mul_nonneg_finite; assumption.
    - apply pos_finite_proper; assumption. }
  set (se := Math_sqrt (p * (1 - p) / sampleSize)) in *.
  set (z := if strict_eq confidenceLevel 0.95 then 1.96
            else if strict_eq confidenceLevel 0.99 then 2.576 else 1.645).
  assert (Hm : (0 <=? z * se) = true).
  { apply mul_proper_nonneg; [ | exact Hse].
    unfold z. destruct (strict_eq confidenceLevel 0.95); [reflexivity | ].
    destruct (strict_eq confidenceLevel 0.99); reflexivity. }
  pose proof (sub_nonneg_le p (z * se) Hpf Hm) as Hlo.
  pose proof (add_nonneg_ge p (z * se) Hpf Hm) as Hhi.
  destruct (leb_true_not_nan _ _ Hlo) as [Hnlo Hnp].
  destruct (leb_true_not_nan _ _ Hhi) as [_ Hnhi].
  rewrite Math_max_pair, Math_min_pair.
  change (Math_max2 neg_infinity 0) with 0. change (Math_min2 infinity 1) with 1.
  destruct (Math_max2_spec 0 (p - z * se) eq_refl Hnlo) as [Hsel Hrank].
  destruct (Math_min2_spec 1 (p + z * se) eq_refl Hnhi) as [Hsel' Hrank'].
  assert (Hn1 : is_nan (Math_max2 0 (p - z * se)) = false)
    by (destruct Hsel as [-> | ->]; [reflexivity | exact Hnlo]).
  assert (Hn2 : is_nan (Math_min2 1 (p + z * se)) = false)
    by (destruct Hsel' as [-> | ->]; [reflexivity | exact Hnhi]).
  rewrite leb_rank in Hlo, Hhi, Hp0, Hp1 by (assumption || reflexivity).
  apply Z.leb_le in Hlo, Hhi, Hp0, Hp1.
  rewrite !leb_rank by (assumption || reflexivity).
  rewrite Hrank, Hrank'.
  repeat split; apply Z.leb_le; lia.
Qed.

Lemma confidenceIntervalProportion_bounds_witness :
  let r := confidenceIntervalProportion 45 100 0.95 in
  (0 <=? ProportionInterval.lowerBound r) = true
  /\ (ProportionInterval.lowerBound r <=? ProportionInterval.proportion r) = true
  /\ (ProportionInterval.proportion r <=? ProportionInterval.upperBound r) = true
  /\ (ProportionInterval.upperBound r <=? 1) = true.
Proof.
  apply (confidenceIntervalProportion_bounds 45 100 0.95); reflexivity.
Defined.

(** ** [twoSampleTTest]: exchanging the samples *)

Lemma abs_eq_cases (a b : float) : abs a = abs b -> b = a \/ b = - a.
Proof.
  intros H. apply (f_equal Prim2SF) in H. rewrite !abs_spec in H.
  destruct (Prim2SF a) as [sa | sa | | sa ma ea] eqn:Ha;
    destruct (Prim2SF b) as [sb | sb | | sb mb eb] eqn:Hb; try discriminate;
    cbn [SFabs] in H.
  - destruct (Bool.bool_dec sa sb) as [-> | Hne]; [left | right];
      apply Prim2SF_inj; rewrite ?opp_spec, Ha, Hb; [reflexivity | ].
    destruct sa, sb; try congruence; reflexivity.
  - destruct (Bool.bool_dec sa sb) as [-> | Hne]; [left | right];
      apply Prim2SF_inj; rewrite ?opp_spec, Ha, Hb; [reflexivity | ].
    destruct sa, sb; try congruence; reflexivity.
  - left. apply Prim2SF_inj. congruence.
  - injection H as -> ->.
    destruct (Bool.bool_dec sa sb) as [-> | Hne]; [left | right];
      apply Prim2SF_inj; rewrite ?opp_spec, Ha, Hb; [reflexivity | ].
    destruct sa, sb; try congruence; reflexivity.
Qed.

Lemma abs_div_swap (a b c : float) : abs (a - b) = abs (b - a) -> abs ((a - b) / c) = abs ((b - a) / c).
Proof.
  intros H. destruct (abs_eq_cases _ _ H) as [-> | ->]; [reflexivity | ].
  rewrite div_opp_l, abs_opp. reflexivity.
Qed.

Lemma pooledStandardError_swap (n1 n2 : nat) (var1 var2 : number) :
  pooledStandardError n2 n1 var2 var1 = pooledStandardError n1 n2 var1 var2.
Proof.
  unfold pooledStandardError.
  rewrite (add_comm (num_of_Z (Z.of_nat n2 - 1) * var2)).
  rewrite (Z.add_comm (Z.of_nat n2)).
  rewrite (add_comm (1 / num_of_nat n2)). reflexivity.
Qed.

Section TwoSampleSymmetry.
Context {E : MathEngine}.

(** X18.  [twoSampleTTest] treats its two samples alike: exchanging them, in
    the pooled and in the Welch variant and with any [jStat] object, leaves
    the degrees of freedom, the p-value, the decision and the magnitudes of
    the statistic and of the mean difference unchanged. *)
Theorem twoSampleTTest_exchange (j : JStat) (sample1 sample2 : list number)
    (alpha : number) (equalVariance : bool) :
  let r := twoSampleTTest j sample1 sample2 alpha equalVariance in
  let r' := twoSampleTTest j sample2 sample1 alpha equalVariance in
  Math_abs (TwoSampleTTest.tStatistic r') = Math_abs (TwoSampleTTest.tStatistic r)
  /\ TwoSampleTTest.degreesOfFreedom r' = TwoSampleTTest.degreesOfFreedom r
  /\ TwoSampleTTest.pValue r' = TwoSampleTTest.pValue r
  /\ TwoSampleTTest.reject r' = TwoSampleTTest.reject r
  /\ Math_abs (TwoSampleTTest.meanDifference r')
     = Math_abs (TwoSampleTTest.meanDifference r)
  /\ TwoSampleTTest.sample1Mean r' = TwoSampleTTest.sample2Mean r
  /\ TwoSampleTTest.sample2Mean r' = TwoSampleTTest.sample1Mean r.
Proof.
  unfold twoSampleTTest, Math_abs. destruct equalVariance;
    cbn [TwoSampleTTest.tStatistic TwoSampleTTest.degreesOfFreedom TwoSampleTTest.pValue
         TwoSampleTTest.reject TwoSampleTTest.meanDifference TwoSampleTTest.sample1Mean
         TwoSampleTTest.sample2Mean].
  - rewrite (pooledStandardError_swap (length sample1) (length sample2)).
    rewrite (Z.add_comm (Z.of_nat (length sample2))).
    rewrite (abs_div_swap (mean sample2) (mean sample1)) by apply abs_sub_swap.
    rewrite (abs_sub_swap (mean sample2) (mean sample1)).
    repeat split.
  - rewrite (add_comm (variance sample2 / num_of_nat (length sample2))).
    rewrite (add_comm (Math_pow (variance sample2 / num_of_nat (length sample2)) 2
                       / num_of_Z (Z.of_nat (length sample2) - 1))).
    rewrite (abs_div_swap (mean sample2) (mean sample1)) by apply abs_sub_swap.
    rewrite (abs_sub_swap (mean sample2) (mean sample1)).
    repeat split.
Qed.

End TwoSampleSymmetry.

(** ** [factorial], [combination] and the discrete distributions *)

Lemma eqb_rank (a b : float) :
  is_nan a = false -> is_nan b = false -> (a =? b) = (rank a =? rank b)%Z.
Proof.
  intros Ha Hb. rewrite eqb_spec. unfold SFeqb, rank.
  rewrite SFcompare_rank by (apply Prim2SF_valid || apply is_nan_false_SF; assumption).
  rewrite Z.eqb_compare.
  destruct (SFrank (Prim2SF a) ?= SFrank (Prim2SF b))%Z; reflexivity.
Qed.

Lemma num_of_Z_of_nat (n : nat) : num_of_Z (Z.of_nat n) = num_of_nat n.
Proof.
  unfold num_of_Z, num_of_nat.
  destruct (Z.ltb_spec (Z.of_nat n) 0); [lia | reflexivity].
Qed.

Section ExactDifference.
Local Open Scope Z_scope.

Lemma SFrank_inj (x y : spec_float) :
  valid_binary x = true -> valid_binary y = true ->
  x <> S754_nan -> y <> S754_nan ->
  SFrank x = SFrank y -> SFrank x <> 0 -> x = y.
Proof.
  intros Hvx Hvy Hnx Hny Heq Hnz.
  pose proof (SFcompare_rank x y Hvx Hvy Hnx Hny) as Hc.
  rewrite Heq, Z.compare_refl in Hc.
  assert (HP : 0 < 2 ^ 2098) by (apply pow2_pos; lia).
  destruct x as [sx | sx | | sx mx ex]; try congruence;
    destruct y as [sy | sy | | sy my ey]; try congruence;
    cbn [SFrank SFscaled] in *; try lia.
  - destruct sx, sy; cbn [cond_Zopp] in *; try reflexivity; lia.
  - destruct sx, sy; discriminate.
  - destruct sx, sy; discriminate.
  - pose proof (valid_finite_scaled_pos _ _ _ Hvx) as [Hx _].
    pose proof (valid_finite_scaled_pos _ _ _ Hvy) as [Hy _].
    assert (Hs : sx = sy) by (destruct sx, sy; cbn [cond_Zopp] in *; try reflexivity; lia).
    subst sy.
    assert (Hsc : scaled mx ex = scaled my ey) by (destruct sx; cbn [cond_Zopp] in *; lia).
    cbn [SpecFloat.valid_binary] in Hvx, Hvy.
    pose proof (compare_scaled mx my ex ey Hvx Hvy) as Hcs.
    rewrite Hsc, Z.compare_refl in Hcs.
    destruct (Z.compare_spec ex ey) as [-> | | ]; try discriminate.
    change (Pos.compare_cont Eq mx my) with (mx ?= my)%positive in Hcs.
    apply Pos.compare_eq in Hcs. subst my. reflexivity.
Qed.

Lemma SFsub_exact (x y z : spec_float) :
  valid_binary x = true -> valid_binary y = true -> valid_binary z = true ->
  SFfinite x = true -> SFfinite y = true -> SFfinite z = true ->
  SFscaled z = SFscaled x - SFscaled y ->
  SFleb (SF64sub x y) z = true /\ SFleb z (SF64sub x y) = true.
Proof.
  intros Hvx Hvy Hvz Hfx Hfy Hfz Hs.
  destruct x as [sx | sx | | sx mx ex]; try discriminate;
    destruct y as [sy | sy | | sy my ey]; try discriminate.
  - cbn [SFscaled] in Hs.
    assert (Hz : exists sz, z = S754_zero sz).
    { destruct z as [sz | sz | | sz mz ez]; try discriminate; [exists sz; reflexivity | ].
      pose proof (valid_finite_scaled_pos _ _ _ Hvz) as [Hz _].
      cbn [SFscaled] in Hs. destruct sz; cbn [cond_Zopp] in Hs; lia. }
    destruct Hz as [sz ->]. destruct sx, sy; split; reflexivity.
  - unfold SF64sub, SFsub.
    split; apply SFleb_scaled; try assumption; try reflexivity;
      cbn [SFscaled] in *; destruct sy; cbn [cond_Zopp negb] in *; lia.
  - unfold SF64sub, SFsub.
    split; apply SFleb_scaled; try assumption; try reflexivity;
      cbn [SFscaled] in *; lia.
  - pose proof (valid_finite_scaled_pos _ _ _ Hvx) as [Hx Hex].
    pose proof (valid_finite_scaled_pos _ _ _ Hvy) as [Hy Hey].
    unfold SF64sub, SFsub. split.
    + apply binary_normalize_le; try assumption; [lia | ].
      rewrite Z.mul_sub_distr_r, !cond_Zopp_mul, !shl_align_scaled by lia.
      cbn [SFscaled] in *. lia.
    + apply binary_normalize_ge; try assumption; [lia | ].
      rewrite Z.mul_sub_distr_r, !cond_Zopp_mul, !shl_align_scaled by lia.
      cbn [SFscaled] in *. lia.
Qed.

End ExactDifference.

Lemma rank_inj (a b : float) :
  is_nan a = false -> is_nan b = false -> rank a = rank b -> rank a <> 0%Z -> a = b.
Proof.
  intros Ha Hb Heq Hnz. apply Prim2SF_inj.
  apply SFrank_inj; try apply Prim2SF_valid; try (apply is_nan_false_SF; assumption);
    assumption.
Qed.

Lemma sub_rank_exact (a b c : float) :
  is_finite a = true -> is_finite b = true -> is_finite c = true ->
  rank c = (rank a - rank b)%Z -> rank (a - b) = rank c.
Proof.
  intros Ha Hb Hc Hr.
  pose proof (sub_finite_not_nan a b Ha Hb) as Hn.
  pose proof (is_finite_not_nan _ Hc) as Hnc.
  rewrite !rank_finite in Hr by assumption.
  destruct (SFsub_exact (Prim2SF a) (Prim2SF b) (Prim2SF c)) as [H1 H2];
    try apply Prim2SF_valid; try (rewrite <- is_finite_SFfinite; assumption); [exact Hr | ].
  rewrite <- sub_spec, <- leb_spec in H1, H2.
  rewrite leb_rank in H1, H2 by assumption.
  apply Z.leb_le in H1, H2. lia.
Qed.

Lemma num_of_nat_finite (n : nat) : (Z.of_nat n < 2 ^ 53)%Z -> is_finite (num_of_nat n) = true.
Proof.
  intros Hn. destruct n as [ | n]; [reflexivity | ].
  pose proof (num_of_nat_proper (S n) ltac:(lia) ltac:(lia)) as Hp.
  rewrite is_finite_SF. destruct (Prim2SF (num_of_nat (S n))); try discriminate; reflexivity.
Qed.

(** The difference of two integers below [2^53] is exact. *)
Lemma num_of_nat_sub (n k : nat) :
  (k <= n)%nat -> (Z.of_nat n < 2 ^ 53)%Z ->
  num_of_nat n - num_of_nat k = num_of_nat (n - k).
Proof.
  intros Hk Hn.
  destruct (Nat.eq_dec k n) as [-> | Hne].
  - rewrite Nat.sub_diag. apply sub_diag, num_of_nat_finite, Hn.
  - destruct (num_of_nat_rank n Hn) as [Hnn Hrn].
    destruct (num_of_nat_rank k ltac:(lia)) as [Hnk Hrk].
    destruct (num_of_nat_rank (n - k) ltac:(lia)) as [Hnd Hrd].
    assert (Hr : rank (num_of_nat n - num_of_nat k) = rank (num_of_nat (n - k))).
    { apply sub_rank_exact; try (apply num_of_nat_finite; lia).
      rewrite Hrn, Hrk, Hrd. rewrite Nat2Z.inj_sub by exact Hk. lia. }
    apply rank_inj; try assumption.
    + apply sub_finite_not_nan; apply num_of_nat_finite; lia.
    + rewrite Hr, Hrd. assert (0 < 2 ^ 1074)%Z by (apply pow2_pos; lia). nia.
Qed.

Lemma num_of_nat_leb (a b : nat) :
  (Z.of_nat a < 2 ^ 53)%Z -> (Z.of_nat b < 2 ^ 53)%Z ->
  (num_of_nat a <=? num_of_nat b) = (a <=? b)%nat.
Proof.
  intros Ha Hb.
  destruct (num_of_nat_rank a Ha) as [Hna Hra]. destruct (num_of_nat_rank b Hb) as [Hnb Hrb].
  rewrite leb_rank, Hra, Hrb by assumption.
  assert (0 < 2 ^ 1074)%Z by (apply pow2_pos; lia).
  destruct (Nat.leb_spec a b); [apply Z.leb_le | apply Z.leb_gt]; nia.
Qed.

Lemma num_of_nat_ltb (a b : nat) :
  (Z.of_nat a < 2 ^ 53)%Z -> (Z.of_nat b < 2 ^ 53)%Z ->
  (num_of_nat a <? num_of_nat b) = (a <? b)%nat.
Proof.
  intros Ha Hb.
  destruct (num_of_nat_rank a Ha) as [Hna Hra]. destruct (num_of_nat_rank b Hb) as [Hnb Hrb].
  rewrite ltb_rank, Hra, Hrb by assumption.
  assert (0 < 2 ^ 1074)%Z by (apply pow2_pos; lia).
  destruct (Nat.ltb_spec a b); [apply Z.ltb_lt | apply Z.ltb_ge]; nia.
Qed.

Lemma num_of_nat_eqb (a b : nat) :
  (Z.of_nat a < 2 ^ 53)%Z -> (Z.of_nat b < 2 ^ 53)%Z ->
  (num_of_nat a =? num_of_nat b) = (a =? b)%nat.
Proof.
  intros Ha Hb.
  destruct (num_of_nat_rank a Ha) as [Hna Hra]. destruct (num_of_nat_rank b Hb) as [Hnb Hrb].
  rewrite eqb_rank, Hra, Hrb by assumption.
  assert (0 < 2 ^ 1074)%Z by (apply pow2_pos; lia).
  destruct (Nat.eqb_spec a b); [apply Z.eqb_eq | apply Z.eqb_neq]; nia.
Qed.

(** ** The loop of [factorial] *)

Lemma factorial_loop_run (n : nat) : forall (k i fuel : nat) (result : number),
  (Z.of_nat n + 1 < 2 ^ 53)%Z ->
  (i + k = n + 1)%nat -> (k < fuel)%nat ->
  factorial_loop fuel (num_of_nat n) (Z.of_nat i) result
  = Some (running_product result (seq i k)).
Proof.
  induction k as [ | k IH]; intros i fuel result Hn Hik Hfuel;
    (destruct fuel as [ | fuel]; [lia | ]); cbn [factorial_loop seq running_product fold_left].
  - rewrite num_of_Z_of_nat, num_of_nat_leb by lia.
    destruct (Nat.leb_spec i n); [lia | reflexivity].
  - rewrite num_of_Z_of_nat, num_of_nat_leb by lia.
    destruct (Nat.leb_spec i n); [ | lia].
    replace (Z.of_nat i + 1)%Z with (Z.of_nat (S i)) by lia.
    rewrite IH by lia. reflexivity.
Qed.

Lemma factorial_run (n fuel : nat) :
  (Z.of_nat n + 1 < 2 ^ 53)%Z -> (n <= fuel)%nat ->
  factorial fuel (num_of_nat n) = Some (running_product 1 (seq 2 (n - 1))).
Proof.
  intros Hn Hfuel. unfold factorial.
  change 1 with (num_of_nat 1) at 1. rewrite num_of_nat_leb by lia.
  destruct (Nat.leb_spec n 1) as [Hle | Hgt].
  - replace (n - 1)%nat with 0%nat by lia. reflexivity.
  - change 2%Z with (Z.of_nat 2). apply factorial_loop_run; lia.
Qed.

Lemma mul_infinity_proper (b : float) :
  SFproper false (Prim2SF b) = true -> infinity * b = infinity.
Proof.
  intros Hb. apply Prim2SF_inj. rewrite mul_spec.
  change (Prim2SF infinity) with (S754_infinity false).
  destruct (Prim2SF b) as [[]|[]| |[] m e]; try discriminate; reflexivity.
Qed.

Lemma running_product_infinity (counters : list nat) :
  Forall (fun i => (1 <= i)%nat /\ (Z.of_nat i < 2 ^ 63)%Z) counters ->
  running_product infinity counters = infinity.
Proof.
  induction 1 as [ | i l [Hi Hi'] Hl IH]; [reflexivity | ].
  unfold running_product in *. cbn [fold_left].
  rewrite mul_infinity_proper by (apply num_of_nat_proper; assumption). exact IH.
Qed.

Lemma running_product_app r l1 l2 :
  running_product r (l1 ++ l2) = running_product (running_product r l1) l2.
Proof. unfold running_product. apply fold_left_app. Qed.

Lemma running_product_170 : running_product 1 (seq 2 170) = infinity.
Proof. vm_compute. reflexivity. Qed.

Lemma factorial_overflows (n fuel : nat) :
  (171 <= n)%nat -> (Z.of_nat n + 1 < 2 ^ 53)%Z -> (n <= fuel)%nat ->
  factorial fuel (num_of_nat n) = Some infinity.
Proof.
  intros Hn Hb Hfuel. rewrite factorial_run by lia. f_equal.
  replace (n - 1)%nat with (170 + (n - 171))%nat by lia.
  rewrite seq_app, running_product_app, running_product_170.
  apply running_product_infinity. apply Forall_forall. intros i Hi.
  apply in_seq in Hi. split; [lia | ].
  assert (2 ^ 53 < 2 ^ 63)%Z by (apply Z.pow_lt_mono_r; lia). lia.
Qed.

(** X19.  [factorial] validates nothing: on every argument below 2, negative
    numbers and fractions included, and on [NaN], it returns 1. *)
Theorem factorial_below_two (n : number) (fuel : nat) :
  (2 <=? n) = false -> (1 <= fuel)%nat -> factorial fuel n = Some 1.
Proof.
  intros Hn Hfuel. unfold factorial. destruct (n <=? 1); [reflexivity | ].
  destruct fuel as [ | fuel]; [lia | ]. cbn [factorial_loop].
  change (num_of_Z 2) with 2. rewrite Hn. reflexivity.
Qed.

Lemma factorial_below_two_witness :
  factorial 1 (-3) = Some 1 /\ factorial 1 1.5 = Some 1 /\ factorial 1 nan = Some 1.
Proof.
  split; [apply (factorial_below_two (-3) 1); [reflexivity | lia] | ].
  split; [apply (factorial_below_two 1.5 1); [reflexivity | lia] | ].
  apply (factorial_below_two nan 1); [reflexivity | lia].
Defined.

(** X20.  On the integers from 0 to 22 the loop of [factorial] ends and the
    result is the factorial exactly: no product on the way is rounded. *)
Theorem factorial_exact_to_22 (n fuel : nat) :
  (n <= 22)%nat -> (n <= fuel)%nat ->
  exists v, factorial fuel (num_of_nat n) = Some v
            /\ is_integral v = true /\ Math_floor v = Some (factorial_Z n).
Proof.
  intros Hn Hfuel.
  rewrite factorial_run by (assert (2 ^ 5 < 2 ^ 53)%Z by (apply Z.pow_lt_mono_r; lia); lia).
  eexists. split; [reflexivity | ].
  do 23 (destruct n as [ | n]; [vm_compute; split; reflexivity | ]).
  lia.
Qed.

Lemma factorial_exact_to_22_witness :
  exists v, factorial 20 (num_of_nat 20) = Some v
            /\ is_integral v = true /\ Math_floor v = Some (factorial_Z 20).
Proof. apply (factorial_exact_to_22 20 20); lia. Defined.

(** X21.  From 171 on the result of [factorial] is [+Infinity]: for every
    integer argument from 171 up the loop ends and returns [+Infinity],
    while the result at 170 is still finite. *)
Theorem factorial_overflow_from_171 (n fuel : nat) :
  (171 <= n)%nat -> (Z.of_nat n + 1 < 2 ^ 53)%Z -> (n <= fuel)%nat ->
  factorial fuel (num_of_nat n) = Some infinity
  /\ exists v, factorial fuel (num_of_nat 170) = Some v /\ is_finite v = true.
Proof.
  intros Hn Hb Hfuel. split; [apply factorial_overflows; assumption | ].
  rewrite factorial_run by lia. eexists. split; [reflexivity | ].
  vm_compute. reflexivity.
Qed.

Lemma factorial_overflow_from_171_witness :
  factorial 171 (num_of_nat 171) = Some infinity
  /\ exists v, factorial 171 (num_of_nat 170) = Some v /\ is_finite v = true.
Proof.
  apply (factorial_overflow_from_171 171 171); [lia | | lia].
  vm_compute. reflexivity.
Defined.

Lemma infinity_div_not_finite (d : float) : is_finite (infinity / d) = false.
Proof.
  rewrite is_finite_SF, div_spec. change (Prim2SF infinity) with (S754_infinity false).
  destruct (Prim2SF d) as [[]|[]| |[] m e]; reflexivity.
Qed.

Lemma mul_not_finite_l (c x : float) : is_finite c = false -> is_finite (c * x) = false.
Proof.
  rewrite !is_finite_SF, mul_spec.
  destruct (Prim2SF c) as [[]|[]| |[] mc ec]; try discriminate;
    destruct (Prim2SF x) as [[]|[]| |[] m e]; reflexivity.
Qed.

Lemma div_infinity_cases (x : float) : is_zero (x / infinity) = true \/ x / infinity = nan.
Proof.
  rewrite is_zero_SF.
  destruct (Prim2SF x) as [sx | sx | | sx mx ex] eqn:Hx.
  - left. rewrite div_spec, Hx. reflexivity.
  - right. apply Prim2SF_inj. rewrite div_spec, Hx. reflexivity.
  - right. apply Prim2SF_inj. rewrite div_spec, Hx. reflexivity.
  - left. rewrite div_spec, Hx. reflexivity.
Qed.

Lemma factorial_returns (n fuel : nat) :
  (Z.of_nat n + 1 < 2 ^ 53)%Z -> (n <= fuel)%nat ->
  exists v, factorial fuel (num_of_nat n) = Some v.
Proof. intros Hn Hfuel. rewrite factorial_run by assumption. eexists. reflexivity. Qed.

Lemma gt_num_of_nat (a b : nat) :
  (Z.of_nat a < 2 ^ 53)%Z -> (Z.of_nat b < 2 ^ 53)%Z ->
  gt (num_of_nat a) (num_of_nat b) = (b <? a)%nat.
Proof. intros Ha Hb. unfold gt. apply num_of_nat_ltb; assumption. Qed.

Lemma combination_inner (n k fuel : nat) :
  (0 < k)%nat -> (k < n)%nat -> (Z.of_nat n + 1 < 2 ^ 53)%Z -> (n <= fuel)%nat ->
  exists fn fk fnk,
    factorial fuel (num_of_nat n) = Some fn
    /\ factorial fuel (num_of_nat k) = Some fk
    /\ factorial fuel (num_of_nat (n - k)) = Some fnk
    /\ combination fuel (num_of_nat n) (num_of_nat k) = Some (fn / (fk * fnk)).
Proof.
  intros Hk0 Hkn Hn Hfuel.
  destruct (factorial_returns n fuel Hn Hfuel) as [fn Hfn].
  destruct (factorial_returns k fuel ltac:(lia) ltac:(lia)) as [fk Hfk].
  destruct (factorial_returns (n - k) fuel ltac:(lia) ltac:(lia)) as [fnk Hfnk].
  exists fn, fk, fnk. repeat split; try assumption.
  unfold combination, strict_eq.
  rewrite gt_num_of_nat by lia.
  change (num_of_nat k =? 0) with (num_of_nat k =? num_of_nat 0).
  rewrite !num_of_nat_eqb by lia.
  destruct (Nat.ltb_spec n k); [lia | ].
  destruct (Nat.eqb_spec k 0); [lia | ].
  destruct (Nat.eqb_spec k n); [lia | ]. cbn [orb].
  rewrite num_of_nat_sub by lia. rewrite Hfn, Hfk, Hfnk. reflexivity.
Qed.

(** X22.  On integers [0 <= k <= n] (below [2^53], with fuel for [n]
    iterations) [combination] is symmetric:
    [combination(n, k) = combination(n, n - k)], the same number or the
    same failure to end. *)
Theorem combination_symmetric (n k fuel : nat) :
  (k <= n)%nat -> (Z.of_nat n + 1 < 2 ^ 53)%Z -> (n <= fuel)%nat ->
  combination fuel (num_of_nat n) (num_of_nat n - num_of_nat k)
  = combination fuel (num_of_nat n) (num_of_nat k).
Proof.
  intros Hk Hn Hfuel. rewrite num_of_nat_sub by lia.
  destruct (Nat.eq_dec k 0) as [-> | Hk0]; [ | destruct (Nat.eq_dec k n) as [-> | Hkn]].
  - rewrite Nat.sub_0_r. unfold combination, strict_eq.
    rewrite !gt_num_of_nat by lia.
    change (num_of_nat n =? 0) with (num_of_nat n =? num_of_nat 0).
    change (num_of_nat 0 =? 0) with true.
    rewrite !num_of_nat_eqb by lia.
    rewrite Nat.ltb_irrefl, Nat.eqb_refl, orb_true_r.
    destruct (Nat.ltb_spec 0 n); reflexivity.
  - rewrite Nat.sub_diag. unfold combination, strict_eq.
    rewrite !gt_num_of_nat by lia.
    change (num_of_nat n =? 0) with (num_of_nat n =? num_of_nat 0).
    change (num_of_nat 0 =? 0) with true.
    rewrite !num_of_nat_eqb by lia.
    rewrite Nat.ltb_irrefl, Nat.eqb_refl, orb_true_r.
    destruct (Nat.ltb_spec 0 n); reflexivity.
  - destruct (combination_inner n k fuel ltac:(lia) ltac:(lia) Hn Hfuel)
      as (fn & fk & fnk & Hfn & Hfk & Hfnk & ->).
    destruct (combination_inner n (n - k) fuel ltac:(lia) ltac:(lia) Hn Hfuel)
      as (fn' & fk' & fnk' & Hfn' & Hfk' & Hfnk' & ->).
    replace (n - (n - k))%nat with k in Hfnk' by lia.
    rewrite Hfn in Hfn'. rewrite Hfk in Hfnk'. rewrite Hfnk in Hfk'.
    injection Hfn' as <-. injection Hfnk' as <-. injection Hfk' as <-.
    rewrite (mul_comm fnk fk). reflexivity.
Qed.

Lemma combination_symmetric_witness :
  combination 10 (num_of_nat 10) (num_of_nat 10 - num_of_nat 3)
  = combination 10 (num_of_nat 10) (num_of_nat 3).
Proof.
  apply (combination_symmetric 10 3 10); [lia | | lia].
  vm_compute. reflexivity.
Defined.

Section PmfOverflow.
Context {E : MathEngine}.

(** X23.  With 171 trials or more the binomial probabilities cannot be
    computed: for every integer [171 <= n] and [0 < k < n],
    [combination(n, k)] is [+Infinity] or [NaN] and so is
    [binomialPMF(k, n, p)], whatever [p]. *)
Theorem binomialPMF_overflow (n k fuel : nat) (p : number) :
  (171 <= n)%nat -> (0 < k)%nat -> (k < n)%nat ->
  (Z.of_nat n + 1 < 2 ^ 53)%Z -> (n <= fuel)%nat ->
  (exists c, combination fuel (num_of_nat n) (num_of_nat k) = Some c
             /\ is_finite c = false)
  /\ (exists v, binomialPMF fuel (num_of_nat k) (num_of_nat n) p = Some v
                /\ is_finite v = false).
Proof.
  intros Hn Hk0 Hkn Hb Hfuel.
  destruct (combination_inner n k fuel Hk0 Hkn Hb Hfuel)
    as (fn & fk & fnk & Hfn & _ & _ & Hc).
  rewrite factorial_overflows in Hfn by assumption. injection Hfn as <-.
  split.
  - eexists. split; [exact Hc | apply infinity_div_not_finite].
  - unfold binomialPMF.
    change (num_of_nat k <? 0) with (num_of_nat k <? num_of_nat 0).
    rewrite num_of_nat_ltb, gt_num_of_nat by lia.
    destruct (Nat.ltb_spec k 0); [lia | ]. destruct (Nat.ltb_spec n k); [lia | ].
    cbn [orb]. rewrite Hc. eexists. split; [reflexivity | ].
    apply mul_not_finite_l, mul_not_finite_l, infinity_div_not_finite.
Qed.

(** X24.  From 171 events on the Poisson probability is lost as well: for
    every integer [k >= 171], [poissonPMF(k, lambda)] divides by
    [+Infinity] and is a zero or [NaN], whatever [lambda]. *)
Theorem poissonPMF_overflow (k fuel : nat) (lambda : number) :
  (171 <= k)%nat -> (Z.of_nat k + 1 < 2 ^ 53)%Z -> (k <= fuel)%nat ->
  exists v, poissonPMF fuel (num_of_nat k) lambda = Some v
            /\ (is_zero v = true \/ v = nan).
Proof.
  intros Hk Hb Hfuel. unfold poissonPMF.
  change (num_of_nat k <? 0) with (num_of_nat k <? num_of_nat 0).
  rewrite num_of_nat_ltb by lia.
  destruct (Nat.ltb_spec k 0); [lia | ].
  rewrite factorial_overflows by assumption.
  eexists. split; [reflexivity | apply div_infinity_cases].
Qed.

End PmfOverflow.

(** ** [stats.skewness], [stats.kurtosis] *)

Lemma sub_not_finite_l (a b : float) : is_finite a = false -> is_finite (a - b) = false.
Proof.
  rewrite !is_finite_SF, sub_spec.
  destruct (Prim2SF a) as [[]|[]| |[] ma ea]; try discriminate;
    destruct (Prim2SF b) as [[]|[]| |[] m e]; reflexivity.
Qed.

Section ShapeStatistics.
Context {E : MathEngine}.

(** X25.  The shape statistics divide by [(n-1)(n-2)] and by
    [(n-1)(n-2)(n-3)] without a test: whatever the values, the skewness of
    a sample of one or two values and the kurtosis of a sample of one, two
    or three values is [NaN] or an infinity, never a finite number; on the
    empty sample they are 0 and -0.5. *)
Theorem shape_statistics_small_samples (data : list number) :
  ((1 <= length data <= 2)%nat -> is_finite (skewness data) = false)
  /\ ((1 <= length data <= 3)%nat -> is_finite (kurtosis data) = false)
  /\ skewness [] = 0 /\ kurtosis [] = -0.5.
Proof.
  split; [ | split; [ | split; reflexivity]].
  - intros Hlen. destruct data as [ | a [ | b [ | c l]]]; cbn [length] in Hlen; try lia;
      unfold skewness; cbv zeta; apply mul_not_finite_l; vm_compute; reflexivity.
  - intros Hlen. destruct data as [ | a [ | b [ | c [ | d l]]]]; cbn [length] in Hlen; try lia;
      unfold kurtosis; cbv zeta; apply sub_not_finite_l, mul_not_finite_l;
      vm_compute; reflexivity.
Qed.

End ShapeStatistics.

(** ** [coinFlipSimulation]: probabilities outside [0, 1] *)

Lemma heads_among_none random probability n :
  (forall i, (i < n)%nat -> (random i <? probability) = false) ->
  heads_among random probability n = 0%nat.
Proof.
  intros H. unfold heads_among. induction n as [ | n IH]; [reflexivity | ].
  rewrite seq_S, map_app, filter_app, length_app, IH by (intros; apply H; lia).
  cbn [map filter Nat.add]. unfold face_of. rewrite H by lia. reflexivity.
Qed.

Lemma heads_among_all random probability n :
  (forall i, (i < n)%nat -> (random i <? probability) = true) ->
  heads_among random probability n = n.
Proof.
  intros H. unfold heads_among. induction n as [ | n IH]; [reflexivity | ].
  rewrite seq_S, map_app, filter_app, length_app, IH by (intros; apply H; lia).
  cbn [map filter Nat.add]. unfold face_of. rewrite H by lia. cbn. lia.
Qed.

(** X26.  [coinFlipSimulation] accepts any probability.  With draws in
    [0, 1), as [Math.random] gives them, a probability of 0 or less, or a
    [NaN] probability, gives tails on every flip, and a probability of 1 or
    more gives heads on every flip. *)
Theorem coinFlipSimulation_degenerate (random : nat -> number) (numFlips : nat)
    (probability : number) :
  (forall i, (0 <=? random i) = true /\ (random i <? 1) = true) ->
  let r := coinFlipSimulation random numFlips probability in
  ((probability <=? 0) = true \/ is_nan probability = true ->
   CoinFlip.heads r = 0%nat /\ CoinFlip.tails r = numFlips)
  /\ ((1 <=? probability) = true ->
      CoinFlip.heads r = numFlips /\ CoinFlip.tails r = 0%nat).
Proof.
  intros Hrandom. unfold coinFlipSimulation, coin_loop.
  cbn [CoinFlip.heads CoinFlip.tails].
  pose proof (run_counts random probability numFlips numFlips) as Hsum.
  rewrite run_heads in *.
  split.
  - intros Hp.
    assert (Hh : heads_among random probability numFlips = 0%nat).
    { apply heads_among_none. intros i _. destruct Hp as [Hp | Hp].
      - apply leb_true_ltb_false. apply (leb_trans _ 0); [exact Hp | apply Hrandom].
      - rewrite (is_nan_true_eq _ Hp). rewrite ltb_spec.
        change (Prim2SF nan) with S754_nan. unfold SFltb.
        destruct (Prim2SF (random i)); reflexivity. }
    rewrite Hh in *. split; [reflexivity | lia].
  - intros Hp.
    assert (Hh : heads_among random probability numFlips = numFlips).
    { apply heads_among_all. intros i _. destruct (Hrandom i) as [_ Hlt].
      destruct (ltb_true_not_nan _ _ Hlt) as [Hn1 _].
      destruct (leb_true_not_nan _ _ Hp) as [_ Hn2].
      rewrite ltb_rank in * by (assumption || reflexivity).
      rewrite leb_rank in Hp by (assumption || reflexivity).
      apply Z.ltb_lt in Hlt. apply Z.leb_le in Hp. apply Z.ltb_lt. lia. }
    rewrite Hh in *. split; [reflexivity | lia].
Qed.

Lemma coinFlipSimulation_degenerate_witness :
  let r := coinFlipSimulation (fun i => if Nat.even i then 0.25 else 0.75) 10 1.5 in
  CoinFlip.heads r = 10%nat /\ CoinFlip.tails r = 0%nat.
Proof.
  refine (proj2 (coinFlipSimulation_degenerate
                   (fun i => if Nat.even i then 0.25 else 0.75) 10 1.5 _) _).
  - intros i. destruct (Nat.even i); split; reflexivity.
  - reflexivity.
Defined.

(** ** [diceRollSimulation] *)

Section ExactSum.
Local Open Scope Z_scope.

Lemma SFadd_exact (x y z : spec_float) :
  valid_binary x = true -> valid_binary y = true -> valid_binary z = true ->
  SFfinite x = true -> SFfinite y = true -> SFfinite z = true ->
  SFscaled z = SFscaled x + SFscaled y -> SFscaled z <> 0 ->
  SFleb (SF64add x y) z = true /\ SFleb z (SF64add x y) = true.
Proof.
  intros Hvx Hvy Hvz Hfx Hfy Hfz Hs Hnz.
  destruct x as [sx | sx | | sx mx ex]; try discriminate;
    destruct y as [sy | sy | | sy my ey]; try discriminate.
  - cbn [SFscaled] in Hs. lia.
  - unfold SF64add, SFadd.
    split; apply SFleb_scaled; try assumption; try reflexivity;
      cbn [SFscaled] in *; lia.
  - unfold SF64add, SFadd.
    split; apply SFleb_scaled; try assumption; try reflexivity;
      cbn [SFscaled] in *; lia.
  - pose proof (valid_finite_scaled_pos _ _ _ Hvx) as [Hx Hex].
    pose proof (valid_finite_scaled_pos _ _ _ Hvy) as [Hy Hey].
    unfold SF64add, SFadd. split.
    + apply binary_normalize_le; try assumption; [lia | ].
      rewrite Z.mul_add_distr_r, !cond_Zopp_mul, !shl_align_scaled by lia.
      cbn [SFscaled] in *. lia.
    + apply binary_normalize_ge; try assumption; [lia | ].
      rewrite Z.mul_add_distr_r, !cond_Zopp_mul, !shl_align_scaled by lia.
      cbn [SFscaled] in *. lia.
Qed.

Lemma SFadd_finite_not_nan (x y : spec_float) :
  SFfinite x = true -> SFfinite y = true -> SF64add x y <> S754_nan.
Proof.
  intros Hx Hy.
  destruct x as [sx | sx | | sx mx ex]; try discriminate;
    destruct y as [sy | sy | | sy my ey]; try discriminate; unfold SF64add, SFadd;
    try (destruct sx, sy; discriminate); try (intros Hn; discriminate Hn).
  apply binary_normalize_not_nan.
Qed.

End ExactSum.

Lemma add_finite_not_nan (a b : float) :
  is_finite a = true -> is_finite b = true -> is_nan (a + b) = false.
Proof.
  rewrite !is_finite_SFfinite, is_nan_SF, add_spec. intros Ha Hb.
  pose proof (SFadd_finite_not_nan _ _ Ha Hb) as Hn.
  destruct (SF64add (Prim2SF a) (Prim2SF b)); congruence.
Qed.

(** The successor of an integer below [2^53 - 1] is exact. *)
Lemma num_of_nat_succ (c : nat) :
  (Z.of_nat c + 1 < 2 ^ 53)%Z -> num_of_nat c + 1 = num_of_nat (S c).
Proof.
  intros Hc.
  destruct (num_of_nat_rank c ltac:(lia)) as [Hnc Hrc].
  destruct (num_of_nat_rank (S c) ltac:(lia)) as [Hns Hrs].
  pose proof (num_of_nat_finite c ltac:(lia)) as Hfc.
  pose proof (num_of_nat_finite (S c) ltac:(lia)) as Hfs.
  pose proof (add_finite_not_nan (num_of_nat c) 1 Hfc eq_refl) as Hn.
  assert (HP : (0 < 2 ^ 1074)%Z) by (apply pow2_pos; lia).
  assert (Hr1 : rank 1 = (2 ^ 1074)%Z) by (vm_compute; reflexivity).
  assert (Hr : rank (num_of_nat c + 1) = rank (num_of_nat (S c))).
  { destruct (SFadd_exact (Prim2SF (num_of_nat c)) (Prim2SF 1) (Prim2SF (num_of_nat (S c))))
      as [H1 H2]; try apply Prim2SF_valid;
      try (rewrite <- is_finite_SFfinite; (assumption || reflexivity)).
    - rewrite <- !rank_finite by (assumption || reflexivity). rewrite Hrc, Hrs, Hr1. lia.
    - rewrite <- rank_finite by assumption. rewrite Hrs. nia.
    - rewrite <- add_spec, <- leb_spec in H1, H2.
      rewrite leb_rank in H1, H2 by assumption.
      apply Z.leb_le in H1, H2. lia. }
  apply rank_inj; try assumption. rewrite Hr, Hrs. nia.
Qed.

Lemma num_of_nat_inj (a b : nat) :
  (Z.of_nat a < 2 ^ 53)%Z -> (Z.of_nat b < 2 ^ 53)%Z ->
  num_of_nat a = num_of_nat b -> a = b.
Proof.
  intros Ha Hb Heq.
  destruct (num_of_nat_rank a Ha) as [_ Hra]. destruct (num_of_nat_rank b Hb) as [_ Hrb].
  rewrite Heq, Hrb in Hra.
  assert (0 < 2 ^ 1074)%Z by (apply pow2_pos; lia). nia.
Qed.

Lemma same_key_num_of_nat (a b : nat) :
  (Z.of_nat a < 2 ^ 53)%Z -> (Z.of_nat b < 2 ^ 53)%Z ->
  same_key (num_of_nat a) (num_of_nat b) = Nat.eqb a b.
Proof.
  intros Ha Hb. destruct (Nat.eqb_spec a b) as [-> | Hne].
  - apply same_key_refl.
  - apply same_key_false. intros Heq. apply Hne, (num_of_nat_inj a b Ha Hb Heq).
Qed.

Lemma ToPropertyKey_num_of_nat (v : nat) :
  (1 <= v)%nat -> (Z.of_nat v < 2 ^ 53)%Z -> ToPropertyKey (num_of_nat v) = num_of_nat v.
Proof.
  intros Hv Hb. unfold ToPropertyKey.
  assert (Hz : is_zero (num_of_nat v) = false).
  { unfold is_zero. change zero with (num_of_nat 0). rewrite num_of_nat_eqb by lia.
    destruct (Nat.eqb_spec v 0); [lia | reflexivity]. }
  rewrite Hz. reflexivity.
Qed.

Section IntegerKeys.
Local Open Scope Z_scope.

Lemma num_of_nat_SF (n : nat) :
  (1 <= n)%nat -> Z.of_nat n < 2 ^ 53 ->
  exists m e, Prim2SF (num_of_nat n) = S754_finite false m e
              /\ -1074 <= e
              /\ (0 <= e -> Zpos m * 2 ^ e = Z.of_nat n)
              /\ (e < 0 -> Zpos m = Z.of_nat n * 2 ^ (- e)).
Proof.
  intros Hn Hb.
  pose proof (Prim2SF_valid (num_of_nat n)) as Hv.
  assert (Hsf : exists m e, Prim2SF (num_of_nat n) = S754_finite false m e
                            /\ scaled m e = Z.of_nat n * 2 ^ 1074).
  { unfold num_of_nat. rewrite of_uint63_spec, Uint63.of_Z_spec.
    change Uint63.wB with (2 ^ 63). rewrite Z.mod_small by lia.
    destruct (Z.of_nat n) as [ | p | p] eqn:Hp; try lia.
    apply binary_normalize_exact. exact Hb. }
  destruct Hsf as (m & e & Hsf & Hs). exists m, e. rewrite Hsf in Hv.
  pose proof (valid_finite_scaled_pos _ _ _ Hv) as [_ He].
  split; [exact Hsf | ]. split; [exact He | ].
  unfold scaled in Hs.
  assert (HP : 0 < 2 ^ 1074) by (apply pow2_pos; lia).
  split.
  - intros He0. rewrite (Z.pow_add_r 2 e 1074), Z.mul_assoc in Hs by lia.
    apply Z.mul_reg_r in Hs; lia.
  - intros He0.
    assert (HQ : 0 < 2 ^ (e + 1074)) by (apply pow2_pos; lia).
    assert (H2 : 2 ^ 1074 = 2 ^ (- e) * 2 ^ (e + 1074))
      by (rewrite <- Z.pow_add_r by lia; f_equal; lia).
    rewrite H2, Z.mul_assoc in Hs.
    apply Z.mul_reg_r in Hs; lia.
Qed.

Lemma array_index_num_of_nat (n : nat) :
  (1 <= n)%nat -> Z.of_nat n <= 4294967294 ->
  array_index (num_of_nat n) = Some (Z.of_nat n).
Proof.
  intros Hn Hb.
  destruct (num_of_nat_SF n Hn ltac:(lia)) as (m & e & Hsf & He & Hpos & Hneg).
  unfold array_index, is_integral. rewrite Hsf.
  destruct (Z.leb_spec 0 e) as [He0 | He0]; cbn [orb].
  - rewrite Z.shiftl_mul_pow2, Hpos by lia.
    destruct (Z.leb_spec (Z.of_nat n) 4294967294); [reflexivity | lia].
  - assert (HP : 0 < 2 ^ (- e)) by (apply pow2_pos; lia).
    rewrite Z.shiftl_div_pow2, Hneg, Z.mod_mul, Z.div_mul by lia.
    cbn [Z.eqb andb].
    destruct (Z.leb_spec (Z.of_nat n) 4294967294); [reflexivity | lia].
Qed.

End IntegerKeys.

(** ** Objects *)

Section PropertyFacts.
Context {V : Type}.

Lemma property_get_set_same (o : list (number * V)) key v :
  property_get (property_set o key v) key = Some v.
Proof.
  induction o as [ | [k w] o IH]; cbn [property_set property_get].
  - rewrite same_key_refl. reflexivity.
  - destruct (same_key k key) eqn:Hk; cbn [property_get]; rewrite Hk; [reflexivity | exact IH].
Qed.

(** On the properties [num_of_nat v => g v] for [v] in [l], the property of
    a listed [v0] is [g v0], and setting it changes that property only. *)
Lemma property_get_listed (g : nat -> V) (l : list nat) (v0 : nat) :
  Forall (fun v => (Z.of_nat v < 2 ^ 53)%Z) l -> In v0 l ->
  property_get (map (fun v => (num_of_nat v, g v)) l) (num_of_nat v0) = Some (g v0).
Proof.
  intros Hall Hin. induction l as [ | v l IH]; [contradiction | ].
  inversion Hall as [ | ? ? Hv Hl]; subst. cbn [map property_get].
  assert (Hv0 : (Z.of_nat v0 < 2 ^ 53)%Z) by (rewrite Forall_forall in Hall; apply Hall, Hin).
  rewrite same_key_num_of_nat by assumption.
  destruct (Nat.eqb_spec v v0) as [-> | Hne]; [reflexivity | ].
  apply IH; [exact Hl | ]. destruct Hin as [Heq | Hin]; [contradiction | exact Hin].
Qed.

Lemma property_set_listed (g : nat -> V) (l : list nat) (v0 : nat) (x : V) :
  Forall (fun v => (Z.of_nat v < 2 ^ 53)%Z) l -> NoDup l -> In v0 l ->
  property_set (map (fun v => (num_of_nat v, g v)) l) (num_of_nat v0) x
  = map (fun v => (num_of_nat v, if Nat.eqb v v0 then x else g v)) l.
Proof.
  intros Hall Hnd Hin. induction l as [ | v l IH]; [contradiction | ].
  inversion Hall as [ | ? ? Hv Hl]; subst. inversion Hnd as [ | ? ? Hnotin Hnd']; subst.
  cbn [map property_set].
  assert (Hv0 : (Z.of_nat v0 < 2 ^ 53)%Z) by (rewrite Forall_forall in Hall; apply Hall, Hin).
  rewrite same_key_num_of_nat by assumption.
  destruct (Nat.eqb_spec v v0) as [-> | Hne].
  - f_equal. apply map_ext_in. intros v Hvin.
    destruct (Nat.eqb_spec v v0) as [-> | _]; [contradiction | reflexivity].
  - f_equal. apply IH; try assumption.
    destruct Hin as [Heq | Hin]; [contradiction | exact Hin].
Qed.

Lemma property_set_new (g : nat -> V) (l : list nat) (v0 : nat) (x : V) :
  Forall (fun v => (Z.of_nat v < 2 ^ 53)%Z) l -> (Z.of_nat v0 < 2 ^ 53)%Z -> ~ In v0 l ->
  property_set (map (fun v => (num_of_nat v, g v)) l) (num_of_nat v0) x
  = map (fun v => (num_of_nat v, g v)) l ++ [(num_of_nat v0, x)].
Proof.
  intros Hall Hv0 Hnotin. induction l as [ | v l IH]; [reflexivity | ].
  inversion Hall as [ | ? ? Hv Hl]; subst. cbn [map property_set app].
  rewrite same_key_num_of_nat by assumption.
  destruct (Nat.eqb_spec v v0) as [-> | Hne].
  - exfalso. apply Hnotin. left. reflexivity.
  - f_equal. apply IH; [exact Hl | ]. intros Hin. apply Hnotin. right. exact Hin.
Qed.

Lemma filter_none (A : Type) (f : A -> bool) (l : list A) :
  (forall x, In x l -> f x = false) -> filter f l = [].
Proof.
  induction l as [ | x l IH]; intros H; [reflexivity | ].
  cbn [filter]. rewrite (H x) by (left; reflexivity).
  apply IH. intros y Hy. apply H. right. exact Hy.
Qed.

(** Properties created in ascending order of their indices are enumerated
    in that order. *)
Lemma insert_by_key_sorted (p : number * V) (l : list (number * V)) :
  Forall (fun q => (key_index p <= key_index q)%Z) l ->
  insert_by_key p l = p :: l.
Proof.
  intros Hall. destruct l as [ | q l]; [reflexivity | ].
  inversion Hall as [ | ? ? Hq _]; subst. cbn [insert_by_key].
  destruct (Z.leb_spec (key_index p) (key_index q)); [reflexivity | lia].
Qed.

Lemma own_entries_listed (g : nat -> V) (a n : nat) :
  (1 <= a)%nat -> (Z.of_nat (a + n) <= 4294967295)%Z ->
  own_entries (map (fun v => (num_of_nat v, g v)) (seq a n))
  = map (fun v => (num_of_nat v, g v)) (seq a n).
Proof.
  intros Ha Hb. unfold own_entries.
  assert (Hidx : forall v, In v (seq a n) ->
                 array_index (num_of_nat v) = Some (Z.of_nat v)).
  { intros v Hv. apply in_seq in Hv. apply array_index_num_of_nat; lia. }
  assert (Hf1 : filter key_is_index (map (fun v => (num_of_nat v, g v)) (seq a n))
                = map (fun v => (num_of_nat v, g v)) (seq a n)).
  { apply forallb_filter_id. apply forallb_forall. intros p Hp.
    apply in_map_iff in Hp. destruct Hp as (v & <- & Hv).
    unfold key_is_index. cbn [fst]. rewrite Hidx by exact Hv. reflexivity. }
  assert (Hf2 : filter (fun p => negb (key_is_index p))
                       (map (fun v => (num_of_nat v, g v)) (seq a n)) = []).
  { apply filter_none. intros p Hp.
    apply in_map_iff in Hp. destruct Hp as (v & <- & Hv).
    unfold key_is_index. cbn [fst]. rewrite Hidx by exact Hv. reflexivity. }
  rewrite Hf1, Hf2, app_nil_r. clear Hf1 Hf2.
  revert a Ha Hb Hidx. induction n as [ | n IH]; intros a Ha Hb Hidx; [reflexivity | ].
  cbn [seq map fold_right].
  rewrite IH; [ | lia | lia | intros v Hv; apply Hidx; right; exact Hv].
  apply insert_by_key_sorted. apply Forall_forall. intros q Hq.
  apply in_map_iff in Hq. destruct Hq as (v & <- & Hv).
  unfold key_index. cbn [fst].
  rewrite (Hidx a) by (left; reflexivity).
  rewrite (Hidx v) by (right; exact Hv).
  apply in_seq in Hv. lia.
Qed.

End PropertyFacts.

Section DiceFacts.
Local Open Scope nat_scope.
Variable random : nat -> number.
Variable numSides : nat.
Hypothesis sides_bound : (Z.of_nat numSides <= 4294967294)%Z.

Lemma sides_small v : In v (seq 1 numSides) -> (Z.of_nat v < 2 ^ 53)%Z.
Proof.
  intros Hv. apply in_seq in Hv.
  assert (4294967294 < 2 ^ 53)%Z by reflexivity. lia.
Qed.

Lemma sides_all_small : Forall (fun v => (Z.of_nat v < 2 ^ 53)%Z) (seq 1 numSides).
Proof. apply Forall_forall. exact sides_small. Qed.

Lemma dice_init_listed :
  dice_init numSides = map (fun v => (num_of_nat v, 0%float)) (seq 1 numSides).
Proof.
  unfold dice_init. revert sides_bound. generalize numSides as n.
  induction n as [ | n IH]; intros Hb; [reflexivity | ].
  rewrite seq_S, fold_left_app, map_app, IH by lia. cbn [fold_left map Nat.add].
  assert (H53 : (4294967294 < 2 ^ 53)%Z) by reflexivity.
  rewrite ToPropertyKey_num_of_nat by lia.
  apply (property_set_new (fun _ => 0%float)).
  - apply Forall_forall. intros v Hv. apply in_seq in Hv. lia.
  - lia.
  - intros Hin. apply in_seq in Hin. lia.
Qed.

Abbreviation dice_run :=
  (fun n => fold_left (dice_iteration random numSides) (seq 0 n)
                      {| rolls := []; dice_frequency := dice_init numSides |}).

Lemma rolls_showing_S n v :
  rolls_showing random numSides (S n) v
  = rolls_showing random numSides n v
    + (if same_key (roll_of random numSides n) (num_of_nat v) then 1 else 0).
Proof.
  unfold rolls_showing. rewrite seq_S, filter_app, length_app. cbn [filter Nat.add].
  destruct (same_key _ _); reflexivity.
Qed.

Lemma rolls_showing_le n v : rolls_showing random numSides n v <= n.
Proof.
  induction n as [ | n IH]; [reflexivity | ].
  rewrite rolls_showing_S. destruct (same_key _ _); lia.
Qed.

Lemma dice_run_rolls n :
  rolls (dice_run n) = map (roll_of random numSides) (seq 0 n).
Proof.
  induction n as [ | n IH]; [reflexivity | ].
  rewrite seq_S, fold_left_app, map_app. cbn [fold_left dice_iteration rolls].
  rewrite IH. reflexivity.
Qed.

Lemma dice_run_frequency n :
  (Z.of_nat n < 2 ^ 53)%Z ->
  (forall i, i < n -> exists v, 1 <= v <= numSides
                                /\ roll_of random numSides i = num_of_nat v) ->
  dice_frequency (dice_run n)
  = map (fun v => (num_of_nat v, num_of_nat (rolls_showing random numSides n v)))
        (seq 1 numSides).
Proof.
  induction n as [ | n IH]; intros Hn Hrolls.
  - cbn [seq fold_left dice_frequency]. apply dice_init_listed.
  - rewrite seq_S, fold_left_app. cbn [fold_left dice_iteration dice_frequency Nat.add].
    rewrite IH by (try lia; intros i Hi; apply Hrolls; lia).
    destruct (Hrolls n ltac:(lia)) as (v0 & Hv0 & Hroll).
    unfold roll_of in Hroll. rewrite Hroll.
    assert (Hin : In v0 (seq 1 numSides)) by (apply in_seq; lia).
    pose proof (sides_small v0 Hin) as Hs.
    rewrite ToPropertyKey_num_of_nat by lia.
    rewrite (property_get_listed
               (fun v => num_of_nat (rolls_showing random numSides n v)))
      by (apply sides_all_small || exact Hin).
    cbn [ToNumber_property].
    pose proof (rolls_showing_le n v0) as Hle.
    rewrite (num_of_nat_succ (rolls_showing random numSides n v0)) by lia.
    rewrite (property_set_listed
               (fun v => num_of_nat (rolls_showing random numSides n v)))
      by (apply sides_all_small || apply seq_NoDup || exact Hin).
    apply map_ext_in. intros v Hv. f_equal.
    rewrite rolls_showing_S. unfold roll_of. rewrite Hroll.
    rewrite same_key_num_of_nat by (assumption || apply sides_small, Hv).
    rewrite (Nat.eqb_sym v v0).
    destruct (Nat.eqb_spec v0 v) as [-> | Hne]; f_equal; lia.
Qed.

Lemma indicator_sum (f : nat -> nat) (v0 : nat) (l : list nat) :
  NoDup l -> In v0 l ->
  list_sum (map (fun v => f v + (if Nat.eqb v0 v then 1 else 0)) l)
  = S (list_sum (map f l)).
Proof.
  intros Hnd Hin. induction l as [ | v l IH]; [contradiction | ].
  inversion Hnd as [ | ? ? Hnotin Hnd']; subst. cbn [map list_sum fold_right].
  fold (list_sum (map f l)).
  fold (list_sum (map (fun v => f v + (if Nat.eqb v0 v then 1 else 0)) l)).
  destruct Hin as [-> | Hin].
  - rewrite Nat.eqb_refl.
    assert (Hrest : map (fun v => f v + (if Nat.eqb v0 v then 1 else 0)) l = map f l).
    { apply map_ext_in. intros v Hv.
      destruct (Nat.eqb_spec v0 v) as [-> | _]; [contradiction | lia]. }
    rewrite Hrest. lia.
  - rewrite IH by assumption.
    destruct (Nat.eqb_spec v0 v) as [-> | _]; [contradiction | lia].
Qed.

Lemma rolls_showing_sum n :
  (forall i, i < n -> exists v, 1 <= v <= numSides
                                /\ roll_of random numSides i = num_of_nat v) ->
  list_sum (map (rolls_showing random numSides n) (seq 1 numSides)) = n.
Proof.
  induction n as [ | n IH]; intros Hrolls.
  - unfold rolls_showing. cbn [seq filter length].
    induction (seq 1 numSides) as [ | v l IHl]; [reflexivity | exact IHl].
  - destruct (Hrolls n ltac:(lia)) as (v0 & Hv0 & Hroll).
    assert (Hin : In v0 (seq 1 numSides)) by (apply in_seq; lia).
    rewrite <- (IH ltac:(intros i Hi; apply Hrolls; lia)) at 2.
    rewrite <- (indicator_sum _ v0) by (apply seq_NoDup || exact Hin).
    f_equal. apply map_ext_in. intros v Hv.
    rewrite rolls_showing_S, Hroll.
    rewrite same_key_num_of_nat by (apply sides_small; assumption). reflexivity.
Qed.

End DiceFacts.

(** X27.  When every roll is one of the faces 1 to [numSides],
    [diceRollSimulation] reports exactly the faces, in ascending order,
    each with the number of rolls that showed it, and these counts add up
    to [numRolls]; the reported mean is the mean of the rolls. *)
Theorem diceRollSimulation_counts (random : nat -> number) (numRolls numSides : nat) :
  (Z.of_nat numSides <= 4294967294)%Z -> (Z.of_nat numRolls < 2 ^ 53)%Z ->
  (forall i, (i < numRolls)%nat ->
             exists v, (1 <= v <= numSides)%nat
                       /\ roll_of random numSides i = num_of_nat v) ->
  let r := diceRollSimulation random numRolls numSides in
  map DiceRoll.value (DiceRoll.distributionData r) = map num_of_nat (seq 1 numSides)
  /\ map DiceRoll.count (DiceRoll.distributionData r)
     = map (fun v => num_of_nat (rolls_showing random numSides numRolls v)) (seq 1 numSides)
  /\ list_sum (map (rolls_showing random numSides numRolls) (seq 1 numSides)) = numRolls
  /\ DiceRoll.mean r = mean (map (roll_of random numSides) (seq 0 numRolls)).
Proof.
  intros Hs Hn Hrolls. unfold diceRollSimulation, dice_loop.
  cbn [DiceRoll.distributionData DiceRoll.mean].
  rewrite (dice_run_frequency random numSides Hs numRolls Hn Hrolls).
  rewrite dice_run_rolls.
  rewrite (own_entries_listed _ 1 numSides) by lia.
  rewrite !map_map. cbn [fst DiceRoll.value DiceRoll.count]. unfold Number_of_key.
  split; [reflexivity | ].
  split; [ | split; [apply (rolls_showing_sum random numSides Hs numRolls Hrolls) | reflexivity]].
  apply map_ext_in. intros v Hv.
  pose proof (sides_small numSides Hs v Hv) as Hsm. apply in_seq in Hv.
  rewrite ToPropertyKey_num_of_nat by lia.
  rewrite (property_get_listed
             (fun v => num_of_nat (rolls_showing random numSides numRolls v)));
    [reflexivity | apply sides_all_small, Hs | apply in_seq; lia].
Qed.

(** ** [stats.histogram] on a constant sample *)

Lemma Math_floor_nan : Math_floor nan = None.
Proof. reflexivity. Qed.

Lemma constant_sample_extremes (data : list number) (c : number) :
  is_finite c = true -> data <> [] -> Forall (fun v => v = c) data ->
  Math_min data = c /\ Math_max data = c.
Proof.
  intros Hc Hne Hall.
  assert (Hnn : Forall (fun v => is_nan v = false) data).
  { rewrite Forall_forall in *. intros v Hv. rewrite (Hall v Hv).
    apply is_finite_not_nan, Hc. }
  destruct (Math_min_spec data Hne Hnn) as (Hin & _).
  destruct (Math_max_spec data Hne Hnn) as (Hin' & _).
  rewrite Forall_forall in Hall. split; apply Hall; assumption.
Qed.

Lemma increment_none_fold (data : list number) (f : number -> option Z) (cells : list nat) :
  (forall v, In v data -> f v = None) ->
  fold_left (fun binCounts value => increment binCounts (f value)) data cells = cells.
Proof.
  revert cells. induction data as [ | v data IH]; intros cells H; [reflexivity | ].
  cbn [fold_left]. rewrite (H v) by (left; reflexivity). cbn [increment].
  apply IH. intros w Hw. apply H. right. exact Hw.
Qed.

(** X28.  A sample whose values are all the same finite number has a range
    of zero, so the bin width is zero (or [NaN]) and every bin index is
    [NaN]: [histogram] returns its [bins] bins with a count of 0 in each,
    whatever the number of bins. *)
Theorem histogram_constant_sample (data : list number) (bins : nat) (c : number) :
  is_finite c = true -> data <> [] -> Forall (fun v => v = c) data ->
  length (histogram data bins) = bins
  /\ Forall (fun b => count b = 0%nat) (histogram data bins).
Proof.
  intros Hc Hne Hall.
  destruct (constant_sample_extremes data c Hc Hne Hall) as [Hmin Hmax].
  assert (Hcounts : binCounts_of data bins = repeat 0%nat bins).
  { unfold binCounts_of. rewrite Hmin, Hmax, sub_diag by exact Hc.
    apply increment_none_fold. intros v Hv.
    rewrite Forall_forall in Hall. rewrite (Hall v Hv).
    unfold binIndex_of. rewrite sub_diag by exact Hc.
    assert (Hq : 0 / (0 / num_of_nat bins) = nan).
    { destruct (zero_div_cases 0 (num_of_nat bins) eq_refl) as [Hz | ->].
      - apply zero_div_zero; [reflexivity | exact Hz].
      - apply div_nan_r. }
    rewrite Hq, Math_floor_nan. reflexivity. }
  unfold histogram. rewrite Hcounts. split.
  - rewrite length_map, length_combine, length_map, !length_seq. apply Nat.min_id.
  - apply Forall_forall. intros b Hb. apply in_map_iff in Hb.
    destruct Hb as ([label index] & <- & _). cbn [count]. apply nth_repeat_zero.
Qed.

Lemma histogram_constant_sample_witness :
  length (histogram [5; 5; 5] 4) = 4%nat
  /\ Forall (fun b => count b = 0%nat) (histogram [5; 5; 5] 4).
Proof.
  apply (histogram_constant_sample [5; 5; 5] 4 5).
  - reflexivity.
  - discriminate.
  - repeat constructor.
Defined.

(** ** [pairedTTest] on identical samples *)

Section PairedIdentical.
Context {E : MathEngine}.

Lemma fold_add_plus_zeros (l : list number) :
  Forall (fun v => v = 0) l -> fold_left (fun sum val => sum + val) l 0 = 0.
Proof.
  induction 1 as [ | x l Hx Hl IH]; [reflexivity | ].
  cbn [fold_left]. rewrite Hx. change (0 + 0) with 0. exact IH.
Qed.

Lemma fold_squares_zeros (l : list number) :
  Forall (fun v => v = 0) l ->
  fold_left (fun sum val => sum + Math_pow (val - 0) 2) l 0 = 0.
Proof.
  induction 1 as [ | x l Hx Hl IH]; [reflexivity | ].
  cbn [fold_left]. rewrite Hx. change (0 - 0) with 0.
  rewrite Math_pow_zero_2 by reflexivity. change (0 + 0) with 0. exact IH.
Qed.

Lemma zero_div_proper (y : float) : SFproper false (Prim2SF y) = true -> 0 / y = 0.
Proof.
  intros Hy. apply Prim2SF_inj. rewrite div_spec. change (Prim2SF 0) with (S754_zero false).
  destruct (Prim2SF y) as [[]|[]| |[] m e]; try discriminate; reflexivity.
Qed.

Lemma differences_same (sample : list number) :
  Forall (fun v => is_finite v = true) sample ->
  Forall (fun v => v = 0) (differences sample sample).
Proof.
  intros Hfin. apply Forall_forall. intros d Hd.
  apply (In_nth _ _ nan) in Hd. destruct Hd as (i & Hi & <-).
  rewrite differences_length in Hi. rewrite differences_nth by exact Hi.
  unfold element. apply sub_diag.
  rewrite Forall_forall in Hfin. apply Hfin, nth_In, Hi.
Qed.

(** X29.  When the paired samples are identical (finite values, at least two
    of them) every difference is zero, the standard error is zero and the
    statistic is zero divided by zero: [pairedTTest] returns
    [tStatistic = NaN] with [meanDifference = 0], and does not reject with
    the fallback [jStat] object. *)
Theorem pairedTTest_identical_samples (sample : list number) (alpha : number) :
  (2 <= length sample)%nat -> (Z.of_nat (length sample) < 2 ^ 32)%Z ->
  Forall (fun v => is_finite v = true) sample -> (alpha <=? 1) = true ->
  exists r, pairedTTest (jStat None) sample sample alpha = Return r
            /\ PairedTTest.meanDifference r = 0
            /\ PairedTTest.tStatistic r = nan
            /\ PairedTTest.reject r = false.
Proof.
  intros Hlen Hb Hfin Halpha. unfold pairedTTest.
  rewrite Nat.eqb_refl. cbn [negb]. eexists. split; [reflexivity | ].
  cbn [PairedTTest.meanDifference PairedTTest.tStatistic PairedTTest.reject].
  pose proof (differences_same sample Hfin) as Hz.
  pose proof (differences_length sample sample) as Hdl.
  assert (H63 : (2 ^ 32 < 2 ^ 63)%Z) by reflexivity.
  assert (Hmean : mean (differences sample sample) = 0).
  { unfold mean. rewrite fold_add_plus_zeros by exact Hz.
    apply zero_div_proper. rewrite Hdl. apply num_of_nat_proper; lia. }
  assert (Hsd : standardDeviation (differences sample sample) = 0).
  { unfold standardDeviation, variance. rewrite Hmean, fold_squares_zeros by exact Hz.
    rewrite zero_div_proper by (rewrite Hdl; apply num_of_Z_pred_proper; lia).
    reflexivity. }
  rewrite Hmean, Hsd.
  rewrite (zero_div_proper (Math_sqrt (num_of_nat (length (differences sample sample)))))
    by (apply sqrt_proper; rewrite Hdl; apply num_of_nat_proper; lia).
  change (0 / 0) with nan.
  split; [reflexivity | ]. split; [reflexivity | ].
  change (2 * (1 - studentt_cdf_or_half (jStat None) (Math_abs nan) _)) with 1.
  apply leb_true_ltb_false, Halpha.
Qed.

End PairedIdentical.

Lemma pairedTTest_identical_samples_witness :
  exists r, @pairedTTest reference_engine (jStat None) [1; 2; 3] [1; 2; 3] 0.05 = Return r
            /\ PairedTTest.meanDifference r = 0
            /\ PairedTTest.tStatistic r = nan
            /\ PairedTTest.reject r = false.
Proof.
  apply (@pairedTTest_identical_samples reference_engine [1; 2; 3] 0.05).
  - cbn. lia.
  - cbn. lia.
  - repeat constructor.
  - reflexivity.
Defined.

(** ** [stats.mode]: the order of the result *)

Lemma insert_by_index_sorted (p : number * nat) (l : object) :
  StronglySorted (fun a b => (index_of a <= index_of b)%Z) l ->
  StronglySorted (fun a b => (index_of a <= index_of b)%Z) (insert_by_index p l).
Proof.
  intros Hs. induction Hs as [ | q l Hs IH Hq]; cbn [insert_by_index].
  - repeat constructor.
  - destruct (Z.leb_spec (index_of p) (index_of q)) as [Hle | Hgt].
    + constructor; [constructor; assumption | ].
      constructor; [exact Hle | ].
      rewrite Forall_forall in *. intros r Hr. specialize (Hq r Hr). lia.
    + constructor; [exact IH | ].
      apply Forall_forall. intros r Hr.
      apply (Permutation_in _ (insert_by_index_perm p l)) in Hr.
      destruct Hr as [<- | Hr]; [lia | ].
      rewrite Forall_forall in Hq. apply Hq, Hr.
Qed.

Lemma sort_by_index_sorted (l : object) :
  StronglySorted (fun a b => (index_of a <= index_of b)%Z) (sort_by_index l).
Proof.
  unfold sort_by_index. induction l as [ | p l IH]; cbn [fold_right]; [constructor | ].
  apply insert_by_index_sorted, IH.
Qed.

Lemma StronglySorted_filter (A : Type) (R : A -> A -> Prop) (f : A -> bool) (l : list A) :
  StronglySorted R l -> StronglySorted R (filter f l).
Proof.
  induction 1 as [ | x l Hs IH Hx]; cbn [filter]; [constructor | ].
  destruct (f x); [ | exact IH].
  constructor; [exact IH | ].
  rewrite Forall_forall in *. intros y Hy. apply filter_In in Hy. apply Hx, Hy.
Qed.

Lemma StronglySorted_map (A B : Type) (R : A -> A -> Prop) (R' : B -> B -> Prop)
    (f : A -> B) (l : list A) :
  (forall a b, In a l -> In b l -> R a b -> R' (f a) (f b)) ->
  StronglySorted R l -> StronglySorted R' (map f l).
Proof.
  intros Hf Hs. induction Hs as [ | x l Hs IH Hx]; cbn [map]; [constructor | ].
  constructor.
  - apply IH. intros a b Ha Hb. apply Hf; right; assumption.
  - rewrite Forall_forall in *. intros y Hy. apply in_map_iff in Hy.
    destruct Hy as (a & <- & Ha). apply Hf; [left; reflexivity | right; exact Ha | ].
    apply Hx, Ha.
Qed.

Lemma index_value_key (n : nat) :
  (Z.of_nat n <= 4294967294)%Z ->
  ToPropertyKey (num_of_nat n) = num_of_nat n
  /\ array_index (num_of_nat n) = Some (Z.of_nat n).
Proof.
  intros Hn. assert (H53 : (4294967294 < 2 ^ 53)%Z) by reflexivity.
  destruct n as [ | n]; [split; reflexivity | ].
  split; [apply ToPropertyKey_num_of_nat; lia | apply array_index_num_of_nat; lia].
Qed.

(** X30.  On a sample of non-negative integers (below [2^32 - 1]) the keys
    of the frequency object are array indices, which an object enumerates
    in ascending order: [stats.mode] returns the most frequent values in
    ascending order, not in order of appearance. *)
Theorem mode_ascending (data : list number) :
  Forall (fun v => exists n : nat, (Z.of_nat n <= 4294967294)%Z /\ v = num_of_nat n) data ->
  StronglySorted (fun a b => (a <=? b) = true) (mode data).
Proof.
  intros Hall. assert (H53 : (4294967294 < 2 ^ 53)%Z) by reflexivity.
  assert (Hkeys : forall p, In p (frequencies data) ->
                  exists n : nat, (Z.of_nat n <= 4294967294)%Z /\ fst p = num_of_nat n).
  { intros p Hp.
    assert (Hk : In (fst p) (map fst (frequencies data))) by (apply in_map, Hp).
    apply frequencies_keys in Hk. destruct Hk as (x & Hx & Hkey).
    rewrite Forall_forall in Hall. destruct (Hall x Hx) as (n & Hn & ->).
    exists n. split; [exact Hn | ].
    rewrite <- Hkey. apply index_value_key, Hn. }
  assert (Hidx : forall p, In p (frequencies data) -> is_array_index p = true).
  { intros p Hp. destruct (Hkeys p Hp) as (n & Hn & Hf).
    unfold is_array_index. rewrite Hf.
    destruct (index_value_key n Hn) as [_ ->]. reflexivity. }
  unfold mode, Object_keys, own_properties.
  rewrite (forallb_filter_id is_array_index)
    by (apply forallb_forall; exact Hidx).
  rewrite (filter_none _ (fun p => negb (is_array_index p)))
    by (intros p Hp; rewrite (Hidx p Hp); reflexivity).
  rewrite app_nil_r.
  apply (StronglySorted_map _ _ (fun a b => (a <=? b) = true) (fun a b => (a <=? b) = true));
    [intros a b _ _ H; exact H | ].
  apply StronglySorted_filter.
  apply (StronglySorted_map _ _ (fun a b => (index_of a <= index_of b)%Z));
    [ | apply sort_by_index_sorted].
  intros p q Hp Hq Hle.
  apply (Permutation_in _ (sort_by_index_perm _)) in Hp, Hq.
  destruct (Hkeys p Hp) as (n & Hn & Hfp). destruct (Hkeys q Hq) as (m & Hm & Hfq).
  unfold index_of in Hle. rewrite Hfp, Hfq in *.
  destruct (index_value_key n Hn) as [_ Hin]. destruct (index_value_key m Hm) as [_ Him].
  rewrite Hin, Him in Hle.
  rewrite num_of_nat_leb by lia. apply Nat.leb_le. lia.
Qed.

Lemma mode_ascending_witness :
  StronglySorted (fun a b => (a <=? b) = true) (mode [3; 1; 2; 3; 1]).
Proof.
  apply (mode_ascending [3; 1; 2; 3; 1]).
  repeat constructor;
    [exists 3%nat | exists 1%nat | exists 2%nat | exists 3%nat | exists 1%nat];
    (split; [lia | reflexivity]).
Defined.

(** ** The properties on concrete inputs *)

Lemma chiSquareGoodnessOfFit_perfect_fit_witness :
  exists r, @chiSquareGoodnessOfFit reference_engine [10; 20; 30] [10; 20; 30] 0.05 = Return r
            /\ ChiSquare.chiSquareStatistic r = 0
            /\ ChiSquare.reject r = false.
Proof.
  apply (@chiSquareGoodnessOfFit_perfect_fit reference_engine [10; 20; 30] 0.05).
  repeat constructor.
Defined.

Lemma oneWayANOVA_single_group_witness :
  let r := @oneWayANOVA reference_engine [[1; 2; 3]] 0.05 in
  ANOVA.dfBetween r = 0%Z
  /\ ANOVA.sumOfSquaresBetween r = 0
  /\ ANOVA.fStatistic r = nan
  /\ ANOVA.reject r = false /\ ANOVA.pValue r = 0.1.
Proof.
  apply (@oneWayANOVA_single_group reference_engine [1; 2; 3] 0.05); reflexivity.
Defined.

Lemma chiSquareIndependence_short_row_witness :
  exists r, @chiSquareIndependence reference_engine [[10; 20; 30]; [5; 15]] 0.05 = Return r
    /\ ChiSquareIndependence.chiSquareStatistic r = nan
    /\ ChiSquareIndependence.reject r = false
    /\ ChiSquareIndependence.pValue r = 0.1
    /\ Forall (fun row => forall j, (2 <= j < 3)%nat -> element row j = nan)
              (ChiSquareIndependence.expectedMatrix r).
Proof.
  apply (@chiSquareIndependence_short_row reference_engine [[10; 20; 30]; [5; 15]] 0.05 1).
  - cbn. lia.
  - cbn. lia.
Defined.

Lemma chiSquareIndependence_zero_row_witness :
  exists r, @chiSquareIndependence reference_engine [[10; 20]; [0; 0]] 0.05 = Return r
    /\ ChiSquareIndependence.chiSquareStatistic r = nan
    /\ ChiSquareIndependence.reject r = false
    /\ ChiSquareIndependence.pValue r = 0.1.
Proof.
  apply (@chiSquareIndependence_zero_row reference_engine [[10; 20]; [0; 0]] 0.05 1).
  - cbn. lia.
  - cbn. lia.
  - repeat constructor.
Defined.

Lemma binomialPMF_overflow_witness :
  (exists c, combination 171 (num_of_nat 171) (num_of_nat 2) = Some c
             /\ is_finite c = false)
  /\ (exists v, @binomialPMF reference_engine 171 (num_of_nat 2) (num_of_nat 171) 0.5 = Some v
                /\ is_finite v = false).
Proof.
  apply (@binomialPMF_overflow reference_engine 171 2 171 0.5); lia.
Defined.

Lemma poissonPMF_overflow_witness :
  exists v, @poissonPMF reference_engine 171 (num_of_nat 171) 3 = Some v
            /\ (is_zero v = true \/ v = nan).
Proof.
  apply (@poissonPMF_overflow reference_engine 171 171 3); lia.
Defined.

Lemma diceRollSimulation_counts_witness :
  let random := fun i => if Nat.even i then 0.25 else 0.75 in
  let r := diceRollSimulation random 4 6 in
  map DiceRoll.value (DiceRoll.distributionData r) = map num_of_nat (seq 1 6)
  /\ map DiceRoll.count (DiceRoll.distributionData r)
     = map (fun v => num_of_nat (rolls_showing random 6 4 v)) (seq 1 6)
  /\ list_sum (map (rolls_showing random 6 4) (seq 1 6)) = 4%nat
  /\ DiceRoll.mean r = mean (map (roll_of random 6) (seq 0 4)).
Proof.
  apply (diceRollSimulation_counts (fun i => if Nat.even i then 0.25 else 0.75) 4 6).
  - lia.
  - lia.
  - intros i _. unfold roll_of. destruct (Nat.even i).
    + exists 2%nat. split; [lia | vm_compute; reflexivity].
    + exists 5%nat. split; [lia | vm_compute; reflexivity].
Defined.
